(** * Space Budget Tracker: the monthly ledger and its analytics

    A shallow embedding of the ledger logic of [src/App.js] and of the
    analytics of [src/Insights.js], with the properties of the
    specification and further properties of the code stated over it.

    Conventions of the embedding.
    - A JavaScript number is a [number]: an exact rational, one of the two
      infinities, or NaN.  Rounding, overflow and the sign of zero are not
      represented.  A property therefore ties every flag, title or score to
      the numbers that the program itself computes; an equation between
      such a number and a sum of amounts holds up to rounding.
    - A JavaScript object used as a dictionary is a [gmap] with string keys;
      an object whose values are only ever [true] is a [gset] of its keys.
    - React state is one record, [State]; a handler is a function from the
      state of the render it closes over to the next state, together with
      the effects it triggers.  A functional update
      [setX(prev => ...)] is written as the function of [prev] it is.
    - A task deferred with [setTimeout] is a step of its own; the 100 ms of
      the deferral are not represented.  The limit check that the add
      handler defers is the function of the render in which the handler
      ran: it reads the state of that render, and its functional updates
      apply to the state that is current when it fires.  The body of the
      auto-populate effect is run on the state the effect closes over.
    - [Date.now()] is an argument of the handlers that read the clock.
    - Strings are sequences of bytes, compared byte by byte. *)

From Stdlib Require Import QArith Qpower Lqa Lia ZArith String Ascii List Bool.
From stdpp Require Import gmap strings list fin_maps sorting.

Local Open Scope Z_scope.

(** ** JavaScript numbers *)

Module JS.

Inductive number : Type :=
  | Num (q : Q)
  | PosInf
  | NegInf
  | NaN.

Definition Qlt_bool (a b : Q) : bool := negb (Qle_bool b a).

Definition zero : number := Num 0.

Definition isFinite (a : number) : bool :=
  match a with Num _ => true | _ => false end.

(** [-a] *)
Definition neg (a : number) : number :=
  match a with
  | Num q => Num (- q)
  | PosInf => NegInf
  | NegInf => PosInf
  | NaN => NaN
  end.

(** [a + b] *)
Definition add (a b : number) : number :=
  match a, b with
  | NaN, _ | _, NaN => NaN
  | Num x, Num y => Num (x + y)
  | PosInf, NegInf | NegInf, PosInf => NaN
  | PosInf, _ | _, PosInf => PosInf
  | NegInf, _ | _, NegInf => NegInf
  end.

(** [a - b] *)
Definition sub (a b : number) : number := add a (neg b).

(** The sign of a number that is not NaN: [Lt], [Eq] or [Gt] against 0. *)
Definition sign (a : number) : comparison :=
  match a with
  | Num q => Qcompare q 0
  | PosInf => Gt
  | NegInf => Lt
  | NaN => Eq
  end.

Definition infOfSign (c : comparison) : number :=
  match c with Gt => PosInf | Lt => NegInf | Eq => NaN end.

Definition mulSign (c d : comparison) : comparison :=
  match c, d with
  | Eq, _ | _, Eq => Eq
  | Gt, Gt | Lt, Lt => Gt
  | _, _ => Lt
  end.

(** [a * b] *)
Definition mul (a b : number) : number :=
  match a, b with
  | NaN, _ | _, NaN => NaN
  | Num x, Num y => Num (x * y)
  | _, _ => infOfSign (mulSign (sign a) (sign b))
  end.

(** [a / b]; a finite quotient by zero is an infinity of the sign of the
    dividend, [0 / 0] is NaN. *)
Definition div (a b : number) : number :=
  match a, b with
  | NaN, _ | _, NaN => NaN
  | Num x, Num y =>
      if Qeq_bool y 0 then infOfSign (sign a) else Num (x / y)
  | Num _, _ => Num 0
  | _, Num y => infOfSign (mulSign (sign a) (if Qlt_bool y 0 then Lt else Gt))
  | _, _ => NaN
  end.

(** [a < b] *)
Definition lt (a b : number) : bool :=
  match a, b with
  | NaN, _ | _, NaN => false
  | Num x, Num y => Qlt_bool x y
  | NegInf, NegInf => false
  | NegInf, _ => true
  | _, PosInf => negb (match a with PosInf => true | _ => false end)
  | _, _ => false
  end.

(** [a > b] *)
Definition gt (a b : number) : bool := lt b a.

(** [a === b] on numbers *)
Definition strictEq (a b : number) : bool :=
  match a, b with
  | Num x, Num y => Qeq_bool x y
  | PosInf, PosInf | NegInf, NegInf => true
  | _, _ => false
  end.

(** [a <= b] *)
Definition le (a b : number) : bool := lt a b || strictEq a b.

(** [a >= b] *)
Definition ge (a b : number) : bool := le b a.

(** ToBoolean on a number: [0] and NaN are falsy. *)
Definition truthy (a : number) : bool :=
  match a with
  | Num q => negb (Qeq_bool q 0)
  | NaN => false
  | _ => true
  end.

(** [a || b] on numbers *)
Definition or (a b : number) : number := if truthy a then a else b.

(** [Math.max(a, b)] *)
Definition max (a b : number) : number :=
  match a, b with
  | NaN, _ | _, NaN => NaN
  | _, _ => if lt a b then b else a
  end.

(** ToBoolean on a string: only the empty string is falsy. *)
Definition truthyStr (s : string) : bool :=
  match s with EmptyString => false | String _ _ => true end.

(** *** [parseFloat] on strings

    The longest prefix of the trimmed string that is a StrDecimalLiteral:
    an optional sign, then [Infinity], or digits with an optional fraction
    and an optional exponent.  NaN when there is no such prefix. *)

Definition isStrWhiteSpace (c : ascii) : bool :=
  let n := N_of_ascii c in
  ((9 <=? n)%N && (n <=? 13)%N) || (n =? 32)%N.

Fixpoint trimStart (s : string) : string :=
  match s with
  | String c s' => if isStrWhiteSpace c then trimStart s' else s
  | EmptyString => s
  end.

Definition digitValue (c : ascii) : option Z :=
  let n := N_of_ascii c in
  if ((48 <=? n)%N && (n <=? 57)%N)%bool then Some (Z.of_N n - 48) else None.

(** The leading decimal digits of [s] and what follows them. *)
Fixpoint takeDigits (s : string) : list Z * string :=
  match s with
  | String c s' =>
      match digitValue c with
      | Some d => let '(ds, r) := takeDigits s' in (d :: ds, r)
      | None => ([], s)
      end
  | EmptyString => ([], s)
  end.

Definition digitsValue (ds : list Z) : Z :=
  fold_left (fun acc d => 10 * acc + d) ds 0.

(** The value of an ExponentPart at the head of [s], [0] when there is none. *)
Definition exponentPart (s : string) : Z :=
  match s with
  | String c s' =>
      if (Ascii.eqb c "e" || Ascii.eqb c "E")%bool then
        match s' with
        | String "-" s'' =>
            match takeDigits s'' with
            | ([], _) => 0
            | (es, _) => - digitsValue es
            end
        | String "+" s'' => digitsValue (fst (takeDigits s''))
        | _ => digitsValue (fst (takeDigits s'))
        end
      else 0
  | EmptyString => 0
  end.

(** An unsigned StrDecimalLiteral at the head of [s]. *)
Definition unsignedDecimal (s : string) : number :=
  if String.prefix "Infinity" s then PosInf else
  let '(intDigits, r1) := takeDigits s in
  let '(fracDigits, r2) :=
    match r1 with
    | String "." r => takeDigits r
    | _ => ([], r1)
    end in
  match intDigits, fracDigits with
  | [], [] => NaN
  | _, _ =>
      let mantissa :=
        (inject_Z (digitsValue intDigits)
         + inject_Z (digitsValue fracDigits)
           / inject_Z (10 ^ Z.of_nat (List.length fracDigits)))%Q in
      Num (mantissa * Qpower (inject_Z 10) (exponentPart r2))
  end.

Definition parseFloat (s : string) : number :=
  match trimStart s with
  | String "-" s' => neg (unsignedDecimal s')
  | String "+" s' => unsignedDecimal s'
  | s' => unsignedDecimal s'
  end.

End JS.

Abbreviation number := JS.number.

(** ** Arrays

    [Array.prototype.sort] is stable.  With a comparator that orders the
    elements consistently every stable sort returns the same list, the one
    computed here by insertion; [le x y] says that the comparator does not
    put [x] after [y]. *)

Section Arrays.
Context {A : Type}.

Fixpoint sortedInsert (le : A → A → bool) (x : A) (l : list A) : list A :=
  match l with
  | [] => [x]
  | y :: l' => if le x y then x :: l else y :: sortedInsert le x l'
  end.

Fixpoint sortBy (le : A → A → bool) (l : list A) : list A :=
  match l with
  | [] => []
  | x :: l' => sortedInsert le x (sortBy le l')
  end.

(** [l.indexOf(x)], [None] for [-1]. *)
Fixpoint indexOf (eqb : A → A → bool) (x : A) (l : list A) : option nat :=
  match l with
  | [] => None
  | y :: l' => if eqb y x then Some O else S <$> indexOf eqb x l'
  end.
End Arrays.

(** [l.sort()] on an array of strings: by code units. *)
Definition sortStrings (l : list string) : list string := sortBy String.leb l.

(** [(a, b) => b - a] as the order it induces; a NaN difference counts as 0. *)
Definition descending (a b : number) : bool := negb (JS.gt (JS.sub b a) JS.zero).

(** ** Data model *)

Record Category : Type := mkCategory {
  cat_id : string;
  cat_name : string;
  cat_color : string
}.

Record Expense : Type := mkExpense {
  exp_id : Z;
  exp_name : string;
  exp_amount : number;
  exp_category : string;
  exp_isRecurring : bool
}.

Record MonthRecord : Type := mkMonth {
  income : number;
  incomeRecurring : bool;
  expenses : list Expense;
  categoryLimits : gmap string number
}.

Abbreviation Ledger := (gmap string MonthRecord).

(** [Object.keys(monthlyBudgets)] *)
Definition keys (l : Ledger) : list string := (map_to_list l).*1.

(** The form of the "add expense" panel; [amount] is the text of the field. *)
Record ExpenseForm : Type := mkForm {
  form_name : string;
  form_amount : string;
  form_category : string;
  form_isRecurring : bool
}.

(** The amount under edit is the stored number until the field is typed in,
    and the text of the field afterwards. *)
Inductive AmountField : Type :=
  | Stored (a : number)
  | Typed (s : string).

Record ExpenseEdit : Type := mkEdit {
  edit_id : Z;
  edit_name : string;
  edit_amount : AmountField;
  edit_category : string;
  edit_isRecurring : bool
}.

Record State : Type := mkState {
  monthlyBudgets : Ledger;
  currentMonth : string;
  newExpense : ExpenseForm;
  isLoaded : bool;
  editingExpenseId : option Z;
  editingExpenseData : option ExpenseEdit;
  soundEnabled : bool;
  notificationsEnabled : bool;
  alertsShown : gset string;
  populatedMonths : gset string  (* populatedMonthsRef.current *)
}.

(** What a handler does besides updating the state. *)
Inductive Effect : Type :=
  | ClickSound
  | SuccessSound
  | WarningSound
  | DeleteSound
  | OverLimitNotification (month : string) (cat : Category) (spent limit : number)
  | ScheduleLimitCheck
  | RemoveItem (key : string)
  | ClearStorage
  | ReloadPage.

(** The expense categories of [App.js]; display names without pictographs. *)
Definition categories : list Category :=
  [ mkCategory "food" "Food" "#ff6b9d";
    mkCategory "housing" "Housing" "#00e5ff";
    mkCategory "transport" "Transport" "#ffd700";
    mkCategory "entertainment" "Entertainment" "#00ff00";
    mkCategory "utilities" "Utilities" "#ff6b00";
    mkCategory "debt" "Debt" "#ff4444";
    mkCategory "personal" "Personal Care & Recreation" "#ff69b4";
    mkCategory "savings" "Savings" "#ffd700";
    mkCategory "vacation" "Vacation Fund" "#00bfff";
    mkCategory "other" "Other" "#c084fc" ].

(** ** [App.js]: the month ledger store *)

Definition emptyMonth : MonthRecord :=
  mkMonth JS.zero false [] ∅.

Definition emptyForm : ExpenseForm := mkForm "" "" "food" false.

Definition getCurrentMonthData (s : State) : MonthRecord :=
  default emptyMonth (monthlyBudgets s !! currentMonth s).

Definition getIncome (s : State) : number := income (getCurrentMonthData s).

Definition getIncomeRecurring (s : State) : bool :=
  incomeRecurring (getCurrentMonthData s) || false.

Definition getExpenses (s : State) : list Expense :=
  expenses (getCurrentMonthData s).

Definition getCategoryLimits (s : State) : gmap string number :=
  categoryLimits (getCurrentMonthData s).

Definition setMonthlyBudgets (f : Ledger → Ledger) (s : State) : State :=
  mkState (f (monthlyBudgets s)) (currentMonth s) (newExpense s) (isLoaded s)
    (editingExpenseId s) (editingExpenseData s) (soundEnabled s)
    (notificationsEnabled s) (alertsShown s) (populatedMonths s).

Definition setCurrentMonth (m : string) (s : State) : State :=
  mkState (monthlyBudgets s) m (newExpense s) (isLoaded s)
    (editingExpenseId s) (editingExpenseData s) (soundEnabled s)
    (notificationsEnabled s) (alertsShown s) (populatedMonths s).

Definition setNewExpense (f : ExpenseForm) (s : State) : State :=
  mkState (monthlyBudgets s) (currentMonth s) f (isLoaded s)
    (editingExpenseId s) (editingExpenseData s) (soundEnabled s)
    (notificationsEnabled s) (alertsShown s) (populatedMonths s).

Definition setEditing (i : option Z) (d : option ExpenseEdit) (s : State) : State :=
  mkState (monthlyBudgets s) (currentMonth s) (newExpense s) (isLoaded s)
    i d (soundEnabled s)
    (notificationsEnabled s) (alertsShown s) (populatedMonths s).

Definition setNotificationsEnabled (b : bool) (s : State) : State :=
  mkState (monthlyBudgets s) (currentMonth s) (newExpense s) (isLoaded s)
    (editingExpenseId s) (editingExpenseData s) (soundEnabled s)
    b (alertsShown s) (populatedMonths s).

Definition setAlertsShown (f : gset string → gset string) (s : State) : State :=
  mkState (monthlyBudgets s) (currentMonth s) (newExpense s) (isLoaded s)
    (editingExpenseId s) (editingExpenseData s) (soundEnabled s)
    (notificationsEnabled s) (f (alertsShown s)) (populatedMonths s).

Definition markPopulated (m : string) (s : State) : State :=
  mkState (monthlyBudgets s) (currentMonth s) (newExpense s) (isLoaded s)
    (editingExpenseId s) (editingExpenseData s) (soundEnabled s)
    (notificationsEnabled s) (alertsShown s) ({[ m ]} ∪ populatedMonths s).

Definition playSound (e : Effect) (s : State) : list Effect :=
  if soundEnabled s then [e] else [].

Definition withCategoryLimits (r : MonthRecord) (l : gmap string number) : MonthRecord :=
  mkMonth (income r) (incomeRecurring r) (expenses r) l.

Definition withIncome (r : MonthRecord) (v : number) (rec : bool) : MonthRecord :=
  mkMonth v rec (expenses r) (categoryLimits r).

Definition withExpenses (r : MonthRecord) (es : list Expense) : MonthRecord :=
  mkMonth (income r) (incomeRecurring r) es (categoryLimits r).

Definition setCategoryLimit (categoryId : string) (limit : number) (s : State) : State :=
  let currentLimits := getCategoryLimits s in
  let newLimits :=
    if JS.gt limit JS.zero then <[categoryId := limit]> currentLimits
    else delete categoryId currentLimits in
  setMonthlyBudgets
    (λ prev, <[currentMonth s := withCategoryLimits (getCurrentMonthData s) newLimits]> prev) s.

(** [isRecurring] is [None] when the argument is left out. *)
Definition setIncome (value : number) (isRecurring : option bool) (s : State) : State :=
  setMonthlyBudgets
    (λ prev, <[currentMonth s :=
        withIncome (getCurrentMonthData s) value
          (match isRecurring with
           | Some b => b
           | None => incomeRecurring (getCurrentMonthData s)
           end)]> prev) s.

Definition toggleIncomeRecurring (s : State) : State * list Effect :=
  let current := getIncomeRecurring s in
  (setIncome (getIncome s) (Some (negb current)) s, playSound ClickSound s).

Definition setExpenses (newExpenses : list Expense) (s : State) : State :=
  setMonthlyBudgets
    (λ prev, <[currentMonth s := withExpenses (getCurrentMonthData s) newExpenses]> prev) s.

(** [parseFloat] of a stored number gives the number back. *)
Definition parseFloatNum (a : number) : number := a.

Definition totalOf (es : list Expense) : number :=
  fold_left (λ total expense, JS.add total (parseFloatNum (exp_amount expense))) es JS.zero.

Definition calculateTotalExpenses (s : State) : number := totalOf (getExpenses s).

Definition calculateRemaining (s : State) : number :=
  JS.sub (getIncome s) (calculateTotalExpenses s).

(** *** Category totals and limit alerts *)

Record CategoryTotal : Type := mkCategoryTotal {
  ct_cat : Category;
  ct_total : number;
  ct_percentage : number;
  ct_limit : number;
  ct_percentOfLimit : number;
  ct_isOverLimit : bool;
  ct_isNearLimit : bool
}.

Definition hundred : number := JS.Num 100.

(** [totals[expense.category] += parseFloat(expense.amount)]; on a key that
    is not there the sum of [undefined] and a number is NaN. *)
Definition addToTotal (totals : gmap string number) (expense : Expense) : gmap string number :=
  <[exp_category expense :=
      match totals !! exp_category expense with
      | Some t => JS.add t (parseFloatNum (exp_amount expense))
      | None => JS.NaN
      end]> totals.

Definition categorySums (cats : list Category) (es : list Expense) : gmap string number :=
  fold_left addToTotal es
    (fold_left (λ totals cat, <[cat_id cat := JS.zero]> totals) cats ∅).

(** [limits[cat.id] || 0] *)
Definition limitOf (limits : gmap string number) (cat : Category) : number :=
  match limits !! cat_id cat with
  | Some l => JS.or l JS.zero
  | None => JS.zero
  end.

Definition categoryEntry (totals limits : gmap string number) (inc : number)
    (cat : Category) : CategoryTotal :=
  let total := default JS.NaN (totals !! cat_id cat) in
  let limit := limitOf limits cat in
  let percentOfLimit :=
    if JS.gt limit JS.zero then JS.mul (JS.div total limit) hundred else JS.zero in
  mkCategoryTotal cat total
    (if JS.gt inc JS.zero then JS.mul (JS.div total inc) hundred else JS.zero)
    limit percentOfLimit
    (JS.gt limit JS.zero && JS.gt total limit)
    (JS.gt limit JS.zero && JS.ge total (JS.mul limit (JS.Num (8 # 10)))
       && JS.le total limit).

Definition calculateCategoryTotals (s : State) : list CategoryTotal :=
  let totals := categorySums categories (getExpenses s) in
  let inc := getIncome s in
  let limits := getCategoryLimits s in
  List.filter (λ cat, JS.gt (ct_total cat) JS.zero)
    (List.map (categoryEntry totals limits inc) categories).

(** [`${alertKey}-${cat.id}`] *)
Definition notificationKey (alertKey : string) (cat : Category) : string :=
  (alertKey ++ "-" ++ cat_id cat)%string.

(** One turn of the [forEach] of [checkCategoryLimits]: [shown] is the
    [alertsShown] of the render the function closes over, [acc] the state
    under update and the effects so far. *)
Definition checkOne (alertKey : string) (shown : gset string) (sound : list Effect)
    (acc : State * list Effect) (cat : CategoryTotal) : State * list Effect :=
  let key := notificationKey alertKey (ct_cat cat) in
  if ct_isOverLimit cat && negb (bool_decide (key ∈ shown)) then
    (setAlertsShown (λ prev, {[ key ]} ∪ prev) (fst acc),
     snd acc ++ OverLimitNotification alertKey (ct_cat cat) (ct_total cat) (ct_limit cat)
             :: sound)
  else acc.

Definition checkCategoryLimits (s : State) : State * list Effect :=
  if negb (notificationsEnabled s) then (s, [])
  else
    let categoryTotals := calculateCategoryTotals s in
    let alertKey := currentMonth s in
    fold_left (checkOne alertKey (alertsShown s) (playSound WarningSound s))
      categoryTotals (s, []).

(** The check that [handleAddExpense] defers with [setTimeout]: the
    [checkCategoryLimits] of the render [render] in which the handler ran.
    It reads the ledger, the month, the settings and the [alertsShown] of
    that render; its updates [setAlertsShown(prev => ...)] apply to the
    state [s] that is current when the timer fires. *)
Definition deferredCheck (render s : State) : State * list Effect :=
  if negb (notificationsEnabled render) then (s, [])
  else
    let categoryTotals := calculateCategoryTotals render in
    let alertKey := currentMonth render in
    fold_left (checkOne alertKey (alertsShown render) (playSound WarningSound render))
      categoryTotals (s, []).

(** *** Expense handlers *)

Definition handleAddExpense (now : Z) (s : State) : State * list Effect :=
  let form := newExpense s in
  if JS.truthyStr (form_name form) && JS.truthyStr (form_amount form) then
    let wasOverBudget := JS.lt (calculateRemaining s) JS.zero in
    let expenses := getExpenses s in
    let s1 :=
      setExpenses
        (expenses ++
           [mkExpense now (form_name form) (JS.parseFloat (form_amount form))
              (form_category form) (form_isRecurring form)]) s in
    let newRemaining :=
      JS.sub (getIncome s)
        (JS.add (calculateTotalExpenses s) (JS.parseFloat (form_amount form))) in
    let sound :=
      if JS.lt newRemaining JS.zero && negb wasOverBudget
      then playSound WarningSound s else playSound SuccessSound s in
    (setNewExpense emptyForm s1, sound ++ [ScheduleLimitCheck])
  else (s, []).

Definition handleDeleteExpense (id : Z) (s : State) : State * list Effect :=
  let expenses := getExpenses s in
  (setExpenses (List.filter (λ expense, negb (exp_id expense =? id)) expenses) s,
   playSound DeleteSound s).

Definition toggleRecurring (expense : Expense) : Expense :=
  mkExpense (exp_id expense) (exp_name expense) (exp_amount expense)
    (exp_category expense) (negb (exp_isRecurring expense)).

Definition toggleExpenseRecurring (id : Z) (s : State) : State * list Effect :=
  let expenses := getExpenses s in
  (setExpenses
     (List.map (λ expense, if exp_id expense =? id then toggleRecurring expense else expense)
        expenses) s,
   playSound ClickSound s).

Definition handleStartEdit (expense : Expense) (s : State) : State :=
  setEditing (Some (exp_id expense))
    (Some (mkEdit (exp_id expense) (exp_name expense) (Stored (exp_amount expense))
             (exp_category expense) (exp_isRecurring expense))) s.

Definition truthyAmount (a : AmountField) : bool :=
  match a with Stored n => JS.truthy n | Typed t => JS.truthyStr t end.

Definition parseAmount (a : AmountField) : number :=
  match a with Stored n => parseFloatNum n | Typed t => JS.parseFloat t end.

(** [{ ...editingExpenseData, amount: parseFloat(editingExpenseData.amount) }] *)
Definition editedExpense (d : ExpenseEdit) : Expense :=
  mkExpense (edit_id d) (edit_name d) (parseAmount (edit_amount d))
    (edit_category d) (edit_isRecurring d).

(** With no expense under edit the first test reads a field of [null] and
    throws, before any update: the state stays as it is. *)
Definition handleSaveEdit (s : State) : State * list Effect :=
  match editingExpenseData s with
  | Some d =>
      if JS.truthyStr (edit_name d) && truthyAmount (edit_amount d) then
        let expenses := getExpenses s in
        let s1 :=
          setExpenses
            (List.map (λ expense,
               if bool_decide (Some (exp_id expense) = editingExpenseId s)
               then editedExpense d else expense) expenses) s in
        (setEditing None None s1, playSound SuccessSound s)
      else (s, [])
  | None => (s, [])
  end.

Definition handleCancelEdit (s : State) : State := setEditing None None s.

(** [confirmed] is the answer to [window.confirm].  The storage is cleared
    and the reload is asked for before the three updates, which are those
    of the render [s]: [setIncome(0)], [setExpenses([])] and
    [setMonthlyBudgets({})].  The reload ends the session. *)
Definition handleResetData (confirmed : bool) (s : State) : State * list Effect :=
  if confirmed then
    (setMonthlyBudgets (λ _, ∅)
       (setMonthlyBudgets
          (λ prev, <[currentMonth s := withExpenses (getCurrentMonthData s) []]> prev)
          (setIncome JS.zero None s)),
     [RemoveItem "budgetIncome"; RemoveItem "budgetExpenses"; ClearStorage; ReloadPage])
  else (s, []).

(** *** Recurring items: the auto-populate effect

    The effect of [currentMonth] and [isLoaded].  Its deferred body is run
    here on the state the effect closes over, in one step.  [now index] is
    the reading of [Date.now()] taken for the copy at position [index]. *)

(** [Object.keys(monthlyBudgets).sort().reverse().find(m => m < currentMonth)] *)
Definition previousMonthOf (l : Ledger) (cur : string) : option string :=
  let sortedMonths := rev (sortStrings (keys l)) in
  List.find (λ m, String.ltb m cur) sortedMonths.

Definition withId (exp : Expense) (id : Z) : Expense :=
  mkExpense id (exp_name exp) (exp_amount exp) (exp_category exp) (exp_isRecurring exp).

Definition copyRecurring (now : nat → Z) (es : list Expense) : list Expense :=
  imap (λ index exp, withId exp (now index + Z.of_nat index))
    (List.filter exp_isRecurring es).

(** The month record built from the previous month's, and whether it holds
    any recurring item ([hasRecurringData]). *)
Definition buildNewMonth (now : nat → Z) (prevData : MonthRecord) : MonthRecord * bool :=
  let copyIncome := incomeRecurring prevData && JS.gt (income prevData) JS.zero in
  let recurringExpenses :=
    if (0 <? length (expenses prevData))%nat
    then copyRecurring now (expenses prevData) else [] in
  let copyExpenses := (0 <? length recurringExpenses)%nat in
  (mkMonth (if copyIncome then income prevData else JS.zero)
     copyIncome
     (if copyExpenses then recurringExpenses else [])
     (categoryLimits prevData),
   copyIncome || copyExpenses).

Definition monthHasData (currentData : option MonthRecord) : bool :=
  match currentData with
  | Some d => (0 <? length (expenses d))%nat || JS.gt (income d) JS.zero
  | None => false
  end.

Definition autoPopulate (now : nat → Z) (s : State) : State * list Effect :=
  let cur := currentMonth s in
  if negb (isLoaded s) || negb (JS.truthyStr cur)
     || bool_decide (cur ∈ populatedMonths s)
  then (s, [])
  else
    match previousMonthOf (monthlyBudgets s) cur with
    | None => (markPopulated cur s, [])
    | Some previousMonth =>
        match monthlyBudgets s !! previousMonth with
        | None => (markPopulated cur s, [])
        | Some prevData =>
            if monthHasData (monthlyBudgets s !! cur)
            then (markPopulated cur s, [])
            else
              let '(newMonthData, hasRecurringData) := buildNewMonth now prevData in
              if hasRecurringData
              then (markPopulated cur
                      (setMonthlyBudgets (λ prev, <[cur := newMonthData]> prev) s),
                    playSound SuccessSound s)
              else (markPopulated cur s, [])
        end
    end.

(** *** Persistence to [localStorage]

    A stored item is kept as the value it is the JSON text of: a ledger
    and an expense list are the two shapes that the application writes,
    and under [monthlyBudgets] any other item is taken as a text that does
    not parse.  Writing a ledger and reading it back is taken as the
    identity, which it is on finite numbers. *)

Inductive StoredItem : Type :=
  | StoredLedger (l : Ledger)
  | StoredText (t : string)
  | StoredExpenses (es : list Expense)
  | Unparsable.

Abbreviation LocalStorage := (gmap string StoredItem).

Definition initialState (monthKey : string) : State :=
  mkState ∅ monthKey emptyForm false None None true false ∅ ∅.

Definition setIsLoaded (s : State) : State :=
  mkState (monthlyBudgets s) (currentMonth s) (newExpense s) true
    (editingExpenseId s) (editingExpenseData s) (soundEnabled s)
    (notificationsEnabled s) (alertsShown s) (populatedMonths s).

(** The effect that saves the ledger whenever it changes. *)
Definition saveEffect (s : State) (ls : LocalStorage) : LocalStorage :=
  if isLoaded s then <["monthlyBudgets" := StoredLedger (monthlyBudgets s)]> ls else ls.

Definition storedText (i : option StoredItem) : option string :=
  match i with
  | Some (StoredText t) => if JS.truthyStr t then Some t else None
  | _ => None
  end.

(** An item read with [getItem], as the condition it is tested as: a
    missing item and the empty text are falsy. *)
Definition truthyItem (i : option StoredItem) : option StoredItem :=
  match i with
  | Some (StoredText EmptyString) => None
  | _ => i
  end.

(** The effect that loads the ledger on mount, migrating the data of the
    former single-month format into the month [monthKey] of the clock. *)
Definition loadEffect (monthKey : string) (ls : LocalStorage) (s : State)
    : State * LocalStorage :=
  match ls !! "monthlyBudgets" with
  | Some (StoredLedger l) => (setIsLoaded (setMonthlyBudgets (λ _, l) s), ls)
  | Some (StoredExpenses _) | Some Unparsable | Some (StoredText (String _ _)) =>
      (setIsLoaded s, ls)
  | Some (StoredText EmptyString) | None =>
      let savedIncome := storedText (ls !! "budgetIncome") in
      let savedExpenses := truthyItem (ls !! "budgetExpenses") in
      match savedIncome, savedExpenses with
      | None, None => (setIsLoaded s, ls)
      | _, _ =>
          let parsedExpenses :=
            match savedExpenses with
            | Some (StoredExpenses es) => es
            | _ => []
            end in
          let migratedData : Ledger :=
            {[ monthKey :=
                 mkMonth (match savedIncome with
                          | Some t => JS.parseFloat t
                          | None => JS.zero
                          end) false parsedExpenses ∅ ]} in
          (setIsLoaded (setMonthlyBudgets (λ _, migratedData) s),
           delete "budgetExpenses" (delete "budgetIncome" ls))
      end
  end.

(** A new session over what the previous one left in storage. *)
Definition restart (monthKey : string) (ls : LocalStorage) : State * LocalStorage :=
  loadEffect monthKey ls (initialState monthKey).

(** *** Month history

    [formatMonthYear] goes through [Date] and the locale; the history takes
    it as given. *)

Record HistoryEntry : Type := mkHistoryEntry {
  he_month : string;
  he_income : number;
  he_expenses : number;
  he_remaining : number
}.

(** [s.split(' ')[0]] *)
Fixpoint firstWord (s : string) : string :=
  match s with
  | EmptyString => EmptyString
  | String c s' => if Ascii.eqb c " " then EmptyString else String c (firstWord s')
  end.

Definition historyEntry (formatMonthYear : string → string) (month : string)
    (data : MonthRecord) : HistoryEntry :=
  mkHistoryEntry (firstWord (formatMonthYear month)) (income data)
    (totalOf (expenses data))
    (JS.sub (income data) (totalOf (expenses data))).

(** [months.map(...).slice(-6)] over the sorted keys, each looked up in the
    ledger it is a key of. *)
Definition getMonthlyHistory (formatMonthYear : string → string) (monthlyBudgets : Ledger)
    : list HistoryEntry :=
  let months := sortStrings (keys monthlyBudgets) in
  let entries :=
    omap (λ month, historyEntry formatMonthYear month <$> monthlyBudgets !! month)
      months in
  drop (length entries - 6) entries.

(** ** [Insights.js]: the analytics

    The component reads [monthlyBudgets], [currentMonth] and [categories]
    from its properties.  A traversal of [Object.keys(monthlyBudgets)] that
    looks each month up is written as a traversal of the entries, in the
    order of the map and not in the order in which the months were first
    written; that order decides only between months or expenses that tie. *)

Record Stats : Type := mkStats {
  totalIncome : number;
  totalExpenses : number;
  totalSaved : number;
  avgMonthlyIncome : number;
  avgMonthlyExpenses : number;
  monthCount : nat
}.

Definition ofNat (n : nat) : number := JS.Num (inject_Z (Z.of_nat n)).

Definition sumIncome (months : list MonthRecord) : number :=
  fold_left (λ acc data, JS.add acc (JS.or (income data) JS.zero)) months JS.zero.

Definition sumExpenses (months : list MonthRecord) : number :=
  fold_left
    (λ acc data,
       fold_left (λ acc' exp, JS.add acc' (parseFloatNum (exp_amount exp)))
         (expenses data) acc)
    months JS.zero.

Definition calculateAllTimeStats (monthlyBudgets : Ledger) : Stats :=
  let months := (map_to_list monthlyBudgets).*2 in
  let totalIncome := sumIncome months in
  let totalExpenses := sumExpenses months in
  let monthCount := length months in
  mkStats totalIncome totalExpenses (JS.sub totalIncome totalExpenses)
    (if (0 <? monthCount)%nat then JS.div totalIncome (ofNat monthCount) else JS.zero)
    (if (0 <? monthCount)%nat then JS.div totalExpenses (ofNat monthCount) else JS.zero)
    monthCount.

Definition getBudgetScore (monthlyBudgets : Ledger) : number :=
  let stats := calculateAllTimeStats monthlyBudgets in
  if JS.strictEq (totalIncome stats) JS.zero then JS.zero
  else
    let savingsRate := JS.mul (JS.div (totalSaved stats) (totalIncome stats)) hundred in
    if JS.ge savingsRate (JS.Num 30) then JS.Num 100
    else if JS.ge savingsRate (JS.Num 20) then JS.Num 90
    else if JS.ge savingsRate (JS.Num 10) then JS.Num 75
    else if JS.ge savingsRate (JS.Num 5) then JS.Num 60
    else if JS.ge savingsRate JS.zero then JS.Num 50
    else JS.max JS.zero (JS.add (JS.Num 50) savingsRate).

(** *** Category breakdown *)

Record Breakdown : Type := mkBreakdown {
  bd_cat : Category;
  bd_total : number;
  bd_percentage : number
}.

(** [categoryTotals], an object keyed by category id whose properties keep
    the order in which they were first set (no id is an array index). *)
Abbreviation TotalsObject := (list (string * (Category * number))).

(** [obj[key] = value] *)
Fixpoint setProperty (obj : TotalsObject) (key : string) (value : Category * number)
    : TotalsObject :=
  match obj with
  | [] => [(key, value)]
  | (k, v) :: obj' =>
      if String.eqb k key then (k, value) :: obj'
      else (k, v) :: setProperty obj' key value
  end.

(** [obj[key].total += amount]; [None] is the TypeError on a missing key. *)
Fixpoint addToProperty (obj : TotalsObject) (key : string) (amount : number)
    : option TotalsObject :=
  match obj with
  | [] => None
  | (k, v) :: obj' =>
      if String.eqb k key then Some ((k, (fst v, JS.add (snd v) amount)) :: obj')
      else cons (k, v) <$> addToProperty obj' key amount
  end.

Definition initTotals (categories : list Category) : TotalsObject :=
  fold_left (λ obj cat, setProperty obj (cat_id cat) (cat, JS.zero)) categories [].

(** One turn of the inner [forEach]: the totals object and [totalSpending]. *)
Definition addExpenseToBreakdown (acc : option (TotalsObject * number)) (exp : Expense)
    : option (TotalsObject * number) :=
  match acc with
  | Some (obj, totalSpending) =>
      let amount := parseFloatNum (exp_amount exp) in
      match addToProperty obj (exp_category exp) amount with
      | Some obj' => Some (obj', JS.add totalSpending amount)
      | None => None
      end
  | None => None
  end.

Definition accumulateBreakdown (categories : list Category) (months : list MonthRecord)
    : option (TotalsObject * number) :=
  fold_left (λ acc data, fold_left addExpenseToBreakdown (expenses data) acc)
    months (Some (initTotals categories, JS.zero)).

(** [None] when the function throws: an expense of a category that is not
    among [categories]. *)
Definition getCategoryBreakdown (monthlyBudgets : Ledger) (categories : list Category)
    : option (list Breakdown) :=
  match accumulateBreakdown categories (map_to_list monthlyBudgets).*2 with
  | Some (categoryTotals, totalSpending) =>
      Some
        (sortBy (λ a b, descending (bd_total a) (bd_total b))
           (List.map
              (λ cat : Category * number,
                 mkBreakdown (fst cat) (snd cat)
                   (if JS.gt totalSpending JS.zero
                    then JS.mul (JS.div (snd cat) totalSpending) hundred
                    else JS.zero))
              (List.filter (λ cat : Category * number, JS.gt (snd cat) JS.zero)
                 (List.map snd categoryTotals))))
  | None => None
  end.

(** *** Spending trend *)

Record Trend : Type := mkTrend {
  tr_current : number;
  tr_previous : number;
  tr_change : number;
  tr_isUp : bool
}.

(** [data.expenses?.reduce((sum, exp) => sum + parseFloat(exp.amount), 0) || 0] *)
Definition expensesOf (data : MonthRecord) : number :=
  JS.or (totalOf (expenses data)) JS.zero.

Definition getSpendingTrend (monthlyBudgets : Ledger) (currentMonth : string)
    : option Trend :=
  let months := sortStrings (keys monthlyBudgets) in
  if (length months <? 2)%nat then None
  else
    match indexOf String.eqb currentMonth months with
    | None | Some O => None
    | Some (S previousIdx) =>
        match monthlyBudgets !! currentMonth,
              months !! previousIdx ≫= (λ m, monthlyBudgets !! m) with
        | Some current, Some previous =>
            let currentExpenses := expensesOf current in
            let previousExpenses := expensesOf previous in
            if JS.strictEq previousExpenses JS.zero then None
            else
              let change :=
                JS.mul (JS.div (JS.sub currentExpenses previousExpenses) previousExpenses)
                  hundred in
              Some (mkTrend currentExpenses previousExpenses change (JS.gt change JS.zero))
        | _, _ => None
        end
    end.

(** *** Best and worst months *)

Record MonthSavings : Type := mkMonthSavings {
  ms_month : string;
  ms_saved : number;
  ms_income : number;
  ms_expenses : number
}.

Record BestWorst : Type := mkBestWorst {
  best : option MonthSavings;
  worst : option MonthSavings
}.

Definition monthSavings (entry : string * MonthRecord) : MonthSavings :=
  let data := snd entry in
  let income := JS.or (income data) JS.zero in
  let expenses := expensesOf data in
  mkMonthSavings (fst entry) (JS.sub income expenses) income expenses.

Definition getBestWorstMonths (monthlyBudgets : Ledger) : BestWorst :=
  let monthsWithSavings :=
    List.filter (λ m, JS.gt (ms_income m) JS.zero)
      (List.map monthSavings (map_to_list monthlyBudgets)) in
  if (length monthsWithSavings =? 0)%nat then mkBestWorst None None
  else
    let sorted :=
      sortBy (λ a b, descending (ms_saved a) (ms_saved b)) monthsWithSavings in
    mkBestWorst (sorted !! 0%nat) (sorted !! (length sorted - 1)%nat).

(** *** Largest expenses *)

Record TopExpense : Type := mkTopExpense {
  te_expense : Expense;
  te_month : string;
  te_categoryName : string
}.

(** [category?.name || 'Other'] for the category found by id. *)
Definition categoryNameOf (categories : list Category) (c : string) : string :=
  match List.find (λ cat, String.eqb (cat_id cat) c) categories with
  | Some category =>
      if JS.truthyStr (cat_name category) then cat_name category else "Other"
  | None => "Other"
  end.

Definition taggedExpenses (categories : list Category) (entry : string * MonthRecord)
    : list TopExpense :=
  List.map
    (λ exp, mkTopExpense exp (fst entry) (categoryNameOf categories (exp_category exp)))
    (expenses (snd entry)).

Definition getTopExpenses (monthlyBudgets : Ledger) (categories : list Category)
    : list TopExpense :=
  let allExpenses := flat_map (taggedExpenses categories) (map_to_list monthlyBudgets) in
  take 5
    (sortBy
       (λ a b, descending (parseFloatNum (exp_amount (te_expense a)))
                 (parseFloatNum (exp_amount (te_expense b))))
       allExpenses).

(** *** Recommendations

    The message of a recommendation is kept as the values that its text is
    formatted from. *)

Inductive RecommendationType : Type := Warning | Success | Info.

Inductive RecommendationMessage : Type :=
  | SavingBelowTarget (savingsRate : number)
  | SavingAheadOfAverage (savingsRate : number)
  | CategoryShare (name : string) (percentage : number)
  | RecurringAverage (recurringCount : nat) (avgRecurring : number)
  | SpendingIncreased (change : number)
  | SpendingReduced (absChange : number)
  | ScoreAmazing (budgetScore : number)
  | ScoreToImprove (budgetScore : number).

Record Recommendation : Type := mkRecommendation {
  rec_icon : string;
  rec_title : string;
  rec_message : RecommendationMessage;
  rec_type : RecommendationType
}.

(** [Math.abs(a)] *)
Definition Math_abs (a : number) : number :=
  match a with
  | JS.Num q => JS.Num (if JS.Qlt_bool q 0 then (- q)%Q else q)
  | JS.PosInf | JS.NegInf => JS.PosInf
  | JS.NaN => JS.NaN
  end.

(** The recurring expenses of all months: their total and their number. *)
Definition recurringTotals (months : list MonthRecord) : number * nat :=
  fold_left
    (λ acc data,
       fold_left
         (λ acc' exp,
            if exp_isRecurring exp
            then (JS.add (fst acc') (parseFloatNum (exp_amount exp)), S (snd acc'))
            else acc')
         (expenses data) acc)
    months (JS.zero, O).

Definition savingsAdvice (savingsRate : number) : list Recommendation :=
  if JS.lt savingsRate (JS.Num 10)
  then [mkRecommendation "💡" "Boost Your Savings" (SavingBelowTarget savingsRate) Warning]
  else if JS.ge savingsRate (JS.Num 20)
  then [mkRecommendation "🎉" "Great Savings Rate!" (SavingAheadOfAverage savingsRate) Success]
  else [].

Definition categoryAdvice (categoryBreakdown : list Breakdown) : list Recommendation :=
  match categoryBreakdown with
  | topCategory :: _ =>
      if JS.gt (bd_percentage topCategory) (JS.Num 40)
      then [mkRecommendation "⚠️" "High Category Spending"
              (CategoryShare (cat_name (bd_cat topCategory)) (bd_percentage topCategory))
              Warning]
      else []
  | [] => []
  end.

Definition recurringAdvice (monthlyBudgets : Ledger) : list Recommendation :=
  let '(recurringTotal, recurringCount) :=
    recurringTotals (map_to_list monthlyBudgets).*2 in
  if (0 <? recurringCount)%nat
  then
    let avgRecurring := JS.div recurringTotal (ofNat (length (keys monthlyBudgets))) in
    [mkRecommendation "🔄" "Recurring Expenses" (RecurringAverage recurringCount avgRecurring)
       Info]
  else [].

Definition trendAdvice (trend : option Trend) : list Recommendation :=
  match trend with
  | Some t =>
      if tr_isUp t && JS.gt (tr_change t) (JS.Num 15)
      then [mkRecommendation "📈" "Spending Spike Detected" (SpendingIncreased (tr_change t))
              Warning]
      else if negb (tr_isUp t) && JS.lt (tr_change t) (JS.Num (-10))
      then [mkRecommendation "🎯" "Great Progress!" (SpendingReduced (Math_abs (tr_change t)))
              Success]
      else []
  | None => []
  end.

Definition scoreAdvice (budgetScore : number) : list Recommendation :=
  if JS.ge budgetScore (JS.Num 90)
  then [mkRecommendation "🏆" "Budget Master!" (ScoreAmazing budgetScore) Success]
  else if JS.lt budgetScore (JS.Num 50)
  then [mkRecommendation "🎯" "Room for Improvement" (ScoreToImprove budgetScore) Warning]
  else [].

(** [None] when [getCategoryBreakdown] throws.  [budgetScore] is the score
    that the component computes with [getBudgetScore]. *)
Definition getSmartRecommendations (monthlyBudgets : Ledger) (categories : list Category)
    (trend : option Trend) : option (list Recommendation) :=
  let stats := calculateAllTimeStats monthlyBudgets in
  match getCategoryBreakdown monthlyBudgets categories with
  | Some categoryBreakdown =>
      let savingsRate :=
        if JS.gt (totalIncome stats) JS.zero
        then JS.mul (JS.div (totalSaved stats) (totalIncome stats)) hundred
        else JS.zero in
      let budgetScore := getBudgetScore monthlyBudgets in
      Some (savingsAdvice savingsRate ++ categoryAdvice categoryBreakdown
            ++ recurringAdvice monthlyBudgets ++ trendAdvice trend
            ++ scoreAdvice budgetScore)
  | None => None
  end.

(** ** Sessions

    What the user and the scheduler can do to a loaded application, one
    handler or effect at a time.  [Navigate] stands for the two navigation
    handlers, with the month key they compute.  [AutoPopulate] and
    [CheckLimits] are the two deferred tasks: [CheckLimits render] is the
    check deferred by the add handler of the render [render], so in a
    session of the application [render] is the state in which an earlier
    [AddExpense] was pressed.  [ResetData] is the reset button with the
    answer given to its confirmation; the reload it asks for ends the
    session, and what follows it in a list of actions is what the page
    still does before it is unloaded. *)

Definition setSoundEnabled (b : bool) (s : State) : State :=
  mkState (monthlyBudgets s) (currentMonth s) (newExpense s) (isLoaded s)
    (editingExpenseId s) (editingExpenseData s) b
    (notificationsEnabled s) (alertsShown s) (populatedMonths s).

Inductive Action : Type :=
  | SetIncome (value : number) (isRecurring : option bool)
  | ToggleIncomeRecurring
  | SetCategoryLimit (categoryId : string) (limit : number)
  | SetNewExpense (form : ExpenseForm)
  | AddExpense (now : Z)
  | DeleteExpense (id : Z)
  | ToggleExpenseRecurring (id : Z)
  | StartEdit (expense : Expense)
  | SetEditingExpenseData (d : ExpenseEdit)
  | SaveEdit
  | CancelEdit
  | Navigate (month : string)
  | AutoPopulate (now : nat → Z)
  | SetNotificationsEnabled (b : bool)
  | SetSoundEnabled (b : bool)
  | CheckLimits (render : State)
  | ResetData (confirmed : bool).

Definition step (a : Action) (s : State) : State * list Effect :=
  match a with
  | SetIncome value isRecurring => (setIncome value isRecurring s, [])
  | ToggleIncomeRecurring => toggleIncomeRecurring s
  | SetCategoryLimit categoryId limit => (setCategoryLimit categoryId limit s, [])
  | SetNewExpense form => (setNewExpense form s, [])
  | AddExpense now => handleAddExpense now s
  | DeleteExpense id => handleDeleteExpense id s
  | ToggleExpenseRecurring id => toggleExpenseRecurring id s
  | StartEdit expense => (handleStartEdit expense s, [])
  | SetEditingExpenseData d => (setEditing (editingExpenseId s) (Some d) s, [])
  | SaveEdit => handleSaveEdit s
  | CancelEdit => (handleCancelEdit s, [])
  | Navigate month => (setCurrentMonth month s, playSound ClickSound s)
  | AutoPopulate now => autoPopulate now s
  | SetNotificationsEnabled b => (setNotificationsEnabled b s, playSound ClickSound s)
  | SetSoundEnabled b => (setSoundEnabled b s, playSound ClickSound s)
  | CheckLimits render => deferredCheck render s
  | ResetData confirmed => handleResetData confirmed s
  end.

Fixpoint run (actions : list Action) (s : State) : State * list Effect :=
  match actions with
  | [] => (s, [])
  | a :: actions' =>
      let '(s1, effects1) := step a s in
      let '(s2, effects2) := run actions' s1 in
      (s2, effects1 ++ effects2)
  end.

(** The over-limit notifications among [effects] for a month and a category. *)
Definition isAlertFor (month categoryId : string) (e : Effect) : bool :=
  match e with
  | OverLimitNotification m cat _ _ => String.eqb m month && String.eqb (cat_id cat) categoryId
  | _ => false
  end.

Definition alertCount (month categoryId : string) (effects : list Effect) : nat :=
  length (List.filter (isAlertFor month categoryId) effects).

(** ** The data model of the specification, as predicates *)

Definition toQ (a : number) : Q :=
  match a with JS.Num q => q | _ => 0%Q end.

(** A non-negative decimal. *)
Definition isAmount (a : number) : bool :=
  match a with JS.Num q => Qle_bool 0 q | _ => false end.

Definition knownCategory (cats : list Category) (c : string) : bool :=
  existsb (λ cat, String.eqb (cat_id cat) c) cats.

Definition finiteMonth (r : MonthRecord) : bool :=
  JS.isFinite (income r) && forallb (λ e, JS.isFinite (exp_amount e)) (expenses r).

Definition categoriesKnown (cats : list Category) (r : MonthRecord) : bool :=
  forallb (λ e, knownCategory cats (exp_category e)) (expenses r).

Definition amountsNonNegative (r : MonthRecord) : bool :=
  forallb (λ e, isAmount (exp_amount e)) (expenses r).

Definition allMonths (P : MonthRecord → bool) (l : Ledger) : Prop :=
  map_Forall (λ _ r, P r = true) l.

(** Every expense of every month, month after month. *)
Definition allExpenses (l : Ledger) : list Expense :=
  concat (expenses <$> (map_to_list l).*2).

Definition Qsum (qs : list Q) : Q := fold_right Qplus 0%Q qs.

(** What was spent in category [c] among [es]. *)
Definition spentIn (c : string) (es : list Expense) : Q :=
  Qsum (toQ ∘ exp_amount <$> List.filter (λ e, String.eqb (exp_category e) c) es).

Definition spentTotal (es : list Expense) : Q := Qsum (toQ ∘ exp_amount <$> es).

(** A month the ledger has data for. *)
Definition knownMonth (l : Ledger) (k : string) : Prop := is_Some (l !! k).

(** [k] is the chronologically earliest known month. *)
Definition earliestMonth (l : Ledger) (k : string) : Prop :=
  knownMonth l k ∧ ∀ k', knownMonth l k' → String.leb k k' = true.

(** [p] is the known month immediately before [k]. *)
Definition precedingMonth (l : Ledger) (p k : string) : Prop :=
  knownMonth l p ∧ String.ltb p k = true ∧
  ∀ k', knownMonth l k' → String.ltb k' k = true → String.leb k' p = true.

(** ** Examples of states *)

Definition rentMonth : MonthRecord :=
  mkMonth (JS.Num 3000) false
    [mkExpense 1 "Rent" (JS.Num 1200) "housing" false]
    {[ "housing" := JS.Num 1000 ]}.

Definition rentState : State :=
  mkState {[ "2025-03" := rentMonth ]}
    "2025-03" emptyForm true None None true true ∅ ∅.

(** January with a recurring income and a recurring gym fee, February
    with data of its own. *)
Definition januaryMonth : MonthRecord :=
  mkMonth (JS.Num 2000) true
    [mkExpense 1000 "Gym" (JS.Num 50) "personal" true;
     mkExpense 1001 "Cinema" (JS.Num 450) "entertainment" false]
    {[ "personal" := JS.Num 80 ]}.

Definition februaryMonth : MonthRecord :=
  mkMonth (JS.Num 2100) false
    [mkExpense 2000 "Rent" (JS.Num 800) "housing" false] ∅.

Definition twoMonths : Ledger :=
  {[ "2025-01" := januaryMonth; "2025-02" := februaryMonth ]}.

Definition stateAt (l : Ledger) (month : string) : State :=
  mkState l month emptyForm true None None true true ∅ ∅.

(** January alone, seen from February, which has no record yet. *)
Definition afterJanuary : State :=
  stateAt {[ "2025-01" := januaryMonth ]} "2025-02".

(** A month with limits and nothing recurring, seen from the next month. *)
Definition limitsOnlyMonth : MonthRecord :=
  mkMonth (JS.Num 2000) false
    [mkExpense 1001 "Cinema" (JS.Num 45) "entertainment" false]
    {[ "food" := JS.Num 300 ]}.

Definition afterLimitsOnly : State :=
  stateAt {[ "2025-01" := limitsOnlyMonth ]} "2025-02".

(** The add form filled with a name and a negative amount. *)
Definition negativeAmountForm : State :=
  setNewExpense (mkForm "Gym" "-5" "personal" false) (stateAt ∅ "2025-02").

(** A month with two recurring expenses and one that is not. *)
Definition subscriptionsMonth : MonthRecord :=
  mkMonth (JS.Num 2000) false
    [mkExpense 1000 "Gym" (JS.Num 50) "personal" true;
     mkExpense 1001 "Cinema" (JS.Num 45) "entertainment" false;
     mkExpense 1002 "Music" (JS.Num 10) "entertainment" true] ∅.

(** March over its housing limit, with the add form filled in. *)
Definition powerForm : State :=
  setNewExpense (mkForm "Power" "60" "housing" false) rentState.

Definition waterForm : ExpenseForm := mkForm "Water" "40" "housing" false.

(** The render in which the second of two expenses is added: the first
    has been added and the form filled in again, the check that the first
    add deferred has not fired yet. *)
Definition secondRender : State :=
  setNewExpense waterForm (fst (handleAddExpense 5000 powerForm)).

(** Two expenses added one shortly after the other, then the two deferred
    checks, each the function of the render in which its add was pressed. *)
Definition twoQuickAdds : list Action :=
  [AddExpense 5000; SetNewExpense waterForm; AddExpense 5050;
   CheckLimits powerForm; CheckLimits secondRender].

(** March below its housing limit, with an expense in the add form that
    takes it over. *)
Definition nearLimitMonth : MonthRecord :=
  mkMonth (JS.Num 3000) false
    [mkExpense 1 "Rent" (JS.Num 900) "housing" false]
    {[ "housing" := JS.Num 1000 ]}.

Definition crossingForm : State :=
  setNewExpense (mkForm "Power" "200" "housing" false)
    (stateAt {[ "2025-03" := nearLimitMonth ]} "2025-03").

(** ** Notions used in the statements *)

(** The effect runs its copy block: the application is loaded, the current
    month has not been seen, [fromKey] is the month found before it, and the
    current month has neither an expense nor an income above 0. *)
Definition populateFires (s : State) (fromKey : string) (prevData : MonthRecord) : Prop :=
  isLoaded s = true ∧ currentMonth s ≠ "" ∧
  (currentMonth s ∉ populatedMonths s) ∧
  previousMonthOf (monthlyBudgets s) (currentMonth s) = Some fromKey ∧
  monthlyBudgets s !! fromKey = Some prevData ∧
  monthHasData (monthlyBudgets s !! currentMonth s) = false.

Definition isNotification (e : Effect) : bool :=
  match e with OverLimitNotification _ _ _ _ => true | _ => false end.

(** The key under which an alert for a month and a category id is kept. *)
Definition alertKeyOf (month categoryId : string) : string :=
  (month ++ "-" ++ categoryId)%string.

(** The total income and the total spending of a ledger, as rationals. *)
Definition ledgerIncome (l : Ledger) : Q :=
  Qsum (toQ ∘ income <$> (map_to_list l).*2).

Definition ledgerSpending (l : Ledger) : Q := spentTotal (allExpenses l).

(** The savings rate of the specification:
    [100 * totalSaved / totalIncome]. *)
Definition savingsRate (l : Ledger) : Q :=
  (100 * (ledgerIncome l - ledgerSpending l) / ledgerIncome l)%Q.

(** The savings rate as [getBudgetScore] computes it from the totals of
    [calculateAllTimeStats]: [(stats.totalSaved / stats.totalIncome) * 100]. *)
Definition computedRate (l : Ledger) : number :=
  let stats := calculateAllTimeStats l in
  JS.mul (JS.div (totalSaved stats) (totalIncome stats)) hundred.

(** The savings rate as [getSmartRecommendations] computes it: the same
    quotient when the total income is above 0, else 0. *)
Definition adviceRate (l : Ledger) : number :=
  let stats := calculateAllTimeStats l in
  if JS.gt (totalIncome stats) JS.zero
  then JS.mul (JS.div (totalSaved stats) (totalIncome stats)) hundred
  else JS.zero.

(** The score of the specification as a function of the savings rate. *)
Definition scoreOfRate (rate : Q) : Q :=
  if Qle_bool 30 rate then 100
  else if Qle_bool 20 rate then 90
  else if Qle_bool 10 rate then 75
  else if Qle_bool 5 rate then 60
  else if Qle_bool 0 rate then 50
  else if Qle_bool 0 (50 + rate) then (50 + rate)%Q else 0%Q.

(** The totals object that holds [f id] for the category [id], the
    categories in the order of the registry. *)
Definition totalsObject (cats : list Category) (f : string → Q) : list (string * (Category * number)) :=
  (λ cat, (cat_id cat, (cat, JS.Num (f (cat_id cat))))) <$> cats.

(** [f] with [a] more for the category [key]. *)
Definition bump (f : string → Q) (key : string) (a : Q) : string → Q :=
  λ id, if String.eqb id key then (f id + a)%Q else f id.

(** The percentage of the specification: [100 * total / totalSpending], 0
    when nothing was spent. *)
Definition shareOf (total totalSpending : Q) : Q :=
  if JS.Qlt_bool 0 totalSpending then (100 * total / totalSpending)%Q else 0%Q.

(** The entry that [getCategoryBreakdown] builds for a category whose total
    is [f id], when the total spending is [t]. *)
Definition breakdownEntry (f : string → Q) (t : Q) (cat : Category) : Breakdown :=
  mkBreakdown cat (JS.Num (f (cat_id cat)))
    (if JS.gt (JS.Num t) JS.zero
     then JS.mul (JS.div (JS.Num (f (cat_id cat))) (JS.Num t)) hundred
     else JS.zero).

(** The trend that [getSpendingTrend] builds from two month records. *)
Definition trendOf (current previous : MonthRecord) : Trend :=
  let change :=
    JS.mul (JS.div (JS.sub (expensesOf current) (expensesOf previous))
              (expensesOf previous)) hundred in
  mkTrend (expensesOf current) (expensesOf previous) change (JS.gt change JS.zero).

(** What one turn of the [forEach] of [checkCategoryLimits] emits. *)
Definition alertsOf (alertKey : string) (shown : gset string) (sound : list Effect)
    (cat : CategoryTotal) : list Effect :=
  if ct_isOverLimit cat
     && negb (bool_decide (notificationKey alertKey (ct_cat cat) ∈ shown))
  then OverLimitNotification alertKey (ct_cat cat) (ct_total cat) (ct_limit cat) :: sound
  else [].

(** February of [twoMonths] with the add form filled in. *)
Definition gymForm : State :=
  setNewExpense (mkForm "Gym" "50" "personal" true) (stateAt twoMonths "2025-02").

(** The current month holds finite numbers only. *)
Definition finiteCurrentMonth (s : State) : Prop :=
  finiteMonth (getCurrentMonthData s) = true.

(** Every limit stored in the ledger is above 0. *)
Definition limitsPositive (l : Ledger) : Prop :=
  ∀ k r c limit, l !! k = Some r → categoryLimits r !! c = Some limit →
                 JS.gt limit JS.zero = true.

(** A ledger that its JSON text gives back as it is: every income, amount
    and limit is finite. *)
Definition storableMonth (r : MonthRecord) : Prop :=
  finiteMonth r = true ∧
  map_Forall (λ _ limit, JS.isFinite limit = true) (categoryLimits r).

Definition storable (l : Ledger) : Prop := map_Forall (λ _ r, storableMonth r) l.

(** No income of the month is negative or not finite. *)
Definition incomeNonNegative (r : MonthRecord) : bool := isAmount (income r).

(** Whether a recommendation with the title [title] is among [recs]. *)
Definition hasTitle (title : string) (recs : list Recommendation) : bool :=
  existsb (λ r, String.eqb (rec_title r) title) recs.

(** * Properties *)

(** ** Frame: a mutation of the current month leaves the other months alone *)

Lemma setMonthlyBudgets_insert_other (s : State) (r : MonthRecord) (k : string) :
  k ≠ currentMonth s →
  monthlyBudgets (setMonthlyBudgets (λ prev, <[currentMonth s := r]> prev) s) !! k
  = monthlyBudgets s !! k.
Proof. intros Hk. simpl. by rewrite lookup_insert_ne. Qed.

Lemma setExpenses_other (s : State) (es : list Expense) (k : string) :
  k ≠ currentMonth s →
  monthlyBudgets (setExpenses es s) !! k = monthlyBudgets s !! k.
Proof. apply setMonthlyBudgets_insert_other. Qed.

Lemma setIncome_other (s : State) v rec (k : string) :
  k ≠ currentMonth s →
  monthlyBudgets (setIncome v rec s) !! k = monthlyBudgets s !! k.
Proof. apply setMonthlyBudgets_insert_other. Qed.

Lemma setCategoryLimit_other (s : State) c lim (k : string) :
  k ≠ currentMonth s →
  monthlyBudgets (setCategoryLimit c lim s) !! k = monthlyBudgets s !! k.
Proof. apply setMonthlyBudgets_insert_other. Qed.

(** C10.  Setting the income, toggling its recurring flag, setting a
    category limit, and adding, editing, deleting or toggling an expense
    write the ledger entry of the current month only: the record stored
    under any other month key is the same before and after. *)
Theorem single_month_mutations_frame (s : State) (k : string) :
  k ≠ currentMonth s →
  (∀ value isRecurring,
     monthlyBudgets (setIncome value isRecurring s) !! k = monthlyBudgets s !! k) ∧
  monthlyBudgets (fst (toggleIncomeRecurring s)) !! k = monthlyBudgets s !! k ∧
  (∀ categoryId limit,
     monthlyBudgets (setCategoryLimit categoryId limit s) !! k = monthlyBudgets s !! k) ∧
  (∀ now, monthlyBudgets (fst (handleAddExpense now s)) !! k = monthlyBudgets s !! k) ∧
  monthlyBudgets (fst (handleSaveEdit s)) !! k = monthlyBudgets s !! k ∧
  (∀ id, monthlyBudgets (fst (handleDeleteExpense id s)) !! k = monthlyBudgets s !! k) ∧
  (∀ id, monthlyBudgets (fst (toggleExpenseRecurring id s)) !! k = monthlyBudgets s !! k).
Proof.
  intros Hk. repeat split; intros.
  - by apply setIncome_other.
  - by apply setIncome_other.
  - by apply setCategoryLimit_other.
  - unfold handleAddExpense.
    destruct (JS.truthyStr _ && JS.truthyStr _); [|done].
    cbn [fst]. by apply setExpenses_other.
  - unfold handleSaveEdit.
    destruct (editingExpenseData s) as [d|]; [|done].
    destruct (JS.truthyStr _ && truthyAmount _); [|done].
    cbn [fst]. by apply setExpenses_other.
  - by apply setExpenses_other.
  - by apply setExpenses_other.
Qed.

Lemma single_month_mutations_frame_witness :
  "2025-01" ≠ currentMonth (stateAt twoMonths "2025-02") ∧
  monthlyBudgets (fst (handleDeleteExpense 2000 (stateAt twoMonths "2025-02"))) !! "2025-01"
  = monthlyBudgets (stateAt twoMonths "2025-02") !! "2025-01".
Proof.
  assert (H : "2025-01" ≠ currentMonth (stateAt twoMonths "2025-02")) by discriminate.
  split; [exact H|].
  destruct (single_month_mutations_frame (stateAt twoMonths "2025-02") "2025-01" H)
    as (_ & _ & _ & _ & _ & Hdelete & _).
  exact (Hdelete 2000).
Defined.

(** ** The order of month keys *)

Lemma string_compare_refl (a : string) : String.compare a a = Eq.
Proof.
  induction a as [|x a IH]; simpl; [done|].
  unfold Ascii.compare. by rewrite N.compare_refl.
Qed.

Lemma string_compare_lt_trans (a b c : string) :
  String.compare a b = Lt → String.compare b c = Lt → String.compare a c = Lt.
Proof.
  revert b c. induction a as [|x a IH]; intros [|y b] [|z c]; simpl; try done.
  destruct (Ascii.compare x y) eqn:Hxy; try done;
    destruct (Ascii.compare y z) eqn:Hyz; try done.
  - apply Ascii.compare_eq_iff in Hxy, Hyz. subst.
    unfold Ascii.compare. rewrite N.compare_refl. apply IH.
  - apply Ascii.compare_eq_iff in Hxy. subst. by rewrite Hyz.
  - apply Ascii.compare_eq_iff in Hyz. subst. by rewrite Hxy.
  - unfold Ascii.compare in Hxy, Hyz |- *.
    apply N.compare_lt_iff in Hxy. apply N.compare_lt_iff in Hyz.
    pose proof (N.lt_trans _ _ _ Hxy Hyz) as Hxz.
    apply N.compare_lt_iff in Hxz. by rewrite Hxz.
Qed.

Lemma string_ltb_iff (a b : string) : String.ltb a b = true ↔ String.compare a b = Lt.
Proof. unfold String.ltb. by destruct (String.compare a b). Qed.

Lemma string_leb_iff (a b : string) :
  String.leb a b = true ↔ a = b ∨ String.ltb a b = true.
Proof.
  unfold String.leb, String.ltb. destruct (String.compare a b) eqn:Hc.
  - apply String.compare_eq_iff in Hc. by split; [left|].
  - by split; [right|].
  - split; [done|]. intros [-> | H]; [|done]. by rewrite string_compare_refl in Hc.
Qed.

Lemma string_ltb_irrefl (a : string) : String.ltb a a = false.
Proof. unfold String.ltb. by rewrite string_compare_refl. Qed.

Lemma string_ltb_trans (a b c : string) :
  String.ltb a b = true → String.ltb b c = true → String.ltb a c = true.
Proof. rewrite !string_ltb_iff. apply string_compare_lt_trans. Qed.

Lemma string_leb_refl (a : string) : String.leb a a = true.
Proof. apply string_leb_iff. by left. Qed.

Lemma string_leb_trans (a b c : string) :
  String.leb a b = true → String.leb b c = true → String.leb a c = true.
Proof.
  rewrite !string_leb_iff. intros [-> | Hab] [-> | Hbc]; auto.
  right. by apply (string_ltb_trans a b c).
Qed.

Lemma string_leb_false (a b : string) : String.leb a b = false → String.leb b a = true.
Proof.
  intros H. destruct (String.leb_total a b) as [Hab | Hba]; [congruence | done].
Qed.

Lemma string_ltb_not_leb (a b : string) : String.ltb a b = true → String.leb b a = false.
Proof.
  intros Hlt. destruct (String.leb b a) eqn:Hle; [|done].
  apply string_leb_iff in Hle as [-> | Hba].
  - by rewrite string_ltb_irrefl in Hlt.
  - pose proof (string_ltb_trans _ _ _ Hlt Hba) as H.
    by rewrite string_ltb_irrefl in H.
Qed.

Lemma string_leb_ne_ltb (a b : string) :
  String.leb a b = true → a ≠ b → String.ltb a b = true.
Proof. intros [-> | H]%string_leb_iff; done. Qed.

(** ** Sorting *)

Section Sorting.
Context {A : Type} (le : A → A → bool) (P : A → Prop).
Hypothesis le_total : ∀ x y, P x → P y → le x y = false → le y x = true.
Hypothesis le_trans :
  ∀ x y z, P x → P y → P z → le x y = true → le y z = true → le x z = true.

Lemma sortedInsert_perm (x : A) (l : list A) : sortedInsert le x l ≡ₚ x :: l.
Proof.
  induction l as [|y l IH]; simpl; [done|].
  destruct (le x y); [done|]. rewrite IH. apply Permutation_swap.
Qed.

Lemma sortBy_perm (l : list A) : sortBy le l ≡ₚ l.
Proof.
  induction l as [|x l IH]; simpl; [done|]. by rewrite sortedInsert_perm, IH.
Qed.

Lemma sortedInsert_sorted (x : A) (l : list A) :
  P x → Forall P l →
  StronglySorted (λ a b, le a b = true) l →
  StronglySorted (λ a b, le a b = true) (sortedInsert le x l).
Proof.
  intros Hx HP Hsorted. induction Hsorted as [|y l Hl IH Hy]; simpl.
  - repeat constructor.
  - apply Forall_cons in HP as [Py Pl]. destruct (le x y) eqn:Hxy.
    + constructor; [by constructor|]. constructor; [done|].
      rewrite Forall_forall in Hy, Pl. apply Forall_forall. intros z Hz.
      apply (le_trans x y z); auto.
    + constructor; [by apply IH|].
      rewrite (sortedInsert_perm x l). constructor; [|done].
      by apply le_total.
Qed.

Lemma sortBy_sorted (l : list A) :
  Forall P l → StronglySorted (λ a b, le a b = true) (sortBy le l).
Proof.
  induction l as [|x l IH]; simpl; [constructor|].
  intros [Px Pl]%Forall_cons. apply sortedInsert_sorted; [done| |by apply IH].
  by rewrite sortBy_perm.
Qed.
End Sorting.

Lemma sorted_lookup {A : Type} (R : A → A → Prop) (l : list A) (i j : nat) (a b : A) :
  StronglySorted R l → l !! i = Some a → l !! j = Some b → (i < j)%nat → R a b.
Proof.
  intros Hsorted. revert i j.
  induction Hsorted as [|x l Hl IH Hx]; intros i j Hi Hj Hlt; [done|].
  destruct j as [|j]; [lia|]. simpl in Hj. destruct i as [|i]; simpl in Hi.
  - injection Hi as ->. rewrite Forall_forall in Hx. apply Hx.
    by apply list_elem_of_lookup_2 in Hj.
  - apply (IH i j); [done | done | lia].
Qed.

Lemma indexOf_Some {A : Type} (eqb : A → A → bool) (x : A) (l : list A) (i : nat) :
  (∀ a b, eqb a b = true ↔ a = b) →
  indexOf eqb x l = Some i → l !! i = Some x.
Proof.
  intros Heqb. revert i. induction l as [|y l IH]; intros i; simpl; [done|].
  destruct (eqb y x) eqn:Hyx.
  - intros [= <-]. apply Heqb in Hyx. by subst.
  - destruct (indexOf eqb x l) as [n|]; [|done]. intros [= <-]. by apply IH.
Qed.

Lemma indexOf_None {A : Type} (eqb : A → A → bool) (x : A) (l : list A) :
  (∀ a b, eqb a b = true ↔ a = b) →
  indexOf eqb x l = None → x ∉ l.
Proof.
  intros Heqb. induction l as [|y l IH]; simpl; [intros; apply not_elem_of_nil|].
  destruct (eqb y x) eqn:Hyx; [done|].
  destruct (indexOf eqb x l) as [n|]; [done|]. intros _.
  apply not_elem_of_cons. split; [|by apply IH].
  intros ->. assert (eqb y y = true) by by apply Heqb. congruence.
Qed.

(** ** The known months in order *)

Lemma keys_elem (l : Ledger) (k : string) : k ∈ keys l ↔ knownMonth l k.
Proof.
  unfold keys, knownMonth. rewrite list_elem_of_fmap. split.
  - intros ([k' r] & -> & Hin). apply elem_of_map_to_list in Hin. by exists r.
  - intros [r Hr]. exists (k, r). split; [done|]. by apply elem_of_map_to_list.
Qed.

Lemma months_elem (l : Ledger) (k : string) :
  k ∈ sortStrings (keys l) ↔ knownMonth l k.
Proof. unfold sortStrings. by rewrite sortBy_perm, keys_elem. Qed.

Lemma months_NoDup (l : Ledger) : NoDup (sortStrings (keys l)).
Proof. unfold sortStrings. rewrite sortBy_perm. apply NoDup_fst_map_to_list. Qed.

Lemma months_length (l : Ledger) : length (sortStrings (keys l)) = size l.
Proof.
  unfold sortStrings. rewrite sortBy_perm. unfold keys.
  by rewrite length_fmap, length_map_to_list.
Qed.

Lemma months_sorted (l : Ledger) :
  StronglySorted (λ a b, String.leb a b = true) (sortStrings (keys l)).
Proof.
  unfold sortStrings. apply (sortBy_sorted String.leb (λ _, True)).
  - intros x y _ _. apply string_leb_false.
  - intros x y z _ _ _. apply string_leb_trans.
  - by apply Forall_forall.
Qed.

(** The month at the head of the sorted keys is the earliest one. *)
Lemma months_head_earliest (l : Ledger) (k : string) :
  sortStrings (keys l) !! 0%nat = Some k → earliestMonth l k.
Proof.
  intros Hk. split.
  - apply months_elem. by apply list_elem_of_lookup_2 in Hk.
  - intros k' Hk'%months_elem. apply list_elem_of_lookup_1 in Hk' as [j Hj].
    destruct j as [|j].
    + rewrite Hk in Hj. injection Hj as ->. apply string_leb_refl.
    + apply (sorted_lookup _ _ 0 (S j) k k' (months_sorted l) Hk Hj). lia.
Qed.

(** Two neighbours in the sorted keys: the first is the month immediately
    before the second. *)
Lemma months_neighbours (l : Ledger) (i : nat) (p k : string) :
  sortStrings (keys l) !! i = Some p →
  sortStrings (keys l) !! S i = Some k →
  precedingMonth l p k.
Proof.
  intros Hp Hk. pose proof (months_sorted l) as Hsorted.
  assert (Hle : String.leb p k = true).
  { apply (sorted_lookup _ _ i (S i) p k Hsorted Hp Hk). lia. }
  assert (Hne : p ≠ k).
  { intros ->. pose proof (NoDup_lookup _ _ _ _ (months_NoDup l) Hp Hk). lia. }
  split; [apply months_elem; by apply list_elem_of_lookup_2 in Hp|].
  split; [by apply string_leb_ne_ltb|].
  intros k' Hk'%months_elem Hlt. apply list_elem_of_lookup_1 in Hk' as [j Hj].
  destruct (lt_eq_lt_dec j i) as [[Hji | ->] | Hij].
  - by apply (sorted_lookup _ _ j i k' p Hsorted Hj Hp).
  - rewrite Hp in Hj. injection Hj as ->. apply string_leb_refl.
  - apply string_ltb_not_leb in Hlt.
    destruct (decide (j = S i)) as [-> | Hj'].
    + rewrite Hk in Hj. injection Hj as ->. by rewrite string_leb_refl in Hlt.
    + assert (String.leb k k' = true); [|congruence].
      apply (sorted_lookup _ _ (S i) j k k' Hsorted Hk Hj). lia.
Qed.

Lemma earliest_has_no_preceding (l : Ledger) (p k : string) :
  earliestMonth l k → precedingMonth l p k → False.
Proof.
  intros [_ Hmin] (Hp & Hlt & _). apply string_ltb_not_leb in Hlt.
  rewrite (Hmin p Hp) in Hlt. done.
Qed.

Lemma preceding_unique (l : Ledger) (p p' k : string) :
  precedingMonth l p k → precedingMonth l p' k → p = p'.
Proof.
  intros (Hp & Hlt & Hmax) (Hp' & Hlt' & Hmax').
  apply String.leb_antisym; auto.
Qed.

Lemma sorted_rev {A : Type} (R : A → A → Prop) (l : list A) :
  StronglySorted R l → StronglySorted (flip R) (rev l).
Proof.
  induction 1 as [|x l Hl IH Hx]; simpl; [constructor|].
  apply StronglySorted_app. split; [|split; [done | repeat constructor]].
  intros a b Ha Hb. apply list_elem_of_singleton in Hb as ->.
  rewrite Forall_forall in Hx. apply Hx.
  by apply list_elem_of_In, in_rev, list_elem_of_In in Ha.
Qed.

(** In a list in descending order, the first element that satisfies a test
    is the greatest one that does. *)
Lemma find_greatest (test : string → bool) (l : list string) (p : string) :
  StronglySorted (flip (λ a b, String.leb a b = true)) l →
  List.find test l = Some p →
  p ∈ l ∧ test p = true ∧ ∀ k, k ∈ l → test k = true → String.leb k p = true.
Proof.
  induction 1 as [|x l Hl IH Hx]; simpl; [done|].
  destruct (test x) eqn:Htest.
  - intros [= <-]. split; [apply list_elem_of_here|]. split; [done|].
    intros k [-> | Hk]%elem_of_cons _; [apply string_leb_refl|].
    rewrite Forall_forall in Hx. by apply Hx.
  - intros Hfind. destruct (IH Hfind) as (Hp & Htp & Hmax).
    split; [by apply list_elem_of_further|]. split; [done|].
    intros k [-> | Hk]%elem_of_cons Hk'; [congruence | by apply Hmax].
Qed.

(** The month from which the effect copies is the known month immediately
    before the current one. *)
Lemma previousMonthOf_preceding (l : Ledger) (k p : string) :
  previousMonthOf l k = Some p → precedingMonth l p k.
Proof.
  unfold previousMonthOf. intros Hfind.
  apply find_greatest in Hfind as (Hp & Hlt & Hmax);
    [|apply sorted_rev, months_sorted].
  assert (Hrev : ∀ m, m ∈ rev (sortStrings (keys l)) ↔ knownMonth l m).
  { intros m. rewrite <- months_elem, !list_elem_of_In. symmetry. apply in_rev. }
  split; [by apply Hrev|]. split; [done|].
  intros k' Hk' Hlt'. apply Hmax; [by apply Hrev | done].
Qed.

(** ** Recurring propagation *)



(** *** The seen-set *)

Lemma checkOne_fields alertKey shown sound acc cat :
  let acc' := checkOne alertKey shown sound acc cat in
  isLoaded (fst acc') = isLoaded (fst acc) ∧
  populatedMonths (fst acc') = populatedMonths (fst acc) ∧
  monthlyBudgets (fst acc') = monthlyBudgets (fst acc) ∧
  currentMonth (fst acc') = currentMonth (fst acc) ∧
  alertsShown (fst acc) ⊆ alertsShown (fst acc').
Proof.
  unfold checkOne. destruct (ct_isOverLimit cat && _); simpl; [|done].
  repeat split; set_solver.
Qed.

Lemma checkFold_fields alertKey shown sound cats (acc : State * list Effect) :
  let s' := fst (fold_left (checkOne alertKey shown sound) cats acc) in
  isLoaded s' = isLoaded (fst acc) ∧
  populatedMonths s' = populatedMonths (fst acc) ∧
  monthlyBudgets s' = monthlyBudgets (fst acc) ∧
  currentMonth s' = currentMonth (fst acc) ∧
  alertsShown (fst acc) ⊆ alertsShown s'.
Proof.
  revert acc. induction cats as [|cat cats IH]; intros acc; simpl; [done|].
  destruct (IH (checkOne alertKey shown sound acc cat)) as (H1 & H2 & H3 & H4 & H5).
  destruct (checkOne_fields alertKey shown sound acc cat) as (G1 & G2 & G3 & G4 & G5).
  split; [congruence|]. split; [congruence|]. split; [congruence|].
  split; [congruence|]. etrans; eassumption.
Qed.

Lemma checkCategoryLimits_fields (s : State) :
  let s' := fst (checkCategoryLimits s) in
  isLoaded s' = isLoaded s ∧
  populatedMonths s' = populatedMonths s ∧
  monthlyBudgets s' = monthlyBudgets s ∧
  currentMonth s' = currentMonth s ∧
  alertsShown s ⊆ alertsShown s'.
Proof.
  unfold checkCategoryLimits. destruct (negb (notificationsEnabled s)); [done|].
  apply (checkFold_fields _ _ _ _ (s, [])).
Qed.

Lemma deferredCheck_fields (render s : State) :
  let s' := fst (deferredCheck render s) in
  isLoaded s' = isLoaded s ∧
  populatedMonths s' = populatedMonths s ∧
  monthlyBudgets s' = monthlyBudgets s ∧
  currentMonth s' = currentMonth s ∧
  alertsShown s ⊆ alertsShown s'.
Proof.
  unfold deferredCheck. destruct (negb (notificationsEnabled render)); [done|].
  apply (checkFold_fields _ _ _ _ (s, [])).
Qed.

Lemma autoPopulate_fields (now : nat → Z) (s : State) :
  let s' := fst (autoPopulate now s) in
  isLoaded s' = isLoaded s ∧
  populatedMonths s ⊆ populatedMonths s' ∧
  currentMonth s' = currentMonth s ∧
  alertsShown s' = alertsShown s.
Proof.
  unfold autoPopulate.
  destruct (negb (isLoaded s) || negb (JS.truthyStr (currentMonth s))
            || bool_decide (currentMonth s ∈ populatedMonths s)); [done|].
  destruct (previousMonthOf _ _) as [previousMonth|]; [|simpl; set_solver].
  destruct (monthlyBudgets s !! previousMonth) as [prevData|]; [|simpl; set_solver].
  destruct (monthHasData _); [simpl; set_solver|].
  destruct (buildNewMonth now prevData) as [newMonthData []]; simpl; set_solver.
Qed.

(** No handler clears the loaded flag or forgets a populated month. *)
Lemma step_keeps_seen (a : Action) (s : State) :
  isLoaded (fst (step a s)) = isLoaded s ∧
  populatedMonths s ⊆ populatedMonths (fst (step a s)).
Proof.
  destruct a; simpl; try done.
  - unfold handleAddExpense. by destruct (JS.truthyStr _ && JS.truthyStr _).
  - unfold handleSaveEdit. destruct (editingExpenseData s); [|done].
    by destruct (JS.truthyStr _ && truthyAmount _).
  - destruct (autoPopulate_fields now s) as (H1 & H2 & _). done.
  - destruct (deferredCheck_fields render s) as (H1 & H2 & _). split; [done|].
    by rewrite H2.
  - unfold handleResetData. by destruct confirmed.
Qed.

Lemma run_keeps_seen (actions : list Action) (s : State) :
  isLoaded (fst (run actions s)) = isLoaded s ∧
  populatedMonths s ⊆ populatedMonths (fst (run actions s)).
Proof.
  revert s. induction actions as [|a actions IH]; intros s; simpl; [done|].
  destruct (step a s) as [s1 effects1] eqn:Hstep.
  destruct (run actions s1) as [s2 effects2] eqn:Hrun. simpl.
  destruct (step_keeps_seen a s) as [H1 H2]. rewrite Hstep in H1, H2.
  destruct (IH s1) as [H3 H4]. rewrite Hrun in H3, H4. simpl in *.
  split; [congruence | by etrans].
Qed.

Lemma autoPopulate_marks (now : nat → Z) (s : State) :
  isLoaded s = true → currentMonth s ≠ "" →
  currentMonth s ∈ populatedMonths (fst (autoPopulate now s)).
Proof.
  intros Hloaded Hmonth. unfold autoPopulate. rewrite Hloaded.
  assert (Ht : JS.truthyStr (currentMonth s) = true)
    by (by destruct (currentMonth s)).
  rewrite Ht. cbn [negb orb].
  destruct (bool_decide (currentMonth s ∈ populatedMonths s)) eqn:Hseen.
  { by apply bool_decide_eq_true in Hseen. }
  destruct (previousMonthOf _ _) as [previousMonth|]; [|simpl; set_solver].
  destruct (monthlyBudgets s !! previousMonth) as [prevData|]; [|simpl; set_solver].
  destruct (monthHasData _); [simpl; set_solver|].
  destruct (buildNewMonth now prevData) as [newMonthData []]; simpl; set_solver.
Qed.

Lemma autoPopulate_seen (now : nat → Z) (s : State) :
  isLoaded s = false ∨ currentMonth s = "" ∨ currentMonth s ∈ populatedMonths s →
  autoPopulate now s = (s, []).
Proof.
  intros H. unfold autoPopulate.
  destruct H as [-> | [-> | H]]; [done | by rewrite orb_true_r |].
  rewrite (bool_decide_eq_true_2 _ H). by rewrite orb_true_r.
Qed.

(** C2.  Once the effect has run for a month, the month is in the seen-set
    and stays there: whatever the session does afterwards (deleting the
    copied expenses, visiting other months), the effect run again on that
    month changes nothing, so the month holds what the session left in it. *)
Theorem populate_at_most_once (now now' : nat → Z) (s : State) (actions : list Action) :
  let s1 := fst (autoPopulate now s) in
  let s2 := setCurrentMonth (currentMonth s) (fst (run actions s1)) in
  (isLoaded s = true → currentMonth s ≠ "" → currentMonth s ∈ populatedMonths s1) ∧
  autoPopulate now' s2 = (s2, []) ∧
  getExpenses (fst (autoPopulate now' s2)) = getExpenses s2.
Proof.
  intros s1 s2.
  assert (Hnoop : autoPopulate now' s2 = (s2, [])).
  { apply autoPopulate_seen.
    destruct (autoPopulate_fields now s) as (Hl1 & _ & _).
    destruct (run_keeps_seen actions s1) as [Hl2 Hp2].
    destruct (isLoaded s) eqn:Hloaded.
    - destruct (decide (currentMonth s = "")) as [He|Hne]; [by right; left|].
      right; right. simpl.
      pose proof (autoPopulate_marks now s Hloaded Hne). set_solver.
    - left. simpl. fold s1 in Hl1. congruence. }
  split; [apply autoPopulate_marks|]. split; [done|]. by rewrite Hnoop.
Qed.

Lemma populate_at_most_once_witness :
  isLoaded afterJanuary = true ∧ currentMonth afterJanuary ≠ "" ∧
  currentMonth afterJanuary
    ∈ populatedMonths (fst (autoPopulate (λ _, 5000) afterJanuary)) ∧
  getExpenses
    (fst (autoPopulate (λ _, 6000)
            (setCurrentMonth "2025-02"
               (fst (run [DeleteExpense 5000]
                       (fst (autoPopulate (λ _, 5000) afterJanuary)))))))
  = [].
Proof.
  assert (H1 : isLoaded afterJanuary = true) by reflexivity.
  assert (H2 : currentMonth afterJanuary ≠ "") by discriminate.
  destruct (populate_at_most_once (λ _, 5000) (λ _, 6000) afterJanuary
              [DeleteExpense 5000]) as (Hmark & _ & Hsame).
  split; [exact H1|]. split; [exact H2|]. split; [exact (Hmark H1 H2)|].
  etransitivity; [exact Hsame|]. reflexivity.
Defined.

(** *** What is copied *)

Lemma copyRecurring_lookup (now : nat → Z) (es : list Expense) (i : nat) :
  copyRecurring now es !! i
  = (λ e, withId e (now i + Z.of_nat i)) <$> List.filter exp_isRecurring es !! i.
Proof. unfold copyRecurring. apply list_lookup_imap. Qed.

Lemma copyRecurring_length (now : nat → Z) (es : list Expense) :
  length (copyRecurring now es) = length (List.filter exp_isRecurring es).
Proof. unfold copyRecurring. apply length_imap. Qed.

Lemma buildNewMonth_eq (now : nat → Z) (prevData : MonthRecord) :
  let copyIncome := incomeRecurring prevData && JS.gt (income prevData) JS.zero in
  let copies := copyRecurring now (expenses prevData) in
  buildNewMonth now prevData
  = (mkMonth (if copyIncome then income prevData else JS.zero) copyIncome copies
       (categoryLimits prevData),
     copyIncome || (0 <? length copies)%nat).
Proof.
  unfold buildNewMonth. cbv zeta.
  destruct (expenses prevData) as [|e es] eqn:Hes.
  - reflexivity.
  - cbn [length Nat.ltb Nat.leb].
    destruct (copyRecurring now (e :: es)) as [|c cs]; reflexivity.
Qed.

Lemma autoPopulate_fires (now : nat → Z) (s : State) fromKey prevData :
  populateFires s fromKey prevData →
  autoPopulate now s
  = let '(newMonthData, hasRecurringData) := buildNewMonth now prevData in
    if hasRecurringData
    then (markPopulated (currentMonth s)
            (setMonthlyBudgets (λ prev, <[currentMonth s := newMonthData]> prev) s),
          playSound SuccessSound s)
    else (markPopulated (currentMonth s) s, []).
Proof.
  intros (Hloaded & Hmonth & Hseen & Hprev & Hdata & Hempty).
  unfold autoPopulate. rewrite Hloaded.
  assert (Ht : JS.truthyStr (currentMonth s) = true)
    by (by destruct (currentMonth s)).
  rewrite Ht, (bool_decide_eq_false_2 _ Hseen). cbn [negb orb].
  by rewrite Hprev, Hdata, Hempty.
Qed.

(** C3, as the code has it.  The effect copies from the known month
    immediately before the current one.  When it runs its copy block from
    [fromKey] into the current month, and [fromKey] has a recurring income
    above 0 or a recurring expense, the current month is written with:
    the income of [fromKey] and a set recurring flag if that income is
    recurring and above 0, else income 0 and a cleared flag; one copy of each
    recurring expense of [fromKey], in order, equal to the original except
    for its id, which is the clock reading plus the position of the copy
    and so differs from the original id when that id is older than the
    reading; and the category limits of [fromKey].  When [fromKey] has
    neither, nothing is written: its limits are not copied.  Whether
    something was copied shows as this write and the success sound, not as
    a returned value. *)
Theorem populate_copies_recurring (now : nat → Z) (s : State)
    (fromKey : string) (prevData : MonthRecord) :
  populateFires s fromKey prevData →
  let copyIncome := incomeRecurring prevData && JS.gt (income prevData) JS.zero in
  let recurring := List.filter exp_isRecurring (expenses prevData) in
  let s' := fst (autoPopulate now s) in
  precedingMonth (monthlyBudgets s) fromKey (currentMonth s) ∧
  (copyIncome = true ∨ recurring ≠ [] →
     ∃ copies,
       monthlyBudgets s'
       = <[currentMonth s :=
             mkMonth (if copyIncome then income prevData else JS.zero) copyIncome
               copies (categoryLimits prevData)]> (monthlyBudgets s) ∧
       snd (autoPopulate now s) = playSound SuccessSound s ∧
       length copies = length recurring ∧
       ∀ i e, recurring !! i = Some e →
         ∃ c, copies !! i = Some c ∧
              exp_name c = exp_name e ∧ exp_amount c = exp_amount e ∧
              exp_category c = exp_category e ∧ exp_isRecurring c = true ∧
              exp_id c = now i + Z.of_nat i ∧
              (exp_id e < now i → exp_id c ≠ exp_id e)) ∧
  (copyIncome = false → recurring = [] →
     monthlyBudgets s' = monthlyBudgets s ∧ snd (autoPopulate now s) = []).
Proof.
  intros Hfires copyIncome recurring s'.
  split; [apply previousMonthOf_preceding; by destruct Hfires as (_ & _ & _ & H & _)|].
  subst s'. rewrite (autoPopulate_fires now s fromKey prevData Hfires).
  rewrite (buildNewMonth_eq now prevData). cbv zeta.
  fold copyIncome. rewrite copyRecurring_length. fold recurring.
  split.
  - intros Hsome.
    assert (Hflag : copyIncome || (0 <? length recurring)%nat = true).
    { destruct Hsome as [-> | Hne]; [done|].
      destruct recurring; [done|]. apply orb_true_r. }
    rewrite Hflag. cbn [fst snd].
    exists (copyRecurring now (expenses prevData)).
    split; [reflexivity|]. split; [reflexivity|].
    split; [apply copyRecurring_length|].
    intros i e He. exists (withId e (now i + Z.of_nat i)).
    rewrite copyRecurring_lookup. fold recurring. rewrite He.
    split; [reflexivity|]. cbn [withId exp_name exp_amount exp_category
                                 exp_isRecurring exp_id].
    assert (Hrec : exp_isRecurring e = true).
    { apply list_elem_of_lookup_2 in He. apply list_elem_of_In in He.
      apply filter_In in He. tauto. }
    repeat split; [done|]. lia.
  - intros Hinc Hnone. rewrite Hinc, Hnone. done.
Qed.

Lemma populate_copies_recurring_witness :
  populateFires afterJanuary "2025-01" januaryMonth ∧
  ∃ copies,
    monthlyBudgets (fst (autoPopulate (λ _, 5000) afterJanuary))
    = <[ "2025-02" := mkMonth (JS.Num 2000) true copies {[ "personal" := JS.Num 80 ]} ]>
        (monthlyBudgets afterJanuary) ∧
    ∃ c, copies !! 0%nat = Some c ∧ exp_name c = "Gym" ∧ exp_id c ≠ 1000.
Proof.
  assert (Hfires : populateFires afterJanuary "2025-01" januaryMonth).
  { unfold populateFires. split; [reflexivity|]. split; [discriminate|].
    split; [apply not_elem_of_empty|]. repeat split; reflexivity. }
  split; [exact Hfires|].
  destruct (populate_copies_recurring (λ _, 5000) afterJanuary "2025-01" januaryMonth
              Hfires) as (_ & Hcopy & _).
  destruct Hcopy as (copies & Hledger & _ & _ & Hall); [left; reflexivity|].
  exists copies. split; [exact Hledger|].
  destruct (Hall 0%nat (mkExpense 1000 "Gym" (JS.Num 50) "personal" true) eq_refl)
    as (c & Hc & Hname & _ & _ & _ & _ & Hfresh).
  exists c. split; [exact Hc|]. split; [exact Hname|].
  apply Hfresh. reflexivity.
Defined.

(** C3 does not hold as stated: a month whose only content to carry over is
    its category limits is not copied at all, so the limits of the current
    month are not those of [fromKey]. *)
Lemma populate_limits_not_copied_alone :
  populateFires afterLimitsOnly "2025-01" limitsOnlyMonth ∧
  categoryLimits (getCurrentMonthData (fst (autoPopulate (λ _, 5000) afterLimitsOnly)))
  ≠ categoryLimits limitsOnlyMonth.
Proof.
  split.
  - unfold populateFires. split; [reflexivity|]. split; [discriminate|].
    split; [apply not_elem_of_empty|]. repeat split; reflexivity.
  - intros H. apply (f_equal (λ m : gmap string number, m !! "food")) in H.
    vm_compute in H. discriminate H.
Qed.

(** ** Adding an expense *)

Lemma truthyStr_true (t : string) : JS.truthyStr t = true ↔ t ≠ "".
Proof. destruct t; simpl; split; intros; congruence. Qed.

Lemma getExpenses_setExpenses (es : list Expense) (s : State) :
  getExpenses (setExpenses es s) = es.
Proof.
  unfold getExpenses, getCurrentMonthData, setExpenses. simpl.
  by rewrite lookup_insert_eq.
Qed.

(** C4, as the code has it.  The add handler does nothing, without an
    error, exactly when the name or the text of the amount is empty.
    Otherwise it appends one expense to the list of the current month, with
    the clock reading as id, the name, category and recurring flag of the
    form, and [parseFloat] of the amount text as amount, whatever that number
    is; the id is new to the list when every id in the list is older than
    the clock reading. *)
Theorem add_expense_validates_presence (now : Z) (s : State) :
  let form := newExpense s in
  let added :=
    mkExpense now (form_name form) (JS.parseFloat (form_amount form))
      (form_category form) (form_isRecurring form) in
  let s' := fst (handleAddExpense now s) in
  (form_name form = "" ∨ form_amount form = "" → handleAddExpense now s = (s, [])) ∧
  (form_name form ≠ "" → form_amount form ≠ "" →
     monthlyBudgets s'
     = <[currentMonth s := withExpenses (getCurrentMonthData s) (getExpenses s ++ [added])]>
         (monthlyBudgets s) ∧
     getExpenses s' = getExpenses s ++ [added] ∧
     newExpense s' = emptyForm ∧
     s' ≠ s ∧
     ((∀ e, e ∈ getExpenses s → exp_id e < now) →
      NoDup (exp_id <$> getExpenses s) → NoDup (exp_id <$> getExpenses s'))).
Proof.
  intros form added s'. subst s'. unfold handleAddExpense. fold form. split.
  - intros [-> | ->]; [done|]. by rewrite andb_false_r.
  - intros Hname Hamount.
    rewrite (proj2 (truthyStr_true _) Hname), (proj2 (truthyStr_true _) Hamount).
    cbn [andb fst]. fold added.
    assert (Hes : getExpenses (setNewExpense emptyForm
                                 (setExpenses (getExpenses s ++ [added]) s))
                  = getExpenses s ++ [added])
      by apply getExpenses_setExpenses.
    split; [reflexivity|]. split; [exact Hes|]. split; [reflexivity|]. split.
    + intros Heq. rewrite Heq in Hes.
      apply (f_equal length) in Hes. rewrite length_app in Hes. simpl in Hes. lia.
    + intros Hold Hnodup. rewrite Hes, fmap_app. simpl.
      apply NoDup_app. split; [done|]. split; [|apply NoDup_singleton].
      intros id Hin Hnew. apply list_elem_of_singleton in Hnew. subst id.
      apply list_elem_of_fmap in Hin as (e & He & Hin).
      specialize (Hold e Hin). lia.
Qed.

Lemma add_expense_validates_presence_witness :
  form_name (newExpense negativeAmountForm) ≠ "" ∧
  form_amount (newExpense negativeAmountForm) ≠ "" ∧
  getExpenses (fst (handleAddExpense 7 negativeAmountForm))
  = getExpenses negativeAmountForm
    ++ [mkExpense 7 "Gym" (JS.parseFloat "-5") "personal" false].
Proof.
  assert (H1 : form_name (newExpense negativeAmountForm) ≠ "") by discriminate.
  assert (H2 : form_amount (newExpense negativeAmountForm) ≠ "") by discriminate.
  split; [exact H1|]. split; [exact H2|].
  destruct (add_expense_validates_presence 7 negativeAmountForm) as [_ Hadd].
  destruct (Hadd H1 H2) as (_ & Hes & _).
  exact Hes.
Defined.

(** C4 does not hold as stated: an amount that parses to a number that is
    not positive is not rejected.  With the name "Gym" and the amount "-5"
    the handler stores an expense of -5. *)
Lemma add_expense_accepts_negative_amount :
  JS.gt (JS.parseFloat "-5") JS.zero = false ∧
  getExpenses (fst (handleAddExpense 7 negativeAmountForm))
  = [mkExpense 7 "Gym" (JS.Num (-5)) "personal" false] ∧
  fst (handleAddExpense 7 negativeAmountForm) ≠ negativeAmountForm.
Proof.
  split; [reflexivity|]. split; [reflexivity|].
  intros H. apply (f_equal getExpenses) in H. vm_compute in H. discriminate H.
Qed.

(** ** Category limits *)

Lemma Qlt_bool_iff (a b : Q) : JS.Qlt_bool a b = true ↔ (a < b)%Q.
Proof.
  unfold JS.Qlt_bool. rewrite negb_true_iff. split.
  - intros H. apply Qnot_le_lt. intros Hle.
    apply Qle_bool_iff in Hle. congruence.
  - intros H. destruct (Qle_bool b a) eqn:Hle; [|done].
    apply Qle_bool_iff in Hle. exfalso. by apply (Qlt_not_le a b).
Qed.

Lemma Qlt_bool_false (a b : Q) : JS.Qlt_bool a b = false ↔ (b <= a)%Q.
Proof.
  unfold JS.Qlt_bool. rewrite negb_false_iff. apply Qle_bool_iff.
Qed.

Lemma Qeq_bool_false (a b : Q) : Qeq_bool a b = false ↔ ¬ (a == b)%Q.
Proof.
  split.
  - intros H Heq. apply Qeq_bool_iff in Heq. congruence.
  - intros H. destruct (Qeq_bool a b) eqn:Heq; [|done].
    apply Qeq_bool_iff in Heq. done.
Qed.

(** Above the limit excludes at most the limit. *)
Lemma gt_not_le (a b : number) : JS.gt a b = true → JS.le a b = false.
Proof.
  unfold JS.gt, JS.le.
  destruct a as [x| | |], b as [y| | |]; simpl; try done.
  intros H%Qlt_bool_iff. apply orb_false_iff. split.
  - apply Qlt_bool_false. by apply Qlt_le_weak.
  - apply Qeq_bool_false. intros Heq. rewrite Heq in H. by apply (Qlt_irrefl y).
Qed.

Lemma initial_totals_lookup (cats : list Category) (m : gmap string number) (c : string) :
  fold_left (λ totals cat, <[cat_id cat := JS.zero]> totals) cats m !! c
  = if knownCategory cats c then Some JS.zero else m !! c.
Proof.
  revert m. induction cats as [|cat cats IH]; intros m; simpl; [done|].
  rewrite IH. destruct (knownCategory cats c); [by rewrite orb_true_r|].
  rewrite orb_false_r. destruct (String.eqb_spec (cat_id cat) c) as [->|Hne].
  - by rewrite lookup_insert_eq.
  - by rewrite lookup_insert_ne.
Qed.

Lemma addToTotal_fold (es : list Expense) (totals : gmap string number)
    (c : string) (t : number) :
  totals !! c = Some t →
  fold_left addToTotal es totals !! c
  = Some (fold_left (λ total expense, JS.add total (parseFloatNum (exp_amount expense)))
            (List.filter (λ e, String.eqb (exp_category e) c) es) t).
Proof.
  revert totals t. induction es as [|e es IH]; intros totals t Ht; simpl; [done|].
  destruct (String.eqb_spec (exp_category e) c) as [Heq|Hne]; simpl.
  - apply IH. unfold addToTotal. rewrite Heq, Ht. by rewrite lookup_insert_eq.
  - apply IH. unfold addToTotal. by rewrite lookup_insert_ne.
Qed.

Lemma knownCategory_elem (cats : list Category) (cat : Category) :
  cat ∈ cats → knownCategory cats (cat_id cat) = true.
Proof.
  intros Hin. unfold knownCategory. apply existsb_exists.
  exists cat. split; [by apply list_elem_of_In | apply String.eqb_refl].
Qed.

(** What the totals object holds for a category of the registry. *)
Lemma categorySums_lookup (cats : list Category) (es : list Expense) (cat : Category) :
  cat ∈ cats →
  categorySums cats es !! cat_id cat
  = Some (totalOf (List.filter (λ e, String.eqb (exp_category e) (cat_id cat)) es)).
Proof.
  intros Hin. unfold categorySums, totalOf. apply addToTotal_fold.
  rewrite initial_totals_lookup. by rewrite knownCategory_elem.
Qed.

(** C8.  Every entry that the evaluator returns for the current month is
    about a category of the registry, and holds as [total] what was spent in
    it and as [limit] its configured limit (0 when there is none).  When a
    limit above 0 is configured, [percentOfLimit] is spent / limit * 100,
    [isOverLimit] is spent > limit and [isNearLimit] is
    limit * 0.8 <= spent <= limit.  No entry is both over and near its
    limit.  With an income of 3000, one expense Rent of 1200 in housing and
    a housing limit of 1000, the one entry is over its limit at 120 percent
    and the remaining budget is 1800. *)
Theorem category_limit_evaluation :
  (∀ (s : State) (entry : CategoryTotal),
     entry ∈ calculateCategoryTotals s →
     let spent :=
       totalOf (List.filter (λ e, String.eqb (exp_category e) (cat_id (ct_cat entry)))
                  (getExpenses s)) in
     (ct_cat entry ∈ categories ∧ ct_total entry = spent ∧
      ct_limit entry = limitOf (getCategoryLimits s) (ct_cat entry)) ∧
     (∀ limit, getCategoryLimits s !! cat_id (ct_cat entry) = Some limit →
        JS.gt limit JS.zero = true →
        ct_limit entry = limit ∧
        ct_percentOfLimit entry = JS.mul (JS.div spent limit) hundred ∧
        ct_isOverLimit entry = JS.gt spent limit ∧
        ct_isNearLimit entry
        = JS.ge spent (JS.mul limit (JS.Num (8 # 10))) && JS.le spent limit) ∧
     ct_isOverLimit entry && ct_isNearLimit entry = false) ∧
  (∀ (s : State) (cat : Category),
     cat ∈ categories →
     JS.gt (totalOf (List.filter (λ e, String.eqb (exp_category e) (cat_id cat))
                       (getExpenses s))) JS.zero = true →
     ∃ entry, entry ∈ calculateCategoryTotals s ∧ ct_cat entry = cat) ∧
  (∃ housing, calculateCategoryTotals rentState = [housing] ∧
     cat_id (ct_cat housing) = "housing" ∧
     ct_isOverLimit housing = true ∧
     JS.strictEq (ct_percentOfLimit housing) (JS.Num 120) = true ∧
     JS.strictEq (calculateRemaining rentState) (JS.Num 1800) = true).
Proof.
  split; [|split; [|eexists; split; [vm_compute; reflexivity|]; by vm_compute]].
  2:{ intros s cat Hcat Hspent.
      exists (categoryEntry (categorySums categories (getExpenses s))
                (getCategoryLimits s) (getIncome s) cat).
      split; [|done]. unfold calculateCategoryTotals.
      apply list_elem_of_In, filter_In. split.
      - apply in_map. by apply list_elem_of_In.
      - unfold categoryEntry. cbn [ct_total].
        by rewrite (categorySums_lookup categories (getExpenses s) cat Hcat). }
  intros s entry Hin spent. unfold calculateCategoryTotals in Hin.
  apply list_elem_of_In, filter_In in Hin as [Hin _].
  apply in_map_iff in Hin as (cat & <- & Hcat). apply list_elem_of_In in Hcat.
  assert (Htotal : ct_total (categoryEntry (categorySums categories (getExpenses s))
                               (getCategoryLimits s) (getIncome s) cat) = spent).
  { unfold categoryEntry. cbn [ct_total].
    by rewrite (categorySums_lookup categories (getExpenses s) cat Hcat). }
  split; [|split].
  - split; [exact Hcat|]. split; [exact Htotal|]. reflexivity.
  - intros limit Hlimit Hpos.
    assert (Hl : limitOf (getCategoryLimits s) cat = limit).
    { unfold limitOf. cbn [categoryEntry ct_cat] in Hlimit. rewrite Hlimit.
      unfold JS.or. destruct limit as [q| | |]; try done.
      simpl. unfold JS.gt in Hpos. simpl in Hpos. apply Qlt_bool_iff in Hpos.
      assert (Hq : Qeq_bool q 0 = false).
      { apply Qeq_bool_false. intros Heq. rewrite Heq in Hpos.
        by apply (Qlt_irrefl 0). }
      by rewrite Hq. }
    unfold categoryEntry in *. cbn [ct_total ct_limit ct_percentOfLimit
      ct_isOverLimit ct_isNearLimit] in *.
    rewrite Htotal, Hl, Hpos. done.
  - unfold categoryEntry. cbn [ct_isOverLimit ct_isNearLimit].
    destruct (JS.gt (limitOf (getCategoryLimits s) cat) JS.zero); [|done].
    cbn [andb].
    destruct (JS.gt _ (limitOf (getCategoryLimits s) cat)) eqn:Hover; [|done].
    apply gt_not_le in Hover. rewrite Hover. by rewrite andb_false_r.
Qed.

Lemma category_limit_evaluation_witness :
  ∃ entry, entry ∈ calculateCategoryTotals rentState ∧
    getCategoryLimits rentState !! cat_id (ct_cat entry) = Some (JS.Num 1000) ∧
    JS.gt (JS.Num 1000) JS.zero = true ∧
    ct_isOverLimit entry
    = JS.gt (totalOf (List.filter
                        (λ e, String.eqb (exp_category e) (cat_id (ct_cat entry)))
                        (getExpenses rentState))) (JS.Num 1000).
Proof.
  pose (entry := categoryEntry (categorySums categories (getExpenses rentState))
                   (getCategoryLimits rentState) (getIncome rentState)
                   (mkCategory "housing" "Housing" "#00e5ff")).
  assert (Hin : entry ∈ calculateCategoryTotals rentState).
  { apply list_elem_of_In. vm_compute. left. reflexivity. }
  assert (Hlimit : getCategoryLimits rentState !! cat_id (ct_cat entry)
                   = Some (JS.Num 1000)) by reflexivity.
  assert (Hpos : JS.gt (JS.Num 1000) JS.zero = true) by reflexivity.
  exists entry. split; [exact Hin|]. split; [exact Hlimit|]. split; [exact Hpos|].
  destruct category_limit_evaluation as (Hall & _ & _).
  destruct (Hall rentState entry Hin) as (_ & Hlimits & _).
  destruct (Hlimits (JS.Num 1000) Hlimit Hpos) as (_ & _ & Hover & _).
  exact Hover.
Defined.

(** ** Over-limit notifications *)

Lemma checkFold_effects alertKey shown sound cats (acc : State * list Effect) :
  snd (fold_left (checkOne alertKey shown sound) cats acc)
  = snd acc ++ flat_map (alertsOf alertKey shown sound) cats.
Proof.
  revert acc. induction cats as [|cat cats IH]; intros acc; simpl.
  - by rewrite app_nil_r.
  - rewrite IH. unfold checkOne, alertsOf.
    destruct (ct_isOverLimit cat && _); simpl; [|done].
    by rewrite <- app_assoc.
Qed.

Lemma checkFold_shown alertKey shown sound cats (acc : State * list Effect) key :
  key ∈ alertsShown (fst (fold_left (checkOne alertKey shown sound) cats acc)) ↔
  key ∈ alertsShown (fst acc) ∨
  ∃ cat, cat ∈ cats ∧ ct_isOverLimit cat = true ∧
         (notificationKey alertKey (ct_cat cat) ∉ shown) ∧
         key = notificationKey alertKey (ct_cat cat).
Proof.
  revert acc. induction cats as [|cat cats IH]; intros acc; simpl.
  - split; [by left|]. intros [H | (cat & Hin & _)]; [done|].
    by apply not_elem_of_nil in Hin.
  - rewrite IH. unfold checkOne.
    destruct (ct_isOverLimit cat) eqn:Hover; cbn [andb].
    + destruct (bool_decide (notificationKey alertKey (ct_cat cat) ∈ shown)) eqn:Hseen;
        cbn [negb fst].
      * apply bool_decide_eq_true in Hseen. split.
        -- intros [H | (c & Hin & H)]; [by left|]. right. exists c.
           split; [by apply list_elem_of_further | done].
        -- intros [H | (c & Hin & Ho & Hn & Hk)]; [by left|].
           apply elem_of_cons in Hin as [-> | Hin]; [done|].
           right. by exists c.
      * apply bool_decide_eq_false in Hseen. cbn [setAlertsShown alertsShown].
        rewrite elem_of_union, elem_of_singleton. split.
        -- intros [[H | H] | (c & Hin & H)].
           ++ right. exists cat. split; [apply list_elem_of_here | done].
           ++ by left.
           ++ right. exists c. split; [by apply list_elem_of_further | done].
        -- intros [H | (c & Hin & Ho & Hn & Hk)]; [left; by right|].
           apply elem_of_cons in Hin as [-> | Hin]; [left; by left|].
           right. by exists c.
    + split.
      * intros [H | (c & Hin & H)]; [by left|]. right. exists c.
        split; [by apply list_elem_of_further | done].
      * intros [H | (c & Hin & Ho & Hn & Hk)]; [by left|].
        apply elem_of_cons in Hin as [-> | Hin]; [congruence|].
        right. by exists c.
Qed.

Lemma alertCount_app month c (e1 e2 : list Effect) :
  alertCount month c (e1 ++ e2) = (alertCount month c e1 + alertCount month c e2)%nat.
Proof. unfold alertCount. by rewrite List.filter_app, length_app. Qed.

Lemma alertCount_quiet month c (effects : list Effect) :
  forallb (λ e, negb (isNotification e)) effects = true →
  alertCount month c effects = 0%nat.
Proof.
  unfold alertCount. induction effects as [|e effects IH]; simpl; [done|].
  intros [He Hrest]%andb_true_iff. destruct e; simpl in *; try done; by apply IH.
Qed.

Lemma playSound_quiet (e : Effect) (s : State) :
  isNotification e = false →
  forallb (λ e, negb (isNotification e)) (playSound e s) = true.
Proof.
  intros He. unfold playSound. destruct (soundEnabled s); simpl; [|done].
  by rewrite He.
Qed.

(** The turns that alert for a month and a category id. *)
Lemma alertCount_turns month c alertKey shown sound (cats : list CategoryTotal) :
  forallb (λ e, negb (isNotification e)) sound = true →
  alertCount month c (flat_map (alertsOf alertKey shown sound) cats)
  = length
      (List.filter
         (λ cat, ct_isOverLimit cat
                 && negb (bool_decide (notificationKey alertKey (ct_cat cat) ∈ shown))
                 && (String.eqb alertKey month && String.eqb (cat_id (ct_cat cat)) c))
         cats).
Proof.
  intros Hsound. induction cats as [|cat cats IH]; simpl; [done|].
  rewrite alertCount_app, IH. unfold alertsOf.
  destruct (ct_isOverLimit cat && _); cbn [andb].
  - change (OverLimitNotification alertKey (ct_cat cat) (ct_total cat) (ct_limit cat)
              :: sound)
      with ([OverLimitNotification alertKey (ct_cat cat) (ct_total cat) (ct_limit cat)]
              ++ sound).
    rewrite alertCount_app, (alertCount_quiet _ _ sound Hsound).
    unfold alertCount at 1. simpl.
    destruct (String.eqb alertKey month && String.eqb (cat_id (ct_cat cat)) c); simpl; lia.
  - done.
Qed.

(** Among entries of distinct ids at most one is about a given id. *)
Lemma at_most_one_by_id {A : Type} (f : A → string) (P : A → bool) (c : string)
    (l : list A) :
  NoDup (f <$> l) →
  (length (List.filter (λ x, P x && String.eqb (f x) c) l) ≤ 1)%nat.
Proof.
  induction l as [|x l IH]; simpl; [lia|].
  intros [Hx Hl]%NoDup_cons. specialize (IH Hl).
  destruct (P x); cbn [andb]; [|done].
  destruct (String.eqb_spec (f x) c) as [Heq|Hne]; [|done].
  simpl. assert (Hnone : List.filter (λ y, P y && String.eqb (f y) c) l = []).
  { clear IH Hl. induction l as [|y l IHl]; simpl; [done|].
    rewrite fmap_cons, not_elem_of_cons in Hx. destruct Hx as [Hxy Hx].
    destruct (P y); cbn [andb]; [|by apply IHl].
    destruct (String.eqb_spec (f y) c) as [Heqy|_]; [congruence | by apply IHl]. }
  rewrite Hnone. simpl. lia.
Qed.

Lemma categories_distinct : NoDup (cat_id <$> categories).
Proof. apply (bool_decide_unpack _). by vm_compute. Qed.

Lemma categoryTotals_distinct (s : State) :
  NoDup ((λ cat, cat_id (ct_cat cat)) <$> calculateCategoryTotals s).
Proof.
  unfold calculateCategoryTotals.
  set (entry := categoryEntry _ _ _). set (keep := λ cat, JS.gt (ct_total cat) JS.zero).
  assert (Hsub : ∀ cats id,
    id ∈ (λ cat, cat_id (ct_cat cat)) <$> List.filter keep (List.map entry cats) →
    id ∈ cat_id <$> cats).
  { induction cats as [|cat cats IH]; intros id; simpl; [done|].
    destruct (keep (entry cat)); simpl; rewrite ?elem_of_cons; [|by right; apply IH].
    intros [-> | Hin]; [by left | right; by apply IH]. }
  pose proof categories_distinct as Hnodup. revert Hnodup.
  generalize categories as cats.
  induction cats as [|cat cats IH]; simpl; [intros; apply NoDup_nil_2|].
  intros [Hcat Hcats]%NoDup_cons.
  destruct (keep (entry cat)); simpl; [|by apply IH].
  apply NoDup_cons. split; [|by apply IH].
  intros Hin. apply Hcat. by apply Hsub.
Qed.

(** One run of the deferred check: at most one alert for a month and a
    category id, none when the pair is in the set of the render, and the
    pair is in the current set after an alert. *)
Lemma check_alerts_once (render s : State) (month c : string) :
  let n := alertCount month c (snd (deferredCheck render s)) in
  (n ≤ 1)%nat ∧
  (alertKeyOf month c ∈ alertsShown render → n = 0%nat) ∧
  (n = 1%nat → alertKeyOf month c ∈ alertsShown (fst (deferredCheck render s))).
Proof.
  unfold deferredCheck. destruct (negb (notificationsEnabled render)).
  { simpl. unfold alertCount. simpl. split; [lia|]. split; [done | lia]. }
  cbv zeta. rewrite checkFold_effects. cbn [snd app].
  assert (Hsound : forallb (λ e, negb (isNotification e)) (playSound WarningSound render)
                   = true)
    by by apply playSound_quiet.
  rewrite (alertCount_turns _ _ _ _ _ _ Hsound).
  set (turns := List.filter _ _).
  assert (Hle : (length turns ≤ 1)%nat).
  { subst turns.
    rewrite (List.filter_ext _
      (λ cat, (ct_isOverLimit cat
               && negb (bool_decide (notificationKey (currentMonth render) (ct_cat cat)
                                       ∈ alertsShown render))
               && String.eqb (currentMonth render) month)
              && String.eqb (cat_id (ct_cat cat)) c)).
    - apply (at_most_one_by_id (λ cat, cat_id (ct_cat cat))), categoryTotals_distinct.
    - intros cat. by rewrite !andb_assoc. }
  assert (Hturn : ∀ cat, cat ∈ turns →
    cat ∈ calculateCategoryTotals render ∧ ct_isOverLimit cat = true ∧
    (notificationKey (currentMonth render) (ct_cat cat) ∉ alertsShown render) ∧
    notificationKey (currentMonth render) (ct_cat cat) = alertKeyOf month c).
  { intros cat Hin. subst turns. apply list_elem_of_In, filter_In in Hin as [Hin Hcond].
    apply andb_true_iff in Hcond as [Hcond Hkey].
    apply andb_true_iff in Hcond as [Hover Hnew].
    apply andb_true_iff in Hkey as [Hm Hc].
    apply String.eqb_eq in Hm, Hc. apply negb_true_iff, bool_decide_eq_false in Hnew.
    split; [by apply list_elem_of_In|]. split; [done|]. split; [done|].
    unfold notificationKey, alertKeyOf. by rewrite Hm, Hc. }
  clearbody turns. split; [exact Hle|]. split.
  - intros Hshown. destruct turns as [|cat turns']; [done|].
    destruct (Hturn cat) as (_ & _ & Hnew & Hkey).
    { apply list_elem_of_here. }
    rewrite Hkey in Hnew. done.
  - intros Hone. destruct turns as [|cat turns']; [done|].
    destruct (Hturn cat) as (Hin & Hover & Hnew & Hkey).
    { apply list_elem_of_here. }
    apply checkFold_shown. right. exists cat. by rewrite <- Hkey.
Qed.

Lemma check_alert_sound (render s : State) (month : string) (cat : Category)
    (spent limit : number) :
  OverLimitNotification month cat spent limit ∈ snd (deferredCheck render s) →
  notificationsEnabled render = true ∧ month = currentMonth render ∧
  (∃ entry, entry ∈ calculateCategoryTotals render ∧ ct_cat entry = cat ∧
            ct_total entry = spent ∧ ct_limit entry = limit ∧
            ct_isOverLimit entry = true) ∧
  (notificationKey month cat ∉ alertsShown render) ∧
  notificationKey month cat ∈ alertsShown (fst (deferredCheck render s)).
Proof.
  unfold deferredCheck.
  destruct (notificationsEnabled render); cbn [negb];
    [|intros H; by apply not_elem_of_nil in H].
  cbv zeta. rewrite checkFold_effects. cbn [snd app].
  intros Hin. apply list_elem_of_In, in_flat_map in Hin as (entry & Hentry & Hin).
  apply list_elem_of_In in Hentry. unfold alertsOf in Hin.
  destruct (ct_isOverLimit entry) eqn:Hover; cbn [andb] in Hin; [|done].
  destruct (bool_decide _) eqn:Hseen; cbn [negb] in Hin; [done|].
  apply bool_decide_eq_false in Hseen.
  destruct Hin as [Heq | Hsound].
  - injection Heq as <- <- <- <-.
    split; [done|]. split; [done|]. split; [by exists entry|]. split; [done|].
    apply checkFold_shown. right. by exists entry.
  - unfold playSound in Hsound. destruct (soundEnabled render); [|done].
    destruct Hsound as [Hsound | []]. discriminate Hsound.
Qed.

(** C9.  The check that the add handler defers is the function of the
    render in which the handler ran, so it reads the ledger and the
    suppression set of that render.  March is over its housing limit and no
    alert has been shown; two expenses are added, the second before the
    check of the first has fired; then the two checks fire.  Both read the
    empty suppression set of their render, and two notifications are
    emitted for the one pair of March and housing.  For the same reason the
    check that follows the add that takes a category over its limit reads
    the ledger from before the add and emits nothing. *)
Theorem deferred_check_alerts_twice :
  alertsShown powerForm = ∅ ∧
  fst (run [AddExpense 5000; SetNewExpense waterForm] powerForm) = secondRender ∧
  alertCount "2025-03" "housing" (snd (run twoQuickAdds powerForm)) = 2%nat ∧
  existsb (λ entry, String.eqb (cat_id (ct_cat entry)) "housing" && ct_isOverLimit entry)
    (calculateCategoryTotals
       (fst (run [AddExpense 5000; CheckLimits crossingForm] crossingForm))) = true ∧
  alertCount "2025-03" "housing"
    (snd (run [AddExpense 5000; CheckLimits crossingForm] crossingForm)) = 0%nat.
Proof.
  split; [reflexivity|]. split; [vm_compute; reflexivity|].
  split; [vm_compute; reflexivity|]. split; vm_compute; reflexivity.
Qed.

(** ** Budget score *)

Ltac q_bool :=
  repeat match goal with
  | H : Qle_bool _ _ = true |- _ => apply Qle_bool_iff in H
  | H : Qle_bool ?a ?b = false |- _ =>
      assert (b < a)%Q by (apply Qnot_le_lt; intros ?%Qle_bool_iff; congruence);
      clear H
  | H : Qeq_bool _ _ = true |- _ => apply Qeq_bool_iff in H
  | H : Qeq_bool _ _ = false |- _ => apply Qeq_bool_false in H
  | H : JS.Qlt_bool _ _ = true |- _ => apply Qlt_bool_iff in H
  | H : JS.Qlt_bool _ _ = false |- _ => apply Qlt_bool_false in H
  end.

Lemma le_Num (a b : Q) : JS.le (JS.Num a) (JS.Num b) = Qle_bool a b.
Proof.
  unfold JS.le. simpl.
  destruct (JS.Qlt_bool a b) eqn:Hlt, (Qeq_bool a b) eqn:Heq,
    (Qle_bool a b) eqn:Hle; try done; q_bool; exfalso; lra.
Qed.

Lemma scoreOfRate_range (r : Q) : (0 <= scoreOfRate r <= 100)%Q.
Proof.
  unfold scoreOfRate.
  destruct (Qle_bool 30 r) eqn:H30; [lra|].
  destruct (Qle_bool 20 r) eqn:H20; [lra|].
  destruct (Qle_bool 10 r) eqn:H10; [lra|].
  destruct (Qle_bool 5 r) eqn:H5; [lra|].
  destruct (Qle_bool 0 r) eqn:H0; [lra|].
  destruct (Qle_bool 0 (50 + r)) eqn:H50; q_bool; lra.
Qed.

Lemma scoreOfRate_mono (r1 r2 : Q) :
  (r1 <= r2)%Q → (scoreOfRate r1 <= scoreOfRate r2)%Q.
Proof.
  intros Hle. unfold scoreOfRate.
  destruct (Qle_bool 30 r2) eqn:B30; destruct (Qle_bool 30 r1) eqn:A30;
    q_bool; try lra;
  destruct (Qle_bool 20 r2) eqn:B20; destruct (Qle_bool 20 r1) eqn:A20;
    q_bool; try lra;
  destruct (Qle_bool 10 r2) eqn:B10; destruct (Qle_bool 10 r1) eqn:A10;
    q_bool; try lra;
  destruct (Qle_bool 5 r2) eqn:B5; destruct (Qle_bool 5 r1) eqn:A5;
    q_bool; try lra;
  destruct (Qle_bool 0 r2) eqn:B0; destruct (Qle_bool 0 r1) eqn:A0;
    q_bool; try lra;
  destruct (Qle_bool 0 (50 + r2)) eqn:B50; destruct (Qle_bool 0 (50 + r1)) eqn:A50;
    q_bool; lra.
Qed.

Lemma scoreOfRate_proper (r1 r2 : Q) :
  (r1 == r2)%Q → (scoreOfRate r1 == scoreOfRate r2)%Q.
Proof.
  intros Heq. apply Qle_antisym; apply scoreOfRate_mono; lra.
Qed.

(** *** Sums of finite numbers *)

Lemma Qsum_app (xs ys : list Q) : (Qsum (xs ++ ys) == Qsum xs + Qsum ys)%Q.
Proof.
  unfold Qsum. induction xs as [|x xs IH]; simpl; [lra|]. rewrite IH. lra.
Qed.

Lemma Qsum_cons (x : Q) (xs : list Q) : (Qsum (x :: xs) == x + Qsum xs)%Q.
Proof. reflexivity. Qed.

Lemma spentTotal_app (es1 es2 : list Expense) :
  (spentTotal (es1 ++ es2) == spentTotal es1 + spentTotal es2)%Q.
Proof. unfold spentTotal. rewrite fmap_app. apply Qsum_app. Qed.

Lemma spentTotal_cons (e : Expense) (es : list Expense) :
  (spentTotal (e :: es) == toQ (exp_amount e) + spentTotal es)%Q.
Proof. reflexivity. Qed.

(** The running sum of finite amounts is their sum. *)
Lemma amounts_fold (es : list Expense) (a : Q) :
  forallb (λ e, JS.isFinite (exp_amount e)) es = true →
  ∃ q, fold_left (λ total e, JS.add total (parseFloatNum (exp_amount e))) es (JS.Num a)
       = JS.Num q ∧ (q == a + spentTotal es)%Q.
Proof.
  revert a. induction es as [|e es IH]; intros a Hfin; simpl.
  - exists a. split; [done|]. unfold spentTotal. simpl. lra.
  - apply andb_true_iff in Hfin as [He Hes].
    destruct (exp_amount e) as [x| | |] eqn:Hx; try done.
    unfold parseFloatNum. simpl.
    destruct (IH (a + x)%Q Hes) as (q & Hq & Hsum).
    exists q. split; [done|]. rewrite Hsum, spentTotal_cons, Hx. simpl. lra.
Qed.

Lemma totalOf_finite (es : list Expense) :
  forallb (λ e, JS.isFinite (exp_amount e)) es = true →
  ∃ q, totalOf es = JS.Num q ∧ (q == spentTotal es)%Q.
Proof.
  intros Hfin. destruct (amounts_fold es 0 Hfin) as (q & Hq & Hsum).
  exists q. split; [exact Hq | lra].
Qed.

Lemma or_zero_finite (x : Q) :
  ∃ y, JS.or (JS.Num x) JS.zero = JS.Num y ∧ (y == x)%Q.
Proof.
  unfold JS.or. simpl. destruct (Qeq_bool x 0) eqn:Hx; simpl.
  - exists 0%Q. split; [done|]. q_bool. lra.
  - exists x. split; [done | lra].
Qed.

Lemma sumIncome_fold (months : list MonthRecord) (a : Q) :
  Forall (λ r, finiteMonth r = true) months →
  ∃ q, fold_left (λ acc data, JS.add acc (JS.or (income data) JS.zero)) months (JS.Num a)
       = JS.Num q ∧ (q == a + Qsum (toQ ∘ income <$> months))%Q.
Proof.
  intros Hfin. revert a. induction Hfin as [|r months Hr _ IH]; intros a;
    cbn [fold_left].
  - exists a. split; [done|]. unfold Qsum. simpl. lra.
  - unfold finiteMonth in Hr. apply andb_true_iff in Hr as [Hinc _].
    destruct (income r) as [x| | |] eqn:Hx; try done.
    destruct (or_zero_finite x) as (y & -> & Hy). cbn [JS.add].
    destruct (IH (a + y)%Q) as (q & Hq & Hsum).
    exists q. split; [done|]. rewrite Hsum, fmap_cons, Qsum_cons.
    unfold compose. rewrite Hx. cbn [toQ]. lra.
Qed.

Lemma sumExpenses_fold (months : list MonthRecord) (a : Q) :
  Forall (λ r, finiteMonth r = true) months →
  ∃ q, fold_left
         (λ acc data,
            fold_left (λ acc' exp, JS.add acc' (parseFloatNum (exp_amount exp)))
              (expenses data) acc)
         months (JS.Num a)
       = JS.Num q ∧ (q == a + spentTotal (concat (expenses <$> months)))%Q.
Proof.
  intros Hfin. revert a. induction Hfin as [|r months Hr _ IH]; intros a;
    cbn [fold_left].
  - exists a. split; [done|]. unfold spentTotal. simpl. lra.
  - unfold finiteMonth in Hr. apply andb_true_iff in Hr as [_ Hes].
    destruct (amounts_fold (expenses r) a Hes) as (b & -> & Hb).
    destruct (IH b) as (q & Hq & Hsum).
    exists q. split; [done|]. rewrite Hsum, Hb, fmap_cons. cbn [concat].
    rewrite spentTotal_app. lra.
Qed.

Lemma allMonths_Forall (P : MonthRecord → bool) (l : Ledger) :
  allMonths P l → Forall (λ r, P r = true) (map_to_list l).*2.
Proof.
  intros Hall. apply Forall_fmap, Forall_forall. intros [k r] Hin.
  apply elem_of_map_to_list in Hin. simpl. by apply (Hall k).
Qed.

(** The totals of a ledger of finite numbers. *)
Lemma stats_finite (l : Ledger) :
  allMonths finiteMonth l →
  ∃ inc spent,
    totalIncome (calculateAllTimeStats l) = JS.Num inc ∧
    totalExpenses (calculateAllTimeStats l) = JS.Num spent ∧
    totalSaved (calculateAllTimeStats l) = JS.Num (inc + - spent) ∧
    (inc == ledgerIncome l)%Q ∧ (spent == ledgerSpending l)%Q.
Proof.
  intros Hfin%allMonths_Forall.
  destruct (sumIncome_fold _ 0 Hfin) as (inc & Hinc & Hi).
  destruct (sumExpenses_fold _ 0 Hfin) as (spent & Hspent & Hs).
  change (sumIncome (map_to_list l).*2 = JS.Num inc) in Hinc.
  change (sumExpenses (map_to_list l).*2 = JS.Num spent) in Hspent.
  exists inc, spent. unfold calculateAllTimeStats. cbn [totalIncome totalExpenses totalSaved].
  rewrite Hinc, Hspent.
  split; [done|]. split; [done|]. split; [done|].
  unfold ledgerIncome, ledgerSpending, allExpenses. split; lra.
Qed.

(** The score is read off the rate that the function has computed. *)
Lemma budgetScore_of_rate (l : Ledger) :
  allMonths finiteMonth l →
  ∃ inc, totalIncome (calculateAllTimeStats l) = JS.Num inc ∧ (inc == ledgerIncome l)%Q ∧
    if Qeq_bool inc 0 then getBudgetScore l = JS.zero
    else ∃ rate score,
           computedRate l = JS.Num rate ∧ (rate == savingsRate l)%Q ∧
           getBudgetScore l = JS.Num score ∧ (score == scoreOfRate rate)%Q.
Proof.
  intros Hfin. destruct (stats_finite l Hfin) as (inc & spent & Hinc & _ & Hsaved & Hi & Hs).
  exists inc. split; [done|]. split; [done|].
  unfold getBudgetScore, computedRate. cbv zeta. rewrite Hinc, Hsaved. simpl JS.strictEq.
  destruct (Qeq_bool inc 0) eqn:Hzero; [done|].
  unfold JS.div. rewrite Hzero. unfold hundred. cbn [JS.mul].
  set (rate := ((inc + - spent) / inc * 100)%Q).
  assert (Hrate : (rate == savingsRate l)%Q).
  { unfold rate, savingsRate. rewrite <- Hi, <- Hs. q_bool. field. done. }
  cut (∃ q, (if JS.ge (JS.Num rate) (JS.Num 30) then JS.Num 100
             else if JS.ge (JS.Num rate) (JS.Num 20) then JS.Num 90
             else if JS.ge (JS.Num rate) (JS.Num 10) then JS.Num 75
             else if JS.ge (JS.Num rate) (JS.Num 5) then JS.Num 60
             else if JS.ge (JS.Num rate) JS.zero then JS.Num 50
             else JS.max JS.zero (JS.add (JS.Num 50) (JS.Num rate))) = JS.Num q ∧
            (q == scoreOfRate rate)%Q).
  { intros (q & Hq & Hscore). by exists rate, q. }
  unfold scoreOfRate, JS.ge, JS.zero. rewrite !le_Num.
  destruct (Qle_bool 30 rate); [by eexists|].
  destruct (Qle_bool 20 rate); [by eexists|].
  destruct (Qle_bool 10 rate); [by eexists|].
  destruct (Qle_bool 5 rate); [by eexists|].
  destruct (Qle_bool 0 rate); [by eexists|].
  cbn [JS.add JS.max JS.lt]. unfold JS.Qlt_bool.
  destruct (Qle_bool (50 + rate) 0) eqn:Hneg; cbn [negb].
  - exists 0%Q. split; [done|].
    destruct (Qle_bool 0 (50 + rate)) eqn:Hpos; q_bool; lra.
  - exists (50 + rate)%Q. split; [done|].
    destruct (Qle_bool 0 (50 + rate)) eqn:Hpos; q_bool; lra.
Qed.

(** C6.  On a ledger of finite numbers the budget score is 0 when the total
    income that the statistics hold is 0.  Otherwise it is the threshold
    function of the savings rate [(totalSaved / totalIncome) * 100] that
    the function computes from those totals: 100 from 30, 90 from 20, 75
    from 10, 60 from 5, 50 from 0, and [max(0, 50 + rate)] below 0; that
    rate is [100 * (income - spending) / income] over the sums of the
    ledger.  The score lies between 0 and 100, and of two ledgers with an
    income the one with the higher computed rate does not have the lower
    score. *)
Theorem budget_score_thresholds (l1 l2 : Ledger) :
  allMonths finiteMonth l1 → allMonths finiteMonth l2 →
  (JS.strictEq (totalIncome (calculateAllTimeStats l1)) JS.zero = true →
   getBudgetScore l1 = JS.zero) ∧
  (JS.strictEq (totalIncome (calculateAllTimeStats l1)) JS.zero = false →
   ∃ rate score,
     computedRate l1 = JS.Num rate ∧ (rate == savingsRate l1)%Q ∧
     getBudgetScore l1 = JS.Num score ∧ (score == scoreOfRate rate)%Q) ∧
  (∃ score, getBudgetScore l1 = JS.Num score ∧ (0 <= score <= 100)%Q) ∧
  (JS.strictEq (totalIncome (calculateAllTimeStats l1)) JS.zero = false →
   JS.strictEq (totalIncome (calculateAllTimeStats l2)) JS.zero = false →
   JS.le (computedRate l1) (computedRate l2) = true →
   JS.le (getBudgetScore l1) (getBudgetScore l2) = true).
Proof.
  intros Hfin1 Hfin2.
  destruct (budgetScore_of_rate l1 Hfin1) as (inc1 & Hinc1 & _ & Hs1).
  destruct (budgetScore_of_rate l2 Hfin2) as (inc2 & Hinc2 & _ & Hs2).
  rewrite Hinc1, Hinc2. cbn [JS.strictEq JS.zero].
  split; [|split; [|split]].
  - intros Hzero. by rewrite Hzero in Hs1.
  - intros Hzero. by rewrite Hzero in Hs1.
  - destruct (Qeq_bool inc1 0).
    + exists 0%Q. split; [done | lra].
    + destruct Hs1 as (rate & score & _ & _ & Hscore & Heq). exists score.
      split; [done|]. rewrite Heq. apply scoreOfRate_range.
  - intros Hz1 Hz2. rewrite Hz1 in Hs1. rewrite Hz2 in Hs2.
    destruct Hs1 as (r1 & q1 & -> & _ & -> & Hq1).
    destruct Hs2 as (r2 & q2 & -> & _ & -> & Hq2).
    rewrite !le_Num, !Qle_bool_iff. intros Hle. rewrite Hq1, Hq2.
    by apply scoreOfRate_mono.
Qed.

Lemma budget_score_thresholds_witness :
  allMonths finiteMonth twoMonths ∧
  JS.strictEq (totalIncome (calculateAllTimeStats twoMonths)) JS.zero = false ∧
  ∃ rate score,
    computedRate twoMonths = JS.Num rate ∧
    getBudgetScore twoMonths = JS.Num score ∧ (score == scoreOfRate rate)%Q.
Proof.
  assert (H : allMonths finiteMonth twoMonths).
  { unfold allMonths, twoMonths. apply map_Forall_insert_2; [reflexivity|].
    apply map_Forall_insert_2; [reflexivity|]. apply map_Forall_empty. }
  assert (Hinc : JS.strictEq (totalIncome (calculateAllTimeStats twoMonths)) JS.zero = false)
    by (vm_compute; reflexivity).
  split; [exact H|]. split; [exact Hinc|].
  destruct (budget_score_thresholds twoMonths twoMonths H H) as (_ & Hrate & _).
  destruct (Hrate Hinc) as (rate & score & Hr & _ & Hs & Heq).
  exists rate, score. split; [exact Hr|]. split; [exact Hs | exact Heq].
Defined.

(** ** Spending trend *)

(** The four ways through [getSpendingTrend]. *)
Lemma spending_trend_path (l : Ledger) (k : string) :
  ((size l < 2)%nat ∧ getSpendingTrend l k = None) ∨
  (¬ knownMonth l k ∧ getSpendingTrend l k = None) ∨
  (earliestMonth l k ∧ getSpendingTrend l k = None) ∨
  ((2 ≤ size l)%nat ∧
   ∃ p current previous,
     precedingMonth l p k ∧ l !! k = Some current ∧ l !! p = Some previous ∧
     getSpendingTrend l k
     = if JS.strictEq (expensesOf previous) JS.zero then None
       else Some (trendOf current previous)).
Proof.
  unfold getSpendingTrend. rewrite months_length.
  destruct (size l <? 2)%nat eqn:Hsize.
  { left. split; [by apply Nat.ltb_lt | done]. }
  apply Nat.ltb_ge in Hsize. right.
  destruct (indexOf String.eqb k (sortStrings (keys l))) as [[|i]|] eqn:Hidx.
  - right. left. apply indexOf_Some in Hidx; [|apply String.eqb_eq].
    split; [by apply months_head_earliest | done].
  - right. right. split; [done|].
    apply indexOf_Some in Hidx; [|apply String.eqb_eq].
    destruct (lookup_lt_is_Some_2 (sortStrings (keys l)) i) as [p Hp].
    { apply lookup_lt_Some in Hidx. lia. }
    pose proof (months_neighbours l i p k Hp Hidx) as Hprec.
    assert (Hk : knownMonth l k)
      by (apply months_elem; by apply list_elem_of_lookup_2 in Hidx).
    destruct Hk as [current Hcurrent]. destruct Hprec as (Hknown & Hrest).
    pose proof Hknown as [previous Hprevious].
    exists p, current, previous. split; [done|]. split; [done|]. split; [done|].
    rewrite Hcurrent, Hp. simpl. rewrite Hprevious. done.
  - left. apply indexOf_None in Hidx; [|apply String.eqb_eq].
    split; [|done]. by rewrite <- months_elem.
Qed.

Lemma expensesOf_finite (r : MonthRecord) :
  finiteMonth r = true →
  ∃ q, expensesOf r = JS.Num q ∧ (q == spentTotal (expenses r))%Q.
Proof.
  intros [_ Hes]%andb_true_iff. destruct (totalOf_finite _ Hes) as (t & Ht & Hsum).
  unfold expensesOf. rewrite Ht. destruct (or_zero_finite t) as (q & -> & Hq).
  exists q. split; [done | lra].
Qed.

(** C7, as the code has it.  The trend is null exactly when fewer than two
    months are known, or the current key is not a known month, or it is the
    earliest known month, or the expenses of the known month immediately
    before it total 0.  Otherwise it holds the expense totals of the current
    month and of the known month immediately before it, the change
    (current - previous) / previous * 100, and whether that change is above
    0; on finite amounts the change is 100 * (current - previous) / previous
    over the sums of the amounts.  For two months with expenses 500 then 800
    the change is 60 and it is an increase. *)
Theorem spending_trend_cases :
  (∀ (l : Ledger) (k : string),
     getSpendingTrend l k = None ↔
     ((size l < 2)%nat ∨ ¬ knownMonth l k ∨ earliestMonth l k ∨
      ∃ p previous, precedingMonth l p k ∧ l !! p = Some previous ∧
                    JS.strictEq (expensesOf previous) JS.zero = true)) ∧
  (∀ (l : Ledger) (k : string) (t : Trend),
     getSpendingTrend l k = Some t →
     ∃ p current previous,
       precedingMonth l p k ∧ l !! k = Some current ∧ l !! p = Some previous ∧
       tr_current t = expensesOf current ∧ tr_previous t = expensesOf previous ∧
       tr_change t
       = JS.mul (JS.div (JS.sub (tr_current t) (tr_previous t)) (tr_previous t)) hundred ∧
       tr_isUp t = JS.gt (tr_change t) JS.zero ∧
       (finiteMonth current = true → finiteMonth previous = true →
        ∃ change, tr_change t = JS.Num change ∧
          (change == 100 * (spentTotal (expenses current) - spentTotal (expenses previous))
                     / spentTotal (expenses previous))%Q ∧
          (tr_isUp t = true ↔ (0 < change)%Q))) ∧
  (∃ t, getSpendingTrend twoMonths "2025-02" = Some t ∧
        JS.strictEq (tr_previous t) (JS.Num 500) = true ∧
        JS.strictEq (tr_current t) (JS.Num 800) = true ∧
        JS.strictEq (tr_change t) (JS.Num 60) = true ∧ tr_isUp t = true).
Proof.
  split; [|split].
  - intros l k. split.
    + intros Hnone.
      destruct (spending_trend_path l k)
        as [[H _] | [[H _] | [[H _] | [_ (p & current & previous & Hprec & Hc & Hp & Heq)]]]];
        auto.
      right; right; right. exists p, previous. split; [done|]. split; [done|].
      rewrite Hnone in Heq. by destruct (JS.strictEq (expensesOf previous) JS.zero).
    + intros Hcase.
      destruct (spending_trend_path l k)
        as [[_ H] | [[_ H] | [[_ H] | [Hsize (p & current & previous & Hprec & Hc & Hp & Heq)]]]];
        auto.
      destruct Hcase as [Hlt | [Hunknown | [Hearliest | (p' & previous' & Hprec' & Hp' & Hzero)]]].
      * lia.
      * destruct Hunknown. by exists current.
      * destruct (earliest_has_no_preceding l p k Hearliest Hprec).
      * rewrite (preceding_unique l p p' k Hprec Hprec') in Hp.
        rewrite Hp' in Hp. injection Hp as <-. by rewrite Heq, Hzero.
  - intros l k t Ht.
    destruct (spending_trend_path l k)
      as [[_ H] | [[_ H] | [[_ H] | [_ (p & current & previous & Hprec & Hc & Hp & Heq)]]]];
      try congruence.
    rewrite Ht in Heq.
    destruct (JS.strictEq (expensesOf previous) JS.zero) eqn:Hzero; [done|].
    injection Heq as ->. exists p, current, previous.
    split; [done|]. split; [done|]. split; [done|].
    split; [done|]. split; [done|]. split; [done|]. split; [done|].
    intros Hfc Hfp. unfold trendOf. cbn [tr_change tr_isUp].
    destruct (expensesOf_finite current Hfc) as (c & Hcq & Hcs).
    destruct (expensesOf_finite previous Hfp) as (q & Hpq & Hps).
    rewrite Hcq, Hpq in *. simpl in Hzero. unfold hundred, JS.div.
    cbn [JS.sub JS.neg JS.add]. rewrite Hzero. cbn [JS.mul].
    eexists. split; [reflexivity|]. q_bool. split.
    + rewrite <- Hcs, <- Hps. field. done.
    + unfold JS.gt, JS.zero. cbn [JS.lt]. apply Qlt_bool_iff.
  - eexists. split; [vm_compute; reflexivity|]. by vm_compute.
Qed.

Lemma spending_trend_cases_witness :
  ∃ t, getSpendingTrend twoMonths "2025-02" = Some t ∧
       tr_previous t = expensesOf januaryMonth.
Proof.
  destruct spending_trend_cases as (_ & Hsome & _).
  assert (H : getSpendingTrend twoMonths "2025-02"
              = Some (trendOf februaryMonth januaryMonth)) by (vm_compute; reflexivity).
  exists (trendOf februaryMonth januaryMonth). split; [exact H|].
  destruct (Hsome twoMonths "2025-02" _ H) as (p & current & previous & _).
  reflexivity.
Defined.

(** C7 does not hold as stated: with two known months and a current key
    that is later than both and not in the ledger, the trend is null, though
    two months are known, the current key is not the earliest known month,
    and the known month before it has expenses of 800. *)
Lemma spending_trend_null_for_unknown_month :
  getSpendingTrend twoMonths "2025-03" = None ∧
  ¬ ((size twoMonths < 2)%nat ∨ earliestMonth twoMonths "2025-03" ∨
     ∃ p previous, precedingMonth twoMonths p "2025-03" ∧
                   twoMonths !! p = Some previous ∧
                   JS.strictEq (expensesOf previous) JS.zero = true).
Proof.
  split; [vm_compute; reflexivity|].
  intros [Hsize | [[[r Hr] _] | (p & previous & Hprec & Hp & Hzero)]].
  - vm_compute in Hsize. lia.
  - vm_compute in Hr. discriminate Hr.
  - unfold twoMonths in Hp.
    apply lookup_insert_Some in Hp as [[<- <-] | [Hne Hp]].
    + destruct Hprec as (_ & _ & Hmax).
      assert (Hle : String.leb "2025-02" "2025-01" = true).
      { apply Hmax; [by exists februaryMonth | reflexivity]. }
      vm_compute in Hle. discriminate Hle.
    + apply lookup_singleton_Some in Hp as [<- <-].
      vm_compute in Hzero. discriminate Hzero.
Qed.

(** ** Category breakdown *)

Lemma setProperty_fresh (obj : list (string * (Category * number))) key value :
  key ∉ obj.*1 → setProperty obj key value = obj ++ [(key, value)].
Proof.
  induction obj as [|[k v] obj IH]; simpl; [done|].
  rewrite not_elem_of_cons. intros [Hne Hfresh].
  destruct (String.eqb_spec k key) as [->|_]; [done|]. by rewrite IH.
Qed.

Lemma initTotals_fold (cats : list Category) (obj : list (string * (Category * number))) :
  NoDup (obj.*1 ++ (cat_id <$> cats)) →
  fold_left (λ obj cat, setProperty obj (cat_id cat) (cat, JS.zero)) cats obj
  = obj ++ totalsObject cats (λ _, 0%Q).
Proof.
  revert obj. induction cats as [|cat cats IH]; intros obj Hnodup; simpl.
  - by rewrite app_nil_r.
  - rewrite fmap_cons in Hnodup.
    apply NoDup_app in Hnodup as (Hobj & Hdisj & Hcats).
    apply NoDup_cons in Hcats as [Hcat Hcats].
    rewrite setProperty_fresh.
    + rewrite IH.
      * by rewrite <- app_assoc.
      * rewrite fmap_app. simpl. rewrite <- app_assoc. simpl.
        apply NoDup_app. split; [done|]. split; [|by apply NoDup_cons].
        intros k Hk. by apply Hdisj.
    + intros Hin. apply (Hdisj _ Hin). apply list_elem_of_here.
Qed.

Lemma initTotals_eq (cats : list Category) :
  NoDup (cat_id <$> cats) → initTotals cats = totalsObject cats (λ _, 0%Q).
Proof. intros Hnodup. unfold initTotals. by rewrite initTotals_fold. Qed.

Lemma totalsObject_ext (cats : list Category) (f g : string → Q) :
  (∀ cat, cat ∈ cats → f (cat_id cat) = g (cat_id cat)) →
  totalsObject cats f = totalsObject cats g.
Proof.
  intros Hfg. unfold totalsObject. apply list_fmap_ext.
  intros i cat Hcat. rewrite (Hfg cat); [done|]. by apply list_elem_of_lookup_2 in Hcat.
Qed.

Lemma addToProperty_known (cats : list Category) (f : string → Q) (key : string) (a : Q) :
  NoDup (cat_id <$> cats) → knownCategory cats key = true →
  addToProperty (totalsObject cats f) key (JS.Num a)
  = Some (totalsObject cats (bump f key a)).
Proof.
  induction cats as [|cat cats IH]; simpl; [done|].
  intros [Hcat Hcats]%NoDup_cons Hknown.
  destruct (String.eqb_spec (cat_id cat) key) as [Heq|Hne].
  - f_equal. unfold bump at 1. rewrite (proj2 (String.eqb_eq _ _) Heq). simpl.
    f_equal. apply totalsObject_ext. intros c Hc. unfold bump.
    destruct (String.eqb_spec (cat_id c) key) as [Hc'|]; [|done].
    destruct Hcat. rewrite Heq, <- Hc'. apply list_elem_of_fmap. by exists c.
  - simpl in Hknown. rewrite IH; [|done|done]. simpl. unfold bump at 2.
    by rewrite (proj2 (String.eqb_neq _ _) Hne).
Qed.

Lemma spentIn_cons (c : string) (e : Expense) (es : list Expense) :
  (spentIn c (e :: es)
   == (if String.eqb (exp_category e) c then toQ (exp_amount e) else 0) + spentIn c es)%Q.
Proof.
  unfold spentIn. cbn [List.filter]. destruct (String.eqb (exp_category e) c).
  - rewrite fmap_cons, Qsum_cons. unfold compose at 1. lra.
  - lra.
Qed.

(** The inner loops of [getCategoryBreakdown] over a list of expenses. *)
Lemma breakdown_fold (cats : list Category) (es : list Expense) (f : string → Q) (t : Q) :
  NoDup (cat_id <$> cats) →
  forallb (λ e, JS.isFinite (exp_amount e)) es = true →
  forallb (λ e, knownCategory cats (exp_category e)) es = true →
  ∃ f' t',
    fold_left addExpenseToBreakdown es (Some (totalsObject cats f, JS.Num t))
    = Some (totalsObject cats f', JS.Num t') ∧
    (∀ c, f' c == f c + spentIn c es)%Q ∧ (t' == t + spentTotal es)%Q.
Proof.
  intros Hnodup. revert f t. induction es as [|e es IH]; intros f t Hfin Hknown.
  - exists f, t. split; [done|]. unfold spentIn, spentTotal. simpl.
    split; [intros c|]; lra.
  - cbn [forallb] in Hfin, Hknown.
    apply andb_true_iff in Hfin as [He Hfin]. apply andb_true_iff in Hknown as [Hk Hknown].
    cbn [fold_left]. unfold addExpenseToBreakdown at 2. unfold parseFloatNum.
    destruct (exp_amount e) as [a| | |] eqn:Ha; try done.
    rewrite (addToProperty_known cats f _ a Hnodup Hk). cbn [JS.add].
    destruct (IH (bump f (exp_category e) a) (t + a)%Q Hfin Hknown) as (f' & t' & Heq & Hf & Ht).
    exists f', t'. split; [exact Heq|]. split.
    + intros c. rewrite Hf, spentIn_cons, Ha. unfold bump. cbn [toQ].
      rewrite (String.eqb_sym c). destruct (String.eqb (exp_category e) c); lra.
    + rewrite Ht, spentTotal_cons, Ha. cbn [toQ]. lra.
Qed.

Lemma fold_left_months {B : Type} (g : B → Expense → B) (months : list MonthRecord) (b : B) :
  fold_left (λ acc data, fold_left g (expenses data) acc) months b
  = fold_left g (concat (expenses <$> months)) b.
Proof.
  revert b. induction months as [|r months IH]; intros b; [done|].
  rewrite fmap_cons. cbn [concat fold_left]. by rewrite fold_left_app, IH.
Qed.

Lemma forallb_concat (P : Expense → bool) (Q : MonthRecord → bool)
    (months : list MonthRecord) :
  (∀ r, Q r = true → forallb P (expenses r) = true) →
  Forall (λ r, Q r = true) months →
  forallb P (concat (expenses <$> months)) = true.
Proof.
  intros HQ Hall. induction Hall as [|r months Hr _ IH]; [done|].
  rewrite fmap_cons. cbn [concat]. rewrite forallb_app, IH, (HQ r Hr). done.
Qed.

(** What [getCategoryBreakdown] accumulates over a ledger of finite amounts
    in known categories. *)
Lemma accumulateBreakdown_finite (l : Ledger) (cats : list Category) :
  NoDup (cat_id <$> cats) →
  allMonths finiteMonth l → allMonths (categoriesKnown cats) l →
  ∃ f t,
    accumulateBreakdown cats (map_to_list l).*2
    = Some (totalsObject cats f, JS.Num t) ∧
    (∀ c, f c == spentIn c (allExpenses l))%Q ∧ (t == ledgerSpending l)%Q.
Proof.
  intros Hnodup Hfin%allMonths_Forall Hknown%allMonths_Forall.
  unfold accumulateBreakdown. rewrite fold_left_months, (initTotals_eq cats Hnodup).
  destruct (breakdown_fold cats (concat (expenses <$> (map_to_list l).*2))
              (λ _, 0%Q) 0 Hnodup) as (f & t & Heq & Hf & Ht).
  - apply (forallb_concat _ finiteMonth); [|done].
    intros r Hr. unfold finiteMonth in Hr. by apply andb_true_iff in Hr as [_ Hr].
  - by apply (forallb_concat _ (categoriesKnown cats)).
  - exists f, t. split; [exact Heq|]. unfold ledgerSpending, allExpenses.
    split; [intros c; rewrite Hf|rewrite Ht]; lra.
Qed.

Lemma Qsum_perm (xs ys : list Q) : xs ≡ₚ ys → (Qsum xs == Qsum ys)%Q.
Proof.
  induction 1 as [|x xs ys _ IH|x y xs|xs ys zs _ IH1 _ IH2].
  - reflexivity.
  - rewrite !Qsum_cons, IH. reflexivity.
  - rewrite !Qsum_cons. lra.
  - by rewrite IH1.
Qed.

Lemma Qsum_fmap_plus {A : Type} (g h : A → Q) (l : list A) :
  (Qsum ((λ x, g x + h x) <$> l) == Qsum (g <$> l) + Qsum (h <$> l))%Q.
Proof.
  induction l as [|x l IH]; [unfold Qsum; simpl; lra|].
  rewrite !fmap_cons, !Qsum_cons, IH. lra.
Qed.

Lemma Qsum_fmap_ext {A : Type} (g h : A → Q) (l : list A) :
  (∀ x, x ∈ l → g x == h x)%Q → (Qsum (g <$> l) == Qsum (h <$> l))%Q.
Proof.
  induction l as [|x l IH]; intros Hgh; [reflexivity|].
  rewrite !fmap_cons, !Qsum_cons, IH, (Hgh x); [reflexivity|apply list_elem_of_here|].
  intros y Hy. apply Hgh. by apply list_elem_of_further.
Qed.

Lemma Qsum_nonneg {A : Type} (g : A → Q) (l : list A) :
  (∀ x, x ∈ l → 0 <= g x)%Q → (0 <= Qsum (g <$> l))%Q.
Proof.
  induction l as [|x l IH]; intros Hg; [unfold Qsum; simpl; lra|].
  rewrite fmap_cons, Qsum_cons.
  assert (0 <= g x)%Q by (apply Hg, list_elem_of_here).
  assert (0 <= Qsum (g <$> l))%Q
    by (apply IH; intros y Hy; apply Hg; by apply list_elem_of_further).
  lra.
Qed.

(** An amount goes to exactly one category of the registry. *)
Lemma Qsum_one_category (cats : list Category) (key : string) (a : Q) :
  NoDup (cat_id <$> cats) → knownCategory cats key = true →
  (Qsum ((λ cat, if String.eqb key (cat_id cat) then a else 0) <$> cats) == a)%Q.
Proof.
  induction cats as [|cat cats IH]; [done|].
  rewrite fmap_cons. intros [Hcat Hcats]%NoDup_cons Hknown.
  rewrite fmap_cons, Qsum_cons. simpl in Hknown.
  destruct (String.eqb_spec key (cat_id cat)) as [-> | Hne].
  - rewrite (Qsum_fmap_ext _ (λ _, 0%Q)).
    + assert (Hzero : ∀ l : list Category, (Qsum ((λ _, 0%Q) <$> l) == 0)%Q).
      { induction l as [|x l IHl]; [reflexivity|].
        rewrite fmap_cons, Qsum_cons, IHl. lra. }
      rewrite Hzero. lra.
    + intros c Hc. destruct (String.eqb_spec (cat_id cat) (cat_id c)) as [Heq|]; [|reflexivity].
      destruct Hcat. rewrite Heq. apply list_elem_of_fmap. by exists c.
  - rewrite IH; [lra | done |].
    rewrite (proj2 (String.eqb_neq (cat_id cat) key)) in Hknown; [done | congruence].
Qed.

(** Over the categories of the registry the per-category sums add up to the
    total. *)
Lemma spentIn_total (cats : list Category) (es : list Expense) :
  NoDup (cat_id <$> cats) →
  forallb (λ e, knownCategory cats (exp_category e)) es = true →
  (Qsum ((λ cat, spentIn (cat_id cat) es) <$> cats) == spentTotal es)%Q.
Proof.
  intros Hnodup. induction es as [|e es IH]; intros Hknown.
  - unfold spentTotal, spentIn. simpl. clear.
    induction cats as [|c cats IHc]; [reflexivity|].
    rewrite fmap_cons, Qsum_cons, IHc. unfold Qsum. simpl. lra.
  - cbn [forallb] in Hknown. apply andb_true_iff in Hknown as [Hk Hknown].
    rewrite (Qsum_fmap_ext _
      (λ cat, (if String.eqb (exp_category e) (cat_id cat) then toQ (exp_amount e) else 0)
              + spentIn (cat_id cat) es)%Q).
    + rewrite Qsum_fmap_plus, (Qsum_one_category cats _ _ Hnodup Hk), (IH Hknown).
      rewrite spentTotal_cons. reflexivity.
    + intros c _. apply spentIn_cons.
Qed.

Lemma spentIn_nonneg (c : string) (es : list Expense) :
  forallb (λ e, isAmount (exp_amount e)) es = true → (0 <= spentIn c es)%Q.
Proof.
  induction es as [|e es IH]; [intros; unfold spentIn, Qsum; simpl; lra|].
  cbn [forallb]. intros [He Hes]%andb_true_iff. rewrite spentIn_cons.
  specialize (IH Hes). destruct (String.eqb (exp_category e) c); [|lra].
  destruct (exp_amount e) as [a| | |]; try done. simpl in *.
  apply Qle_bool_iff in He. lra.
Qed.

(** *** The returned list *)

Lemma breakdown_entries (cats : list Category) (f : string → Q) (t : Q) :
  List.map
    (λ cat : Category * number,
       mkBreakdown (fst cat) (snd cat)
         (if JS.gt (JS.Num t) JS.zero
          then JS.mul (JS.div (snd cat) (JS.Num t)) hundred else JS.zero))
    (List.filter (λ cat : Category * number, JS.gt (snd cat) JS.zero)
       (List.map snd (totalsObject cats f)))
  = breakdownEntry f t <$> List.filter (λ cat, JS.Qlt_bool 0 (f (cat_id cat))) cats.
Proof.
  induction cats as [|cat cats IH]; [done|].
  cbn [totalsObject fmap list_fmap List.map List.filter snd fst] in *.
  change (JS.gt (JS.Num (f (cat_id cat))) JS.zero) with (JS.Qlt_bool 0 (f (cat_id cat))).
  destruct (JS.Qlt_bool 0 (f (cat_id cat))); cbn [List.map];
    [rewrite fmap_cons; f_equal|]; exact IH.
Qed.

Lemma share_of_entry (f : string → Q) (t : Q) (cat : Category) :
  ∃ pct, bd_percentage (breakdownEntry f t cat) = JS.Num pct ∧
         (pct == shareOf (f (cat_id cat)) t)%Q.
Proof.
  unfold breakdownEntry, shareOf. cbn [bd_percentage].
  change (JS.gt (JS.Num t) JS.zero) with (JS.Qlt_bool 0 t).
  destruct (JS.Qlt_bool 0 t) eqn:Hpos; [|by exists 0%Q].
  unfold JS.div, hundred.
  assert (Hnz : Qeq_bool t 0 = false) by (apply Qeq_bool_false; q_bool; lra).
  rewrite Hnz. cbn [JS.mul]. eexists. split; [reflexivity|]. q_bool. field. lra.
Qed.

Lemma shareOf_proper (x x' t t' : Q) :
  (x == x')%Q → (t == t')%Q → (shareOf x t == shareOf x' t')%Q.
Proof.
  intros Hx Ht. unfold shareOf.
  destruct (JS.Qlt_bool 0 t) eqn:H1, (JS.Qlt_bool 0 t') eqn:H2; q_bool; try lra.
  rewrite Hx, Ht. reflexivity.
Qed.

(** The shares of the listed categories, times the total spending. *)
Lemma shares_sum (f : string → Q) (t : Q) (cats : list Category) :
  (0 < t)%Q →
  (Qsum (toQ ∘ bd_percentage <$> (breakdownEntry f t <$> cats)) * t
   == 100 * Qsum ((λ cat, f (cat_id cat)) <$> cats))%Q.
Proof.
  intros Hpos. induction cats as [|cat cats IH]; [unfold Qsum; simpl; lra|].
  rewrite !fmap_cons, !Qsum_cons. unfold compose at 1.
  destruct (share_of_entry f t cat) as (pct & -> & Hpct). cbn [toQ].
  unfold shareOf in Hpct. rewrite (proj2 (Qlt_bool_iff 0 t) Hpos) in Hpct.
  rewrite Qmult_plus_distr_l, IH, Hpct. field. lra.
Qed.

(** Leaving out the categories without spending does not change the sum. *)
Lemma positive_categories_sum (f : string → Q) (cats : list Category) :
  (∀ cat, cat ∈ cats → 0 <= f (cat_id cat))%Q →
  (Qsum ((λ cat, f (cat_id cat))
           <$> List.filter (λ cat, JS.Qlt_bool 0 (f (cat_id cat))) cats)
   == Qsum ((λ cat, f (cat_id cat)) <$> cats))%Q.
Proof.
  induction cats as [|cat cats IH]; intros Hf; [reflexivity|].
  assert (Hrest : (Qsum ((λ cat, f (cat_id cat))
                     <$> List.filter (λ cat, JS.Qlt_bool 0 (f (cat_id cat))) cats)
                   == Qsum ((λ cat, f (cat_id cat)) <$> cats))%Q).
  { apply IH. intros c Hc. apply Hf. by apply list_elem_of_further. }
  cbn [List.filter]. rewrite fmap_cons, Qsum_cons.
  destruct (JS.Qlt_bool 0 (f (cat_id cat))) eqn:Hpos.
  - rewrite fmap_cons, Qsum_cons, Hrest. reflexivity.
  - rewrite Hrest. q_bool.
    assert (0 <= f (cat_id cat))%Q by (apply Hf, list_elem_of_here). lra.
Qed.

Lemma descending_Num (x y : Q) : descending (JS.Num x) (JS.Num y) = Qle_bool y x.
Proof.
  unfold descending, JS.gt, JS.zero. cbn [JS.sub JS.neg JS.add JS.lt].
  destruct (JS.Qlt_bool 0 (y + - x)) eqn:H1, (Qle_bool y x) eqn:H2;
    try done; q_bool; exfalso; lra.
Qed.

Lemma sorted_weaken {A : Type} (R R' : A → A → Prop) (P : A → Prop) (l : list A) :
  (∀ a b, P a → P b → R a b → R' a b) →
  Forall P l → StronglySorted R l → StronglySorted R' l.
Proof.
  intros Himpl HP Hsorted. induction Hsorted as [|x l Hl IH Hx]; [constructor|].
  apply Forall_cons in HP as [Px Pl]. constructor; [by apply IH|].
  rewrite Forall_forall in Hx, Pl. apply Forall_forall. intros y Hy.
  apply Himpl; auto.
Qed.

(** C5.  On a ledger of finite amounts in categories of the registry, the
    breakdown lists exactly the categories in which the sum of the amounts
    over all months is above 0, each once, with that sum as total and
    [100 * total / totalSpending] as percentage (0 when the total spending is
    not above 0), in descending order of total.  When no amount is negative
    and the list is not empty, the percentages add up to 100. *)
Theorem category_breakdown_shares (l : Ledger) (cats : list Category) :
  NoDup (cat_id <$> cats) →
  allMonths finiteMonth l → allMonths (categoriesKnown cats) l →
  ∃ bs, getCategoryBreakdown l cats = Some bs ∧
    (∀ b, b ∈ bs →
       bd_cat b ∈ cats ∧
       ∃ total pct,
         bd_total b = JS.Num total ∧ bd_percentage b = JS.Num pct ∧
         (total == spentIn (cat_id (bd_cat b)) (allExpenses l))%Q ∧ (0 < total)%Q ∧
         (pct == shareOf total (ledgerSpending l))%Q) ∧
    (∀ cat, cat ∈ cats → (0 < spentIn (cat_id cat) (allExpenses l))%Q →
       ∃ b, b ∈ bs ∧ bd_cat b = cat) ∧
    NoDup (bd_cat <$> bs) ∧
    StronglySorted (λ a b, JS.ge (bd_total a) (bd_total b) = true) bs ∧
    (allMonths amountsNonNegative l → bs ≠ [] →
     (Qsum (toQ ∘ bd_percentage <$> bs) == 100)%Q).
Proof.
  intros Hnodup Hfin Hknown.
  destruct (accumulateBreakdown_finite l cats Hnodup Hfin Hknown) as (f & t & Hacc & Hf & Ht).
  unfold getCategoryBreakdown. rewrite Hacc. cbv beta iota.
  rewrite breakdown_entries.
  set (listed := List.filter (λ cat, JS.Qlt_bool 0 (f (cat_id cat))) cats).
  set (bs := sortBy _ _).
  assert (Hperm : bs ≡ₚ breakdownEntry f t <$> listed) by apply sortBy_perm.
  assert (Hlisted : ∀ cat, cat ∈ listed ↔ cat ∈ cats ∧ (0 < f (cat_id cat))%Q).
  { intros cat. unfold listed. rewrite !list_elem_of_In, filter_In, Qlt_bool_iff. done. }
  exists bs. split; [done|]. split; [|split; [|split; [|split]]].
  - intros b Hb. rewrite Hperm in Hb.
    apply list_elem_of_fmap in Hb as (cat & -> & Hcat).
    apply Hlisted in Hcat as [Hcat Hpos]. split; [done|].
    destruct (share_of_entry f t cat) as (pct & Hpct & Hshare).
    exists (f (cat_id cat)), pct. split; [done|]. split; [done|].
    split; [apply Hf|]. split; [done|].
    rewrite Hshare. by apply shareOf_proper.
  - intros cat Hcat Hpos. exists (breakdownEntry f t cat). split; [|done].
    rewrite Hperm. apply list_elem_of_fmap. exists cat. split; [done|].
    apply Hlisted. split; [done|]. by rewrite Hf.
  - assert (Hid : bd_cat <$> (breakdownEntry f t <$> listed) = listed).
    { rewrite <- list_fmap_compose. rewrite <- (list_fmap_id listed) at 2.
      by apply list_fmap_ext. }
    rewrite Hperm, Hid. unfold listed.
    apply NoDup_ListNoDup, List.NoDup_filter, NoDup_ListNoDup.
    by apply NoDup_fmap_1 in Hnodup.
  - apply (sorted_weaken (λ a b, descending (bd_total a) (bd_total b) = true) _
             (λ b, ∃ q, bd_total b = JS.Num q)).
    + intros a b [x Hx] [y Hy]. rewrite Hx, Hy, descending_Num.
      unfold JS.ge. by rewrite le_Num.
    + apply Forall_forall. intros b Hb. rewrite Hperm in Hb.
      apply list_elem_of_fmap in Hb as (cat & -> & _). by eexists.
    + apply (sortBy_sorted _ (λ b, ∃ q, bd_total b = JS.Num q)).
      * intros a b [x Hx] [y Hy]. rewrite Hx, Hy, !descending_Num.
        intros Hxy. apply Qle_bool_iff. q_bool. lra.
      * intros a b c [x Hx] [y Hy] [z Hz]. rewrite Hx, Hy, Hz, !descending_Num.
        intros Hyx Hzy. apply Qle_bool_iff. q_bool. lra.
      * apply Forall_forall. intros b Hb.
        apply list_elem_of_fmap in Hb as (cat & -> & _). by eexists.
  - intros Hnonneg%allMonths_Forall Hsome.
    assert (Hamounts : forallb (λ e, isAmount (exp_amount e)) (allExpenses l) = true)
      by by apply (forallb_concat _ amountsNonNegative).
    assert (Hcats : forallb (λ e, knownCategory cats (exp_category e)) (allExpenses l)
                    = true).
    { apply allMonths_Forall in Hknown.
      by apply (forallb_concat _ (categoriesKnown cats)). }
    assert (Hf0 : ∀ cat, cat ∈ cats → (0 <= f (cat_id cat))%Q).
    { intros cat _. rewrite Hf. by apply spentIn_nonneg. }
    assert (Hsum : (Qsum ((λ cat, f (cat_id cat)) <$> listed) == t)%Q).
    { unfold listed. rewrite (positive_categories_sum f cats Hf0).
      rewrite (Qsum_fmap_ext _ (λ cat, spentIn (cat_id cat) (allExpenses l)));
        [|intros; apply Hf].
      rewrite (spentIn_total cats _ Hnodup Hcats), Ht. reflexivity. }
    assert (Hpos : (0 < t)%Q).
    { destruct listed as [|cat listed'] eqn:Hl.
      - destruct Hsome. apply Permutation_nil_r in Hperm. exact Hperm.
      - assert (Hcat : cat ∈ cat :: listed') by apply list_elem_of_here.
        apply Hlisted in Hcat as [_ Hcat].
        rewrite fmap_cons, Qsum_cons in Hsum.
        assert (0 <= Qsum ((λ cat, f (cat_id cat)) <$> listed'))%Q.
        { apply Qsum_nonneg. intros c Hc. apply Hf0.
          apply (Hlisted c). by apply list_elem_of_further. }
        lra. }
    rewrite (Qsum_perm _ (toQ ∘ bd_percentage <$> (breakdownEntry f t <$> listed)));
      [|by rewrite Hperm].
    pose proof (shares_sum f t listed Hpos) as Hshares.
    rewrite Hsum in Hshares.
    apply (Qmult_inj_r _ _ t); [lra | exact Hshares].
Qed.

Lemma category_breakdown_shares_witness :
  NoDup (cat_id <$> categories) ∧
  allMonths finiteMonth twoMonths ∧ allMonths (categoriesKnown categories) twoMonths ∧
  allMonths amountsNonNegative twoMonths ∧
  ∃ bs, getCategoryBreakdown twoMonths categories = Some bs ∧
        (Qsum (toQ ∘ bd_percentage <$> bs) == 100)%Q.
Proof.
  assert (Hall : ∀ P : MonthRecord → bool,
            P januaryMonth = true → P februaryMonth = true → allMonths P twoMonths).
  { intros P H1 H2. unfold allMonths, twoMonths.
    apply map_Forall_insert_2; [exact H1|].
    apply map_Forall_insert_2; [exact H2|]. apply map_Forall_empty. }
  assert (Hfin : allMonths finiteMonth twoMonths) by (apply Hall; reflexivity).
  assert (Hknown : allMonths (categoriesKnown categories) twoMonths)
    by (apply Hall; reflexivity).
  assert (Hnonneg : allMonths amountsNonNegative twoMonths) by (apply Hall; reflexivity).
  assert (Hdistinct : NoDup (cat_id <$> categories))
    by (apply (bool_decide_unpack _); vm_compute; exact I).
  split; [exact Hdistinct|]. split; [exact Hfin|].
  split; [exact Hknown|]. split; [exact Hnonneg|].
  destruct (category_breakdown_shares twoMonths categories Hdistinct Hfin Hknown)
    as (bs & Hbs & _ & _ & _ & _ & Hsum).
  exists bs. split; [exact Hbs|]. apply Hsum; [exact Hnonneg|].
  intros ->. vm_compute in Hbs. discriminate Hbs.
Defined.

(** * Further properties of the code *)

(** ** What the handlers do to the ledger *)

(** A step leaves the ledger alone, empties it (the confirmed reset) or
    writes the record of the current month; the limits of the written
    record are those of the current month, with one positive limit set or
    one limit removed, or those of a stored month. *)
Lemma step_ledger_shape (a : Action) (s : State) :
  monthlyBudgets (fst (step a s)) = monthlyBudgets s ∨
  (a = ResetData true ∧ monthlyBudgets (fst (step a s)) = ∅) ∨
  ∃ r', monthlyBudgets (fst (step a s)) = <[currentMonth s := r']> (monthlyBudgets s) ∧
    (categoryLimits r' = categoryLimits (getCurrentMonthData s) ∨
     (∃ c limit, categoryLimits r' = <[c := limit]> (categoryLimits (getCurrentMonthData s)) ∧
                 JS.gt limit JS.zero = true) ∨
     (∃ c, categoryLimits r' = delete c (categoryLimits (getCurrentMonthData s))) ∨
     (∃ k prev, monthlyBudgets s !! k = Some prev ∧
                categoryLimits r' = categoryLimits prev)).
Proof.
  destruct a; cbn [step fst]; try (by left).
  - right; right. eexists. split; [reflexivity|]. by left.
  - right; right. eexists. split; [reflexivity|]. by left.
  - right; right. eexists. split; [reflexivity|]. cbn [withCategoryLimits categoryLimits].
    destruct (JS.gt limit JS.zero) eqn:Hpos.
    + right; left. by exists categoryId, limit.
    + right; right; left. by exists categoryId.
  - unfold handleAddExpense. destruct (JS.truthyStr _ && JS.truthyStr _); [|by left].
    right; right. eexists. split; [reflexivity|]. by left.
  - right; right. eexists. split; [reflexivity|]. by left.
  - right; right. eexists. split; [reflexivity|]. by left.
  - unfold handleSaveEdit. destruct (editingExpenseData s); [|by left].
    destruct (JS.truthyStr _ && truthyAmount _); [|by left].
    right; right. eexists. split; [reflexivity|]. by left.
  - unfold autoPopulate.
    destruct (negb (isLoaded s) || negb (JS.truthyStr (currentMonth s))
              || bool_decide (currentMonth s ∈ populatedMonths s)); [by left|].
    destruct (previousMonthOf _ _) as [previousMonth|]; [|by left].
    destruct (monthlyBudgets s !! previousMonth) as [prevData|] eqn:Hprev; [|by left].
    destruct (monthHasData _); [by left|].
    rewrite buildNewMonth_eq. cbv zeta.
    destruct (_ || _); [|by left].
    right; right. eexists. split; [reflexivity|]. right; right; right.
    by exists previousMonth, prevData.
  - left. by destruct (deferredCheck_fields render s) as (_ & _ & H & _).
  - unfold handleResetData. destruct confirmed; [right; left | left]; done.
Qed.

Lemma currentMonthData_limits (s : State) (c : string) (limit : number) :
  limitsPositive (monthlyBudgets s) →
  categoryLimits (getCurrentMonthData s) !! c = Some limit →
  JS.gt limit JS.zero = true.
Proof.
  intros Hpos. unfold getCurrentMonthData.
  destruct (monthlyBudgets s !! currentMonth s) as [r|] eqn:Hr; simpl.
  - by apply (Hpos (currentMonth s) r).
  - by rewrite lookup_empty.
Qed.

Lemma step_limits_positive (a : Action) (s : State) :
  limitsPositive (monthlyBudgets s) → limitsPositive (monthlyBudgets (fst (step a s))).
Proof.
  intros Hpos.
  destruct (step_ledger_shape a s) as [-> | [[_ ->] | (r' & -> & Hr')]]; [done| |].
  { intros k r c limit Hk. by rewrite lookup_empty in Hk. }
  intros k r c limit Hk Hc.
  apply lookup_insert_Some in Hk as [[_ <-] | [_ Hk]]; [|by apply (Hpos k r c)].
  destruct Hr' as [Heq | [(c' & limit' & Heq & Hlimit) | [(c' & Heq) | (k' & prev & Hprev & Heq)]]];
    rewrite Heq in Hc.
  - by apply (currentMonthData_limits s c).
  - apply lookup_insert_Some in Hc as [[_ <-] | [_ Hc]]; [done|].
    by apply (currentMonthData_limits s c).
  - apply lookup_delete_Some in Hc as [_ Hc]. by apply (currentMonthData_limits s c).
  - by apply (Hpos k' prev c).
Qed.

(** No handler and no effect stores a limit that is not above 0: when every
    limit in the ledger is above 0, so is every limit after any sequence of
    steps. *)
Theorem limits_stay_positive (actions : list Action) (s : State) :
  limitsPositive (monthlyBudgets s) →
  limitsPositive (monthlyBudgets (fst (run actions s))).
Proof.
  revert s. induction actions as [|a actions IH]; intros s Hpos; [done|].
  cbn [run]. pose proof (step_limits_positive a s Hpos) as Hstep.
  destruct (step a s) as [s1 effects1]. specialize (IH s1 Hstep).
  by destruct (run actions s1) as [s2 effects2].
Qed.

Lemma limits_stay_positive_witness :
  limitsPositive (monthlyBudgets rentState) ∧
  limitsPositive
    (monthlyBudgets
       (fst (run [SetCategoryLimit "food" (JS.Num 0); SetCategoryLimit "debt" (JS.Num 40)]
               rentState))).
Proof.
  assert (H : limitsPositive (monthlyBudgets rentState)).
  { intros k r c limit Hk Hc. cbn in Hk.
    apply lookup_singleton_Some in Hk as [_ <-]. cbn in Hc.
    apply lookup_singleton_Some in Hc as [_ <-]. reflexivity. }
  split; [exact H|]. exact (limits_stay_positive _ rentState H).
Defined.

(** The one step that removes a month from the ledger is the confirmed
    reset, which empties it.  Any other step keeps every month, and the
    only month it can add is the current one; over a session with no
    confirmed reset the known months only grow. *)
Theorem known_months_only_grow :
  (∀ s : State, monthlyBudgets (fst (step (ResetData true) s)) = ∅) ∧
  (∀ (a : Action) (s : State),
     a ≠ ResetData true →
     dom (monthlyBudgets s) ⊆ dom (monthlyBudgets (fst (step a s))) ∧
     dom (monthlyBudgets (fst (step a s)))
       ⊆ dom (monthlyBudgets s) ∪ {[ currentMonth s ]}) ∧
  (∀ (actions : list Action) (s : State),
     ResetData true ∉ actions →
     dom (monthlyBudgets s) ⊆ dom (monthlyBudgets (fst (run actions s)))).
Proof.
  assert (Hstep : ∀ (a : Action) (s : State),
     a ≠ ResetData true →
     dom (monthlyBudgets s) ⊆ dom (monthlyBudgets (fst (step a s))) ∧
     dom (monthlyBudgets (fst (step a s)))
       ⊆ dom (monthlyBudgets s) ∪ {[ currentMonth s ]}).
  { intros a s Ha.
    destruct (step_ledger_shape a s) as [-> | [[Hreset _] | (r' & -> & _)]]; [|done|].
    - split; [done | apply union_subseteq_l].
    - rewrite dom_insert_L. split; [apply union_subseteq_r|].
      by rewrite (comm_L (∪)). }
  split; [done|]. split; [exact Hstep|].
  intros actions. induction actions as [|a actions IH]; intros s Hnone; [done|].
  apply not_elem_of_cons in Hnone as [Ha Hnone].
  cbn [run]. destruct (Hstep a s) as [H1 _]; [done|].
  destruct (step a s) as [s1 effects1]. specialize (IH s1 Hnone).
  destruct (run actions s1) as [s2 effects2]. cbn [fst] in *. by etrans.
Qed.

Lemma known_months_only_grow_witness :
  dom (monthlyBudgets rentState)
    ⊆ dom (monthlyBudgets
             (fst (run [DeleteExpense 1; Navigate "2025-04"; SetIncome (JS.Num 2500) None]
                     rentState))) ∧
  monthlyBudgets (fst (step (ResetData true) rentState)) = ∅.
Proof.
  destruct known_months_only_grow as (Hreset & _ & Hrun).
  split; [|exact (Hreset rentState)].
  apply (Hrun [DeleteExpense 1; Navigate "2025-04"; SetIncome (JS.Num 2500) None] rentState).
  rewrite !not_elem_of_cons. repeat split; try discriminate. apply not_elem_of_nil.
Defined.

(** ** Deleting, toggling and editing expenses *)

Lemma getIncome_setExpenses (es : list Expense) (s : State) :
  getIncome (setExpenses es s) = getIncome s ∧
  getCategoryLimits (setExpenses es s) = getCategoryLimits s.
Proof.
  unfold getIncome, getCategoryLimits, getCurrentMonthData, setExpenses. simpl.
  by rewrite lookup_insert_eq.
Qed.

Lemma filter_sublist {A : Type} (P : A → bool) (l : list A) :
  List.filter P l `sublist_of` l.
Proof.
  induction l as [|x l IH]; simpl; [done|].
  destruct (P x); [by apply sublist_skip | by apply sublist_cons].
Qed.

Lemma filter_all {A : Type} (P : A → bool) (l : list A) :
  (∀ x, x ∈ l → P x = true) → List.filter P l = l.
Proof.
  induction l as [|x l IH]; intros HP; simpl; [done|].
  rewrite (HP x), IH; [done| |apply list_elem_of_here].
  intros y Hy. apply HP. by apply list_elem_of_further.
Qed.

Lemma filter_twice {A : Type} (P : A → bool) (l : list A) :
  List.filter P (List.filter P l) = List.filter P l.
Proof.
  apply filter_all. intros x Hx. apply list_elem_of_In, filter_In in Hx. tauto.
Qed.

(** Deleting by id removes every expense of that id from the current month
    and keeps the others in their order; it changes nothing else in the
    month, leaves the list as it is when no expense has the id, and deleting
    again changes nothing more. *)
Theorem delete_expense_by_id (id : Z) (s : State) :
  let s' := fst (handleDeleteExpense id s) in
  (∀ e, e ∈ getExpenses s' ↔ e ∈ getExpenses s ∧ exp_id e ≠ id) ∧
  getExpenses s' `sublist_of` getExpenses s ∧
  ((∀ e, e ∈ getExpenses s → exp_id e ≠ id) → getExpenses s' = getExpenses s) ∧
  getExpenses (fst (handleDeleteExpense id s')) = getExpenses s' ∧
  getIncome s' = getIncome s ∧ getCategoryLimits s' = getCategoryLimits s.
Proof.
  cbv zeta. unfold handleDeleteExpense. cbn [fst].
  rewrite !getExpenses_setExpenses.
  split; [|split; [|split; [|split]]].
  - intros e. rewrite !list_elem_of_In, filter_In, negb_true_iff, Z.eqb_neq. done.
  - apply filter_sublist.
  - intros Habsent. apply filter_all. intros e He.
    apply negb_true_iff, Z.eqb_neq. by apply Habsent.
  - apply filter_twice.
  - apply getIncome_setExpenses.
Qed.

Lemma delete_expense_by_id_witness :
  (∀ e, e ∈ getExpenses rentState → exp_id e ≠ 7) ∧
  getExpenses (fst (handleDeleteExpense 7 rentState)) = getExpenses rentState.
Proof.
  assert (H : ∀ e, e ∈ getExpenses rentState → exp_id e ≠ 7).
  { intros e He. cbn in He. apply list_elem_of_singleton in He as ->. discriminate. }
  split; [exact H|].
  destruct (delete_expense_by_id 7 rentState) as (_ & _ & Hsame & _).
  exact (Hsame H).
Defined.

(** Adding an expense and then deleting the id it was given restores the
    expense list, when no expense of the month had that id. *)
Theorem add_then_delete_restores (now : Z) (s : State) :
  form_name (newExpense s) ≠ "" → form_amount (newExpense s) ≠ "" →
  (∀ e, e ∈ getExpenses s → exp_id e ≠ now) →
  getExpenses (fst (handleDeleteExpense now (fst (handleAddExpense now s))))
  = getExpenses s.
Proof.
  intros Hname Hamount Hfresh.
  unfold handleDeleteExpense, handleAddExpense.
  rewrite (proj2 (truthyStr_true _) Hname), (proj2 (truthyStr_true _) Hamount).
  cbn [andb fst]. rewrite getExpenses_setExpenses.
  change (getExpenses (setNewExpense emptyForm ?x)) with (getExpenses x).
  rewrite getExpenses_setExpenses, List.filter_app. cbn [List.filter exp_id]. rewrite Z.eqb_refl. cbn [negb].
  rewrite app_nil_r. apply filter_all. intros e He.
  apply negb_true_iff, Z.eqb_neq. by apply Hfresh.
Qed.

Lemma add_then_delete_restores_witness :
  form_name (newExpense gymForm) ≠ "" ∧ form_amount (newExpense gymForm) ≠ "" ∧
  (∀ e, e ∈ getExpenses gymForm → exp_id e ≠ 3000) ∧
  getExpenses (fst (handleDeleteExpense 3000 (fst (handleAddExpense 3000 gymForm))))
  = getExpenses gymForm.
Proof.
  assert (H1 : form_name (newExpense gymForm) ≠ "") by discriminate.
  assert (H2 : form_amount (newExpense gymForm) ≠ "") by discriminate.
  assert (H3 : ∀ e, e ∈ getExpenses gymForm → exp_id e ≠ 3000).
  { intros e He. cbn in He. apply list_elem_of_singleton in He as ->. discriminate. }
  split; [exact H1|]. split; [exact H2|]. split; [exact H3|].
  exact (add_then_delete_restores 3000 gymForm H1 H2 H3).
Defined.

Lemma toggleRecurring_twice (e : Expense) : toggleRecurring (toggleRecurring e) = e.
Proof. destruct e as [i n a c r]. unfold toggleRecurring. simpl. by rewrite negb_involutive. Qed.

(** Toggling the recurring flag by id flips the flag of the expenses of that
    id and of no other, keeps every position, id, name, amount and category,
    and toggling again restores the list. *)
Theorem toggle_expense_recurring_flips (id : Z) (s : State) :
  let s' := fst (toggleExpenseRecurring id s) in
  length (getExpenses s') = length (getExpenses s) ∧
  (∀ i e, getExpenses s !! i = Some e →
     ∃ e', getExpenses s' !! i = Some e' ∧
       exp_id e' = exp_id e ∧ exp_name e' = exp_name e ∧
       exp_amount e' = exp_amount e ∧ exp_category e' = exp_category e ∧
       exp_isRecurring e'
       = if exp_id e =? id then negb (exp_isRecurring e) else exp_isRecurring e) ∧
  getExpenses (fst (toggleExpenseRecurring id s')) = getExpenses s.
Proof.
  cbv zeta. unfold toggleExpenseRecurring. cbn [fst]. rewrite !getExpenses_setExpenses.
  split; [apply length_map|]. split.
  - intros i e He. eexists. split.
    + change (List.map ?f ?l) with (f <$> l). rewrite list_lookup_fmap, He. reflexivity.
    + by destruct (exp_id e =? id).
  - rewrite List.map_map. rewrite <- (List.map_id (getExpenses s)) at 2.
    apply List.map_ext. intros e. destruct (exp_id e =? id) eqn:He; cbn [toggleRecurring exp_id].
    + rewrite He. apply toggleRecurring_twice.
    + by rewrite He.
Qed.

Lemma toggle_expense_recurring_flips_witness :
  ∃ e', getExpenses (fst (toggleExpenseRecurring 2000 (stateAt twoMonths "2025-02")))
          !! 0%nat = Some e' ∧
        exp_isRecurring e' = true.
Proof.
  destruct (toggle_expense_recurring_flips 2000 (stateAt twoMonths "2025-02"))
    as (_ & H & _).
  destruct (H 0%nat (mkExpense 2000 "Rent" (JS.Num 800) "housing" false))
    as (e' & He' & _ & _ & _ & _ & Hrec).
  - vm_compute. reflexivity.
  - exists e'. split; [exact He' | exact Hrec].
Defined.

(** Saving an edit replaces, in place, the expenses whose id is the one
    under edit by the edited data with its amount parsed; the list keeps its
    length, the other expenses and, when the edited data carries the id under
    edit, every id; the edit is then closed.  With an empty name or an amount
    that is empty, 0 or NaN nothing is saved and the edit stays open. *)
Theorem save_edit_replaces_in_place (s : State) (d : ExpenseEdit) :
  editingExpenseData s = Some d →
  let s' := fst (handleSaveEdit s) in
  (edit_name d ≠ "" → truthyAmount (edit_amount d) = true →
     length (getExpenses s') = length (getExpenses s) ∧
     (∀ i e, getExpenses s !! i = Some e →
        getExpenses s' !! i
        = Some (if bool_decide (Some (exp_id e) = editingExpenseId s)
                then editedExpense d else e)) ∧
     (editingExpenseId s = Some (edit_id d) →
        exp_id <$> getExpenses s' = exp_id <$> getExpenses s) ∧
     editingExpenseId s' = None ∧ editingExpenseData s' = None) ∧
  (edit_name d = "" ∨ truthyAmount (edit_amount d) = false →
     handleSaveEdit s = (s, [])).
Proof.
  intros Hd. cbv zeta. unfold handleSaveEdit. rewrite Hd. split.
  - intros Hname Hamount. rewrite (proj2 (truthyStr_true _) Hname), Hamount.
    cbn [andb fst].
    change (getExpenses (setEditing None None ?x)) with (getExpenses x).
    rewrite getExpenses_setExpenses.
    split; [apply length_map|]. split; [|split; [|done]].
    + intros i e He. change (List.map ?f ?l) with (f <$> l).
      by rewrite list_lookup_fmap, He.
    + intros Hid. change (List.map ?f ?l) with (f <$> l).
      rewrite <- list_fmap_compose. apply list_fmap_ext. intros i e _.
      unfold compose. case_bool_decide as Heq; [|done].
      rewrite Hid in Heq. injection Heq as ->. reflexivity.
  - intros [-> | ->]; [done|]. by rewrite andb_false_r.
Qed.

Lemma save_edit_replaces_in_place_witness :
  editingExpenseData (handleStartEdit (mkExpense 2000 "Rent" (JS.Num 800) "housing" false)
                        (stateAt twoMonths "2025-02"))
  = Some (mkEdit 2000 "Rent" (Stored (JS.Num 800)) "housing" false) ∧
  length (getExpenses
            (fst (handleSaveEdit
                    (handleStartEdit (mkExpense 2000 "Rent" (JS.Num 800) "housing" false)
                       (stateAt twoMonths "2025-02")))))
  = length (getExpenses
              (handleStartEdit (mkExpense 2000 "Rent" (JS.Num 800) "housing" false)
                 (stateAt twoMonths "2025-02"))).
Proof.
  split; [reflexivity|].
  destruct (save_edit_replaces_in_place
              (handleStartEdit (mkExpense 2000 "Rent" (JS.Num 800) "housing" false)
                 (stateAt twoMonths "2025-02"))
              (mkEdit 2000 "Rent" (Stored (JS.Num 800)) "housing" false) eq_refl)
    as [Hsave _].
  destruct Hsave as (Hlength & _); [discriminate | reflexivity | exact Hlength].
Defined.

Lemma same_id_same_expense (es : list Expense) (e e' : Expense) :
  NoDup (exp_id <$> es) → e ∈ es → e' ∈ es → exp_id e' = exp_id e → e' = e.
Proof.
  intros Hnodup [i Hi]%list_elem_of_lookup_1 [j Hj]%list_elem_of_lookup_1 Hid.
  assert (i = j); [|congruence].
  apply (NoDup_lookup (exp_id <$> es) i j (exp_id e)); [done| |];
    rewrite list_lookup_fmap; [by rewrite Hi | rewrite Hj; simpl; by rewrite Hid].
Qed.

(** Opening an expense of the month for edit and saving without a change
    gives the list back, when ids are unique in the month, the name is not
    empty and the amount is neither 0 nor NaN.  An expense whose amount is 0
    or NaN cannot be saved that way: the handler does nothing. *)
Theorem edit_without_change (e : Expense) (s : State) :
  e ∈ getExpenses s → NoDup (exp_id <$> getExpenses s) → exp_name e ≠ "" →
  let editing := handleStartEdit e s in
  (JS.truthy (exp_amount e) = true →
     getExpenses (fst (handleSaveEdit editing)) = getExpenses s ∧
     editingExpenseId (fst (handleSaveEdit editing)) = None) ∧
  (JS.truthy (exp_amount e) = false → handleSaveEdit editing = (editing, [])).
Proof.
  intros He Hnodup Hname. cbv zeta. unfold handleSaveEdit, handleStartEdit.
  cbn [setEditing editingExpenseData editingExpenseId edit_name edit_amount truthyAmount].
  rewrite (proj2 (truthyStr_true _) Hname). cbn [andb]. split.
  - intros ->. cbn [fst]. split; [|done].
    change (getExpenses (setEditing None None ?x)) with (getExpenses x).
    rewrite getExpenses_setExpenses.
    change (getExpenses (setEditing ?i ?d s)) with (getExpenses s).
    rewrite <- (List.map_id (getExpenses s)) at 2.
    apply List.map_ext_in. intros e' He'%list_elem_of_In.
    case_bool_decide as Heq; [|done]. injection Heq as Heq.
    rewrite (same_id_same_expense _ e e' Hnodup He He' Heq).
    by destruct e.
  - by intros ->.
Qed.

Lemma edit_without_change_witness :
  mkExpense 2000 "Rent" (JS.Num 800) "housing" false
    ∈ getExpenses (stateAt twoMonths "2025-02") ∧
  getExpenses
    (fst (handleSaveEdit
            (handleStartEdit (mkExpense 2000 "Rent" (JS.Num 800) "housing" false)
               (stateAt twoMonths "2025-02"))))
  = getExpenses (stateAt twoMonths "2025-02").
Proof.
  assert (H1 : mkExpense 2000 "Rent" (JS.Num 800) "housing" false
                 ∈ getExpenses (stateAt twoMonths "2025-02"))
    by (cbn; apply list_elem_of_here).
  assert (H2 : NoDup (exp_id <$> getExpenses (stateAt twoMonths "2025-02")))
    by (cbn; apply NoDup_singleton).
  split; [exact H1|].
  destruct (edit_without_change _ _ H1 H2) as [Hsave _]; [discriminate|].
  destruct Hsave as [Hsame _]; [reflexivity | exact Hsame].
Defined.

(** Unique ids in the current month stay unique: deleting and toggling keep
    them so, saving an edit does when the edited data carries the id under
    edit, and adding does when the clock reading is not an id of the month. *)
Theorem expense_ids_stay_unique (s : State) :
  NoDup (exp_id <$> getExpenses s) →
  (∀ id, NoDup (exp_id <$> getExpenses (fst (handleDeleteExpense id s)))) ∧
  (∀ id, NoDup (exp_id <$> getExpenses (fst (toggleExpenseRecurring id s)))) ∧
  (∀ d, editingExpenseData s = Some d → editingExpenseId s = Some (edit_id d) →
        NoDup (exp_id <$> getExpenses (fst (handleSaveEdit s)))) ∧
  (∀ now, (∀ e, e ∈ getExpenses s → exp_id e ≠ now) →
          NoDup (exp_id <$> getExpenses (fst (handleAddExpense now s)))).
Proof.
  intros Hnodup. split; [|split; [|split]].
  - intros id. unfold handleDeleteExpense. cbn [fst]. rewrite getExpenses_setExpenses.
    apply (sublist_NoDup _ (exp_id <$> getExpenses s)); [done|].
    apply fmap_sublist, filter_sublist.
  - intros id. unfold toggleExpenseRecurring. cbn [fst]. rewrite getExpenses_setExpenses.
    change (List.map ?f ?l) with (f <$> l). rewrite <- list_fmap_compose.
    rewrite (list_fmap_ext _ exp_id); [done|].
    intros i e _. unfold compose. by destruct (exp_id e =? id).
  - intros d Hd Hid. unfold handleSaveEdit. rewrite Hd.
    destruct (JS.truthyStr _ && truthyAmount _); [|done]. cbn [fst].
    change (getExpenses (setEditing None None ?x)) with (getExpenses x).
    rewrite getExpenses_setExpenses.
    change (List.map ?f ?l) with (f <$> l). rewrite <- list_fmap_compose.
    rewrite (list_fmap_ext _ exp_id); [done|].
    intros i e _. unfold compose. case_bool_decide as Heq; [|done].
    rewrite Hid in Heq. injection Heq as ->. reflexivity.
  - intros now Hfresh. unfold handleAddExpense.
    destruct (JS.truthyStr _ && JS.truthyStr _); [|done]. cbn [fst].
    change (getExpenses (setNewExpense emptyForm ?x)) with (getExpenses x).
    rewrite getExpenses_setExpenses, fmap_app. cbn [fmap list_fmap exp_id].
    apply NoDup_app. split; [done|]. split; [|apply NoDup_singleton].
    intros id Hin Hnew. apply list_elem_of_singleton in Hnew. subst id.
    apply list_elem_of_fmap in Hin as (e & He & Hin). by apply (Hfresh e).
Qed.

Lemma expense_ids_stay_unique_witness :
  NoDup (exp_id <$> getExpenses gymForm) ∧
  NoDup (exp_id <$> getExpenses (fst (handleAddExpense 3000 gymForm))).
Proof.
  assert (H : NoDup (exp_id <$> getExpenses gymForm)) by (cbn; apply NoDup_singleton).
  split; [exact H|].
  destruct (expense_ids_stay_unique gymForm H) as (_ & _ & _ & Hadd).
  apply Hadd. intros e He. cbn in He. apply list_elem_of_singleton in He as ->.
  discriminate.
Defined.

(** ** Reading back what was set *)

(** A handler that writes to a month that has no record yet stores a
    whole record for it: the defaults (income 0, not recurring, no expense,
    no limit) with the one field written.  Setting the income, toggling
    its flag, setting a limit above 0 and adding an expense store the
    field; deleting or toggling an expense, saving an edit and setting a
    limit that is not above 0 store the empty record. *)
Theorem first_write_stores_defaults (s : State) :
  monthlyBudgets s !! currentMonth s = None →
  (∀ value isRecurring,
     monthlyBudgets (setIncome value isRecurring s) !! currentMonth s
     = Some (mkMonth value (default false isRecurring) [] ∅)) ∧
  monthlyBudgets (fst (toggleIncomeRecurring s)) !! currentMonth s
  = Some (mkMonth JS.zero true [] ∅) ∧
  (∀ c limit, JS.gt limit JS.zero = true →
     monthlyBudgets (setCategoryLimit c limit s) !! currentMonth s
     = Some (mkMonth JS.zero false [] {[ c := limit ]})) ∧
  (∀ c limit, JS.gt limit JS.zero = false →
     monthlyBudgets (setCategoryLimit c limit s) !! currentMonth s = Some emptyMonth) ∧
  (∀ now, form_name (newExpense s) ≠ "" → form_amount (newExpense s) ≠ "" →
     monthlyBudgets (fst (handleAddExpense now s)) !! currentMonth s
     = Some (mkMonth JS.zero false
               [mkExpense now (form_name (newExpense s))
                  (JS.parseFloat (form_amount (newExpense s)))
                  (form_category (newExpense s)) (form_isRecurring (newExpense s))] ∅)) ∧
  (∀ id, monthlyBudgets (fst (handleDeleteExpense id s)) !! currentMonth s
         = Some emptyMonth) ∧
  (∀ id, monthlyBudgets (fst (toggleExpenseRecurring id s)) !! currentMonth s
         = Some emptyMonth) ∧
  (∀ d, editingExpenseData s = Some d →
     edit_name d ≠ "" → truthyAmount (edit_amount d) = true →
     monthlyBudgets (fst (handleSaveEdit s)) !! currentMonth s = Some emptyMonth).
Proof.
  intros Hnone.
  assert (Hdata : getCurrentMonthData s = emptyMonth)
    by (unfold getCurrentMonthData; by rewrite Hnone).
  split; [|split; [|split; [|split; [|split; [|split; [|split]]]]]].
  - intros value isRecurring. unfold setIncome. cbn [setMonthlyBudgets monthlyBudgets].
    rewrite lookup_insert_eq, Hdata. by destruct isRecurring.
  - unfold toggleIncomeRecurring, setIncome, getIncome, getIncomeRecurring.
    cbn [fst setMonthlyBudgets monthlyBudgets]. by rewrite lookup_insert_eq, Hdata.
  - intros c limit Hlimit. unfold setCategoryLimit, getCategoryLimits.
    cbn [setMonthlyBudgets monthlyBudgets]. rewrite lookup_insert_eq, Hdata, Hlimit.
    cbn [emptyMonth categoryLimits withCategoryLimits income incomeRecurring expenses].
    by rewrite insert_empty.
  - intros c limit Hlimit. unfold setCategoryLimit, getCategoryLimits.
    cbn [setMonthlyBudgets monthlyBudgets]. rewrite lookup_insert_eq, Hdata, Hlimit.
    cbn [emptyMonth categoryLimits withCategoryLimits income incomeRecurring expenses].
    by rewrite delete_empty.
  - intros now Hname Hamount. unfold handleAddExpense.
    rewrite (proj2 (truthyStr_true _) Hname), (proj2 (truthyStr_true _) Hamount).
    cbn [andb fst]. unfold setExpenses, getExpenses.
    cbn [setNewExpense setMonthlyBudgets monthlyBudgets].
    by rewrite lookup_insert_eq, Hdata.
  - intros id. unfold handleDeleteExpense, setExpenses, getExpenses.
    cbn [fst setMonthlyBudgets monthlyBudgets]. by rewrite lookup_insert_eq, Hdata.
  - intros id. unfold toggleExpenseRecurring, setExpenses, getExpenses.
    cbn [fst setMonthlyBudgets monthlyBudgets]. by rewrite lookup_insert_eq, Hdata.
  - intros d Hd Hname Hamount. unfold handleSaveEdit. rewrite Hd.
    rewrite (proj2 (truthyStr_true _) Hname), Hamount. cbn [andb fst].
    unfold setExpenses, getExpenses.
    cbn [setEditing setMonthlyBudgets monthlyBudgets].
    by rewrite lookup_insert_eq, Hdata.
Qed.

Lemma first_write_stores_defaults_witness :
  monthlyBudgets (setCurrentMonth "2025-03" gymForm)
    !! currentMonth (setCurrentMonth "2025-03" gymForm) = None ∧
  monthlyBudgets (setIncome (JS.Num 1800) None (setCurrentMonth "2025-03" gymForm))
    !! "2025-03"
  = Some (mkMonth (JS.Num 1800) false [] ∅) ∧
  monthlyBudgets (setCategoryLimit "food" (JS.Num 300) (setCurrentMonth "2025-03" gymForm))
    !! "2025-03"
  = Some (mkMonth JS.zero false [] {[ "food" := JS.Num 300 ]}) ∧
  monthlyBudgets (fst (handleAddExpense 3000 (setCurrentMonth "2025-03" gymForm)))
    !! "2025-03"
  = Some (mkMonth JS.zero false
            [mkExpense 3000 "Gym" (JS.parseFloat "50") "personal" true] ∅) ∧
  monthlyBudgets (fst (handleDeleteExpense 1 (setCurrentMonth "2025-03" gymForm)))
    !! "2025-03"
  = Some emptyMonth.
Proof.
  assert (H : monthlyBudgets (setCurrentMonth "2025-03" gymForm)
                !! currentMonth (setCurrentMonth "2025-03" gymForm) = None) by reflexivity.
  split; [exact H|].
  destruct (first_write_stores_defaults _ H)
    as (Hincome & _ & Hlimit & _ & Hadd & Hdelete & _).
  split; [exact (Hincome (JS.Num 1800) None)|].
  split; [apply (Hlimit "food" (JS.Num 300)); reflexivity|].
  split; [apply (Hadd 3000); discriminate|].
  exact (Hdelete 1).
Defined.

Lemma getCurrentMonthData_setIncome (value : number) (isRecurring : option bool)
    (s : State) :
  getCurrentMonthData (setIncome value isRecurring s)
  = withIncome (getCurrentMonthData s) value
      (default (incomeRecurring (getCurrentMonthData s)) isRecurring).
Proof.
  unfold getCurrentMonthData at 1, setIncome.
  cbn [setMonthlyBudgets monthlyBudgets currentMonth].
  rewrite lookup_insert_eq. by destruct isRecurring.
Qed.

(** Setting the income is read back, keeps the expenses and the limits of
    the month, and keeps its recurring flag when none is given; toggling the
    recurring flag of the income flips it and keeps the income, and toggling
    twice gives the month data back. *)
Theorem income_set_and_toggled (s : State) :
  (∀ value isRecurring,
     let s' := setIncome value isRecurring s in
     getIncome s' = value ∧
     getIncomeRecurring s' = default (getIncomeRecurring s) isRecurring ∧
     getExpenses s' = getExpenses s ∧ getCategoryLimits s' = getCategoryLimits s) ∧
  getIncomeRecurring (fst (toggleIncomeRecurring s)) = negb (getIncomeRecurring s) ∧
  getIncome (fst (toggleIncomeRecurring s)) = getIncome s ∧
  getCurrentMonthData (fst (toggleIncomeRecurring (fst (toggleIncomeRecurring s))))
  = getCurrentMonthData s.
Proof.
  split; [|split; [|split]].
  - intros value isRecurring. cbv zeta.
    unfold getIncome, getIncomeRecurring, getExpenses, getCategoryLimits.
    rewrite getCurrentMonthData_setIncome.
    cbn [withIncome income incomeRecurring expenses categoryLimits].
    rewrite !orb_false_r. done.
  - unfold toggleIncomeRecurring, getIncomeRecurring at 1. cbn [fst].
    rewrite getCurrentMonthData_setIncome.
    cbn [withIncome incomeRecurring default]. by rewrite orb_false_r.
  - unfold toggleIncomeRecurring, getIncome at 1. cbn [fst].
    by rewrite getCurrentMonthData_setIncome.
  - unfold toggleIncomeRecurring. cbn [fst]. rewrite getCurrentMonthData_setIncome.
    unfold getIncome, getIncomeRecurring. rewrite !getCurrentMonthData_setIncome.
    cbn [withIncome income incomeRecurring expenses categoryLimits default].
    unfold id. rewrite !orb_false_r, negb_involutive.
    by destruct (getCurrentMonthData s).
Qed.

(** Setting a limit above 0 stores it for the category; any other limit (0,
    negative or NaN) removes the entry of the category.  The limits of the
    other categories, the income and the expenses of the month stay. *)
Theorem category_limit_set_or_removed (c : string) (limit : number) (s : State) :
  let s' := setCategoryLimit c limit s in
  getCategoryLimits s' !! c = (if JS.gt limit JS.zero then Some limit else None) ∧
  (∀ c', c' ≠ c → getCategoryLimits s' !! c' = getCategoryLimits s !! c') ∧
  getIncome s' = getIncome s ∧ getExpenses s' = getExpenses s ∧
  limitOf (getCategoryLimits s') (mkCategory c "" "")
  = (if JS.gt limit JS.zero then limit else JS.zero).
Proof.
  cbv zeta.
  assert (Hread : getCurrentMonthData (setCategoryLimit c limit s)
            = withCategoryLimits (getCurrentMonthData s)
                (if JS.gt limit JS.zero then <[c := limit]> (getCategoryLimits s)
                 else delete c (getCategoryLimits s))).
  { unfold getCurrentMonthData at 1, setCategoryLimit.
    cbn [setMonthlyBudgets monthlyBudgets currentMonth]. by rewrite lookup_insert_eq. }
  assert (Hc : getCategoryLimits (setCategoryLimit c limit s) !! c
               = (if JS.gt limit JS.zero then Some limit else None)).
  { unfold getCategoryLimits at 1. rewrite Hread. cbn [withCategoryLimits categoryLimits].
    destruct (JS.gt limit JS.zero); [apply lookup_insert_eq | apply lookup_delete_eq]. }
  split; [exact Hc|]. split; [|split; [|split]].
  - intros c' Hne. unfold getCategoryLimits at 1. rewrite Hread.
    cbn [withCategoryLimits categoryLimits].
    destruct (JS.gt limit JS.zero); [by apply lookup_insert_ne | by apply lookup_delete_ne].
  - unfold getIncome. by rewrite Hread.
  - unfold getExpenses. by rewrite Hread.
  - unfold limitOf. cbn [cat_id]. rewrite Hc.
    destruct (JS.gt limit JS.zero) eqn:Hpos; [|done].
    unfold JS.or. destruct limit as [q| | |]; try done.
    cbn [JS.truthy]. unfold JS.gt in Hpos. cbn in Hpos. apply Qlt_bool_iff in Hpos.
    assert (Hq : Qeq_bool q 0 = false).
    { apply Qeq_bool_false. intros Heq. rewrite Heq in Hpos. by apply (Qlt_irrefl 0). }
    by rewrite Hq.
Qed.

Lemma category_limit_set_or_removed_witness :
  getCategoryLimits (setCategoryLimit "food" (JS.Num 300) rentState) !! "housing"
  = getCategoryLimits rentState !! "housing".
Proof.
  destruct (category_limit_set_or_removed "food" (JS.Num 300) rentState) as (_ & H & _).
  apply H. discriminate.
Defined.

(** ** The remaining budget *)

Lemma remaining_finite (s : State) :
  finiteCurrentMonth s →
  ∃ inc spent,
    getIncome s = JS.Num inc ∧ calculateTotalExpenses s = JS.Num spent ∧
    (spent == spentTotal (getExpenses s))%Q ∧
    calculateRemaining s = JS.Num (inc + - spent).
Proof.
  unfold finiteCurrentMonth, finiteMonth. intros [Hinc Hes]%andb_true_iff.
  unfold calculateRemaining, calculateTotalExpenses, getIncome, getExpenses.
  destruct (income (getCurrentMonthData s)) as [inc| | |]; try done.
  destruct (totalOf_finite _ Hes) as (spent & -> & Hspent).
  by exists inc, spent.
Qed.

(** On a month of finite numbers the remaining budget is the income minus
    the sum of the amounts.  Adding an expense whose amount parses to a
    finite number lowers it by that amount, and the sound played with it is
    the warning exactly when the month was not over budget before and is
    after, the success sound otherwise. *)
Theorem adding_lowers_remaining (now : Z) (s : State) (amount : Q) :
  finiteCurrentMonth s →
  form_name (newExpense s) ≠ "" → form_amount (newExpense s) ≠ "" →
  JS.parseFloat (form_amount (newExpense s)) = JS.Num amount →
  ∃ before after,
    calculateRemaining s = JS.Num before ∧
    (before == toQ (getIncome s) - spentTotal (getExpenses s))%Q ∧
    calculateRemaining (fst (handleAddExpense now s)) = JS.Num after ∧
    (after == before - amount)%Q ∧
    snd (handleAddExpense now s)
    = playSound (if JS.Qlt_bool after 0 && negb (JS.Qlt_bool before 0)
                 then WarningSound else SuccessSound) s
      ++ [ScheduleLimitCheck].
Proof.
  intros Hfin Hname Hamount Hparse.
  destruct (remaining_finite s Hfin) as (inc & spent & Hinc & Hspent & Hsum & Hrem).
  exists (inc + - spent)%Q, (inc + - (spent + amount))%Q.
  split; [exact Hrem|]. split; [rewrite Hinc, Hsum; cbn [toQ]; lra|].
  unfold handleAddExpense.
  rewrite (proj2 (truthyStr_true _) Hname), (proj2 (truthyStr_true _) Hamount).
  cbn [andb fst snd]. rewrite Hparse, Hrem, Hinc, Hspent. cbn [JS.add JS.sub JS.neg JS.lt].
  split; [|split; [lra|]].
  - unfold calculateRemaining, calculateTotalExpenses, getIncome.
    change (getCurrentMonthData (setNewExpense emptyForm ?x)) with (getCurrentMonthData x).
    change (getExpenses (setNewExpense emptyForm ?x)) with (getExpenses x).
    rewrite getExpenses_setExpenses.
    destruct (getIncome_setExpenses
                (getExpenses s ++ [mkExpense now (form_name (newExpense s)) (JS.Num amount)
                                     (form_category (newExpense s))
                                     (form_isRecurring (newExpense s))]) s) as [Hi _].
    unfold getIncome in Hi, Hinc. rewrite Hi, Hinc.
    unfold totalOf. rewrite fold_left_app. cbn [fold_left exp_amount].
    unfold calculateTotalExpenses, totalOf in Hspent. rewrite Hspent.
    unfold parseFloatNum. reflexivity.
  - unfold JS.zero. cbn [JS.lt].
    by destruct (JS.Qlt_bool (inc + - (spent + amount)) 0 && negb (JS.Qlt_bool (inc + - spent) 0)).
Qed.

Lemma adding_lowers_remaining_witness :
  finiteCurrentMonth gymForm ∧
  JS.parseFloat (form_amount (newExpense gymForm)) = JS.Num 50 ∧
  ∃ before after,
    calculateRemaining gymForm = JS.Num before ∧
    calculateRemaining (fst (handleAddExpense 3000 gymForm)) = JS.Num after ∧
    (after == before - 50)%Q.
Proof.
  assert (H1 : finiteCurrentMonth gymForm) by reflexivity.
  assert (H2 : JS.parseFloat (form_amount (newExpense gymForm)) = JS.Num 50)
    by reflexivity.
  split; [exact H1|]. split; [exact H2|].
  destruct (adding_lowers_remaining 3000 gymForm 50 H1) as (before & after & Hb & _ & Ha & Hd & _);
    [discriminate | discriminate | exact H2 |].
  exists before, after. split; [exact Hb|]. split; [exact Ha | exact Hd].
Defined.

(** ** The category chart of the current month *)

Lemma spentIn_known_only (cats : list Category) (c : string) (es : list Expense) :
  knownCategory cats c = true →
  spentIn c (List.filter (λ e, knownCategory cats (exp_category e)) es) = spentIn c es.
Proof.
  intros Hc. unfold spentIn. f_equal. f_equal.
  induction es as [|e es IH]; [done|]. cbn [List.filter].
  destruct (String.eqb_spec (exp_category e) c) as [Heq | Hne].
  - rewrite Heq, Hc. cbn [List.filter]. rewrite Heq, String.eqb_refl. by rewrite IH.
  - destruct (knownCategory cats (exp_category e)); [|done].
    cbn [List.filter]. by rewrite (proj2 (String.eqb_neq _ _) Hne).
Qed.

Lemma filter_forallb {A : Type} (P : A → bool) (l : list A) :
  forallb P (List.filter P l) = true.
Proof.
  apply forallb_forall. intros x Hx. apply filter_In in Hx. tauto.
Qed.

Lemma forallb_filter {A : Type} (P Q : A → bool) (l : list A) :
  forallb P l = true → forallb P (List.filter Q l) = true.
Proof.
  rewrite !forallb_forall. intros HP x Hx. apply HP. apply filter_In in Hx. tauto.
Qed.

(** On a month of finite amounts none of which is negative, the totals of
    the entries of the chart add up to the sum of the expenses whose
    category is in the registry: an expense of another category counts in
    the total of the month and in no entry. *)
Theorem chart_totals_add_up (s : State) :
  finiteCurrentMonth s → amountsNonNegative (getCurrentMonthData s) = true →
  (Qsum (toQ ∘ ct_total <$> calculateCategoryTotals s)
   == spentTotal (List.filter (λ e, knownCategory categories (exp_category e))
                    (getExpenses s)))%Q ∧
  ∃ total, calculateTotalExpenses s = JS.Num total ∧
           (total == spentTotal (getExpenses s))%Q.
Proof.
  intros Hfin Hnonneg. split.
  2:{ destruct (remaining_finite s Hfin) as (inc & spent & _ & Hspent & Hsum & _).
      by exists spent. }
  unfold finiteCurrentMonth, finiteMonth in Hfin. apply andb_true_iff in Hfin as [_ Hes].
  fold (getExpenses s) in Hes. unfold amountsNonNegative in Hnonneg.
  fold (getExpenses s) in Hnonneg.
  set (es := getExpenses s) in *.
  set (f := λ c, toQ (totalOf (List.filter (λ e, String.eqb (exp_category e) c) es))).
  assert (Hf : ∀ c, totalOf (List.filter (λ e, String.eqb (exp_category e) c) es)
                    = JS.Num (f c) ∧ (f c == spentIn c es)%Q).
  { intros c. destruct (totalOf_finite (List.filter (λ e, String.eqb (exp_category e) c) es))
      as (q & Hq & Hsum); [by apply forallb_filter|].
    unfold f. rewrite Hq. split; [done|]. cbn [toQ]. exact Hsum. }
  assert (Hlist : ∀ cats, (∀ cat, cat ∈ cats → cat ∈ categories) →
    toQ ∘ ct_total
      <$> List.filter (λ cat, JS.gt (ct_total cat) JS.zero)
            (List.map (categoryEntry (categorySums categories es)
                         (getCategoryLimits s) (getIncome s)) cats)
    = (λ cat, f (cat_id cat))
        <$> List.filter (λ cat, JS.Qlt_bool 0 (f (cat_id cat))) cats).
  { induction cats as [|cat cats IH]; intros Hsub; [done|].
    assert (Htot : ct_total (categoryEntry (categorySums categories es)
                               (getCategoryLimits s) (getIncome s) cat)
                   = JS.Num (f (cat_id cat))).
    { unfold categoryEntry. cbn [ct_total].
      rewrite (categorySums_lookup categories es cat); [|apply Hsub, list_elem_of_here].
      by destruct (Hf (cat_id cat)) as [-> _]. }
    assert (Hrest : ∀ c, c ∈ cats → c ∈ categories)
      by (intros c Hc; apply Hsub; by apply list_elem_of_further).
    cbn [List.map List.filter]. rewrite Htot.
    change (JS.gt (JS.Num (f (cat_id cat))) JS.zero) with (JS.Qlt_bool 0 (f (cat_id cat))).
    destruct (JS.Qlt_bool 0 (f (cat_id cat))).
    - rewrite !fmap_cons, (IH Hrest). unfold compose at 1. by rewrite Htot.
    - by apply IH. }
  unfold calculateCategoryTotals. fold es. rewrite (Hlist categories); [|done].
  rewrite positive_categories_sum.
  - rewrite (Qsum_fmap_ext _ (λ cat, spentIn (cat_id cat)
               (List.filter (λ e, knownCategory categories (exp_category e)) es))).
    + apply spentIn_total; [apply categories_distinct | apply filter_forallb].
    + intros cat Hcat. destruct (Hf (cat_id cat)) as [_ ->].
      by rewrite spentIn_known_only; [|apply knownCategory_elem].
  - intros cat _. destruct (Hf (cat_id cat)) as [_ ->]. by apply spentIn_nonneg.
Qed.

Lemma chart_totals_add_up_witness :
  finiteCurrentMonth rentState ∧ amountsNonNegative (getCurrentMonthData rentState) = true ∧
  (Qsum (toQ ∘ ct_total <$> calculateCategoryTotals rentState)
   == spentTotal (List.filter (λ e, knownCategory categories (exp_category e))
                    (getExpenses rentState)))%Q.
Proof.
  assert (H1 : finiteCurrentMonth rentState) by reflexivity.
  assert (H2 : amountsNonNegative (getCurrentMonthData rentState) = true) by reflexivity.
  split; [exact H1|]. split; [exact H2|].
  destruct (chart_totals_add_up rentState H1 H2) as [Hsum _]. exact Hsum.
Defined.

(** For an entry with a finite total and a finite limit above 0, the
    percentage of the limit is [100 * total / limit], and the two flags do
    not contradict the percentage: an entry whose percentage is above 100
    is over its limit, an entry over its limit has a percentage of at
    least 100, and an entry near its limit has a percentage of at most 100
    and is not over its limit. *)
Theorem limit_flags_agree_with_percentage (s : State) (entry : CategoryTotal)
    (total limit : Q) :
  entry ∈ calculateCategoryTotals s →
  ct_total entry = JS.Num total → ct_limit entry = JS.Num limit → (0 < limit)%Q →
  ∃ pct, ct_percentOfLimit entry = JS.Num pct ∧
    (pct == 100 * total / limit)%Q ∧
    ((100 < pct)%Q → ct_isOverLimit entry = true) ∧
    (ct_isOverLimit entry = true → (100 <= pct)%Q) ∧
    (ct_isNearLimit entry = true → (pct <= 100)%Q ∧ ct_isOverLimit entry = false).
Proof.
  intros Hin Htotal Hlimit Hpos. unfold calculateCategoryTotals in Hin.
  apply list_elem_of_In, filter_In in Hin as [Hin _].
  apply in_map_iff in Hin as (cat & <- & _).
  unfold categoryEntry in *.
  cbn [ct_total ct_limit ct_percentOfLimit ct_isOverLimit ct_isNearLimit] in *.
  rewrite Htotal, Hlimit.
  assert (Hgt : JS.gt (JS.Num limit) JS.zero = true) by by apply Qlt_bool_iff.
  assert (Hnz : Qeq_bool limit 0 = false) by (apply Qeq_bool_false; lra).
  rewrite Hgt. unfold JS.div, hundred. rewrite Hnz. cbn [JS.mul andb].
  unfold JS.ge, JS.gt. rewrite !le_Num. cbn [JS.lt].
  assert (Hpct : (total / limit * 100 == 100 * total / limit)%Q) by (field; lra).
  assert (Hscale : (total * 100 == (total / limit * 100) * limit)%Q) by (field; lra).
  eexists. split; [reflexivity|]. split; [exact Hpct|].
  set (pct := (total / limit * 100)%Q) in *. split; [|split].
  - intros H. apply Qlt_bool_iff. nra.
  - intros H%Qlt_bool_iff. nra.
  - intros [_ H%Qle_bool_iff]%andb_true_iff. split; [nra|].
    apply Qlt_bool_false. lra.
Qed.

Lemma limit_flags_agree_with_percentage_witness :
  ∃ entry, entry ∈ calculateCategoryTotals rentState ∧
    ct_total entry = JS.Num 1200 ∧ ct_limit entry = JS.Num 1000 ∧ (0 < 1000)%Q ∧
    ∃ pct, ct_percentOfLimit entry = JS.Num pct ∧ (100 < pct)%Q ∧
           ct_isOverLimit entry = true.
Proof.
  pose (entry := categoryEntry (categorySums categories (getExpenses rentState))
                   (getCategoryLimits rentState) (getIncome rentState)
                   (mkCategory "housing" "Housing" "#00e5ff")).
  assert (Hin : entry ∈ calculateCategoryTotals rentState).
  { apply list_elem_of_In. vm_compute. left. reflexivity. }
  assert (H1 : ct_total entry = JS.Num 1200) by reflexivity.
  assert (H2 : ct_limit entry = JS.Num 1000) by reflexivity.
  assert (H3 : (0 < 1000)%Q) by reflexivity.
  exists entry. split; [exact Hin|]. split; [exact H1|]. split; [exact H2|].
  split; [exact H3|].
  destruct (limit_flags_agree_with_percentage rentState entry 1200 1000 Hin H1 H2 H3)
    as (pct & Hpct & Heq & Hover & _).
  assert (Habove : (100 < pct)%Q) by (rewrite Heq; reflexivity).
  exists pct. split; [exact Hpct|]. split; [exact Habove | exact (Hover Habove)].
Defined.

(** ** The limit check *)

Lemma calculateCategoryTotals_ext (s s' : State) :
  monthlyBudgets s' = monthlyBudgets s → currentMonth s' = currentMonth s →
  calculateCategoryTotals s' = calculateCategoryTotals s.
Proof.
  intros Hl Hm.
  unfold calculateCategoryTotals, getExpenses, getIncome, getCategoryLimits,
    getCurrentMonthData.
  by rewrite Hl, Hm.
Qed.

Lemma checkFold_silent alertKey shown sound cats (acc : State * list Effect) :
  (∀ cat, cat ∈ cats → ct_isOverLimit cat = true →
          notificationKey alertKey (ct_cat cat) ∈ shown) →
  fold_left (checkOne alertKey shown sound) cats acc = acc.
Proof.
  revert acc. induction cats as [|cat cats IH]; intros acc Hall; simpl; [done|].
  assert (Hone : checkOne alertKey shown sound acc cat = acc).
  { unfold checkOne. destruct (ct_isOverLimit cat) eqn:Hover; [|done].
    rewrite bool_decide_eq_true_2; [done|].
    apply Hall; [apply list_elem_of_here | done]. }
  rewrite Hone. apply IH. intros c Hc. apply Hall. by apply list_elem_of_further.
Qed.

(** With notifications disabled the check does nothing.  With notifications
    enabled it notifies every category of the chart that is over its limit
    and whose key is not in the suppression set.  A check run on the state
    that a check leaves does nothing at all. *)
Theorem check_notifies_each_new_excess (s : State) :
  (notificationsEnabled s = false → checkCategoryLimits s = (s, [])) ∧
  (notificationsEnabled s = true →
   ∀ entry, entry ∈ calculateCategoryTotals s → ct_isOverLimit entry = true →
     notificationKey (currentMonth s) (ct_cat entry) ∉ alertsShown s →
     OverLimitNotification (currentMonth s) (ct_cat entry) (ct_total entry)
       (ct_limit entry) ∈ snd (checkCategoryLimits s)) ∧
  checkCategoryLimits (fst (checkCategoryLimits s)) = (fst (checkCategoryLimits s), []).
Proof.
  split; [|split].
  - intros Hoff. unfold checkCategoryLimits. by rewrite Hoff.
  - intros Hon entry Hin Hover Hnew. unfold checkCategoryLimits. rewrite Hon. cbn [negb].
    rewrite checkFold_effects. cbn [snd app].
    apply list_elem_of_In, in_flat_map. exists entry.
    split; [by apply list_elem_of_In|].
    unfold alertsOf. rewrite Hover, bool_decide_eq_false_2 by done. by left.
  - destruct (checkCategoryLimits_fields s) as (_ & _ & Hl & Hm & _).
    destruct (notificationsEnabled s) eqn:Hon.
    + assert (Hshown : ∀ cat, cat ∈ calculateCategoryTotals s →
                ct_isOverLimit cat = true →
                notificationKey (currentMonth s) (ct_cat cat)
                  ∈ alertsShown (fst (checkCategoryLimits s))).
      { intros cat Hcat Hover. unfold checkCategoryLimits. rewrite Hon. cbn [negb].
        apply checkFold_shown. cbn [fst].
        destruct (decide (notificationKey (currentMonth s) (ct_cat cat) ∈ alertsShown s))
          as [Hin | Hout]; [by left|].
        right. by exists cat. }
      revert Hl Hm Hshown. generalize (fst (checkCategoryLimits s)). intros s1 Hl Hm Hshown.
      unfold checkCategoryLimits. destruct (negb (notificationsEnabled s1)); [done|].
      apply checkFold_silent. rewrite (calculateCategoryTotals_ext s s1 Hl Hm), Hm.
      exact Hshown.
    + unfold checkCategoryLimits. rewrite Hon. cbn [negb fst]. by rewrite Hon.
Qed.

Lemma check_notifies_each_new_excess_witness :
  notificationsEnabled rentState = true ∧
  ∃ entry, entry ∈ calculateCategoryTotals rentState ∧ ct_isOverLimit entry = true ∧
    OverLimitNotification (currentMonth rentState) (ct_cat entry) (ct_total entry)
      (ct_limit entry) ∈ snd (checkCategoryLimits rentState).
Proof.
  pose (entry := categoryEntry (categorySums categories (getExpenses rentState))
                   (getCategoryLimits rentState) (getIncome rentState)
                   (mkCategory "housing" "Housing" "#00e5ff")).
  assert (Hon : notificationsEnabled rentState = true) by reflexivity.
  assert (Hin : entry ∈ calculateCategoryTotals rentState).
  { apply list_elem_of_In. vm_compute. left. reflexivity. }
  assert (Hover : ct_isOverLimit entry = true) by reflexivity.
  split; [exact Hon|]. exists entry. split; [exact Hin|]. split; [exact Hover|].
  destruct (check_notifies_each_new_excess rentState) as (_ & Hall & _).
  apply (Hall Hon entry Hin Hover). cbn. apply not_elem_of_empty.
Defined.

(** The check that the add handler defers notifies only for a category
    that is over its limit in the render it closes over and whose key is
    not in the suppression set of that render; the key is in the current
    set afterwards.  One run emits at most one notification for a month
    and a category, and none for a pair that the set of its render holds.
    Called in the render that is current, it is [checkCategoryLimits]. *)
Theorem deferred_check_is_sound (render s : State) :
  (∀ month cat spent limit,
     OverLimitNotification month cat spent limit ∈ snd (deferredCheck render s) →
     notificationsEnabled render = true ∧ month = currentMonth render ∧
     (∃ entry, entry ∈ calculateCategoryTotals render ∧ ct_cat entry = cat ∧
               ct_total entry = spent ∧ ct_limit entry = limit ∧
               ct_isOverLimit entry = true) ∧
     (notificationKey month cat ∉ alertsShown render) ∧
     notificationKey month cat ∈ alertsShown (fst (deferredCheck render s))) ∧
  (∀ month c,
     (alertCount month c (snd (deferredCheck render s)) ≤ 1)%nat ∧
     (alertKeyOf month c ∈ alertsShown render →
      alertCount month c (snd (deferredCheck render s)) = 0%nat)) ∧
  alertsShown s ⊆ alertsShown (fst (deferredCheck render s)) ∧
  monthlyBudgets (fst (deferredCheck render s)) = monthlyBudgets s ∧
  deferredCheck s s = checkCategoryLimits s.
Proof.
  split; [apply check_alert_sound|]. split; [|split; [|split]].
  - intros month c. destruct (check_alerts_once render s month c) as (H1 & H2 & _).
    by split.
  - by destruct (deferredCheck_fields render s) as (_ & _ & _ & _ & H).
  - by destruct (deferredCheck_fields render s) as (_ & _ & H & _).
  - reflexivity.
Qed.

Lemma deferred_check_is_sound_witness :
  OverLimitNotification "2025-03" (mkCategory "housing" "Housing" "#00e5ff")
    (JS.Num 1200) (JS.Num 1000) ∈ snd (deferredCheck powerForm secondRender) ∧
  notificationKey "2025-03" (mkCategory "housing" "Housing" "#00e5ff")
    ∈ alertsShown (fst (deferredCheck powerForm secondRender)).
Proof.
  assert (H : OverLimitNotification "2025-03" (mkCategory "housing" "Housing" "#00e5ff")
                (JS.Num 1200) (JS.Num 1000) ∈ snd (deferredCheck powerForm secondRender)).
  { apply list_elem_of_In. vm_compute. left. reflexivity. }
  split; [exact H|].
  destruct (deferred_check_is_sound powerForm secondRender) as [Hsound _].
  destruct (Hsound _ _ _ _ H) as (_ & _ & _ & _ & Hshown).
  exact Hshown.
Defined.

(** ** Recurring items: the edges *)

Lemma find_all_false {A : Type} (test : A → bool) (l : list A) :
  (∀ x, x ∈ l → test x = false) → List.find test l = None.
Proof.
  induction l as [|x l IH]; intros Hall; simpl; [done|].
  rewrite (Hall x) by apply list_elem_of_here.
  apply IH. intros y Hy. apply Hall. by apply list_elem_of_further.
Qed.

(** Recurring items never flow backwards: when no known month is earlier
    than the current one (an empty ledger, or only later months), the
    effect copies nothing, plays nothing and marks the month as seen. *)
Theorem populate_without_earlier_month (now : nat → Z) (s : State) :
  isLoaded s = true → currentMonth s ≠ "" → currentMonth s ∉ populatedMonths s →
  (∀ k, knownMonth (monthlyBudgets s) k → String.ltb k (currentMonth s) = false) →
  autoPopulate now s = (markPopulated (currentMonth s) s, []).
Proof.
  intros Hloaded Hmonth Hnew Hnone. unfold autoPopulate.
  rewrite Hloaded, (proj2 (truthyStr_true _) Hmonth), bool_decide_eq_false_2 by done.
  cbn [negb orb].
  assert (Hfind : previousMonthOf (monthlyBudgets s) (currentMonth s) = None).
  { unfold previousMonthOf. apply find_all_false. intros k Hk. apply Hnone.
    apply months_elem. by apply list_elem_of_In, in_rev, list_elem_of_In in Hk. }
  by rewrite Hfind.
Qed.

Lemma populate_without_earlier_month_witness :
  autoPopulate (λ _, 5000) (stateAt {[ "2025-02" := februaryMonth ]} "2025-01")
  = (markPopulated "2025-01" (stateAt {[ "2025-02" := februaryMonth ]} "2025-01"), []).
Proof.
  apply (populate_without_earlier_month (λ _, 5000)
           (stateAt {[ "2025-02" := februaryMonth ]} "2025-01")).
  - reflexivity.
  - discriminate.
  - apply not_elem_of_empty.
  - intros k [r Hk]. cbn in Hk. apply lookup_singleton_Some in Hk as [<- _]. reflexivity.
Defined.

Lemma copyRecurring_ids (now : nat → Z) (es : list Expense) :
  (∀ i j, (i ≤ j)%nat → (now i ≤ now j)%Z) →
  NoDup (exp_id <$> copyRecurring now es).
Proof.
  intros Hclock. apply NoDup_alt. intros i j id Hi Hj.
  unfold copyRecurring in Hi, Hj.
  rewrite list_lookup_fmap, list_lookup_imap in Hi, Hj.
  destruct (List.filter exp_isRecurring es !! i) as [ei|]; [|done].
  destruct (List.filter exp_isRecurring es !! j) as [ej|]; [|done].
  cbn in Hi, Hj. injection Hi as Hi. injection Hj as Hj.
  destruct (Nat.lt_trichotomy i j) as [Hlt | [Heq | Hgt]]; [|done|].
  - pose proof (Hclock i j ltac:(lia)). lia.
  - pose proof (Hclock j i ltac:(lia)). lia.
Qed.

(** The copies written for a new month have pairwise distinct ids as long
    as the clock does not go back while they are made: the id is the clock
    reading plus the position of the copy. *)
Theorem recurring_copies_get_distinct_ids (now : nat → Z) (prevData : MonthRecord) :
  (∀ i j, (i ≤ j)%nat → (now i ≤ now j)%Z) →
  NoDup (exp_id <$> expenses (fst (buildNewMonth now prevData))).
Proof.
  intros Hclock. rewrite (buildNewMonth_eq now prevData). cbn [fst expenses].
  by apply copyRecurring_ids.
Qed.

Lemma recurring_copies_get_distinct_ids_witness :
  exp_id <$> expenses (fst (buildNewMonth (λ _, 5000%Z) subscriptionsMonth))
  = [5000%Z; 5001%Z] ∧
  NoDup (exp_id <$> expenses (fst (buildNewMonth (λ _, 5000%Z) subscriptionsMonth))).
Proof.
  split; [reflexivity|].
  apply (recurring_copies_get_distinct_ids (λ _, 5000%Z) subscriptionsMonth).
  intros i j _. lia.
Defined.

Lemma copyRecurring_recurring (now : nat → Z) (es : list Expense) (c : Expense) :
  c ∈ copyRecurring now es → exp_isRecurring c = true.
Proof.
  intros [i Hi]%list_elem_of_lookup. rewrite copyRecurring_lookup in Hi.
  destruct (List.filter exp_isRecurring es !! i) as [e|] eqn:He; [|done].
  injection Hi as <-. apply list_elem_of_lookup_2, list_elem_of_In, filter_In in He.
  cbn [withId exp_isRecurring]. tauto.
Qed.

(** What the effect writes for a new month carries forward as a whole: a
    month built from a month that was itself built by the effect has the
    same income, the same income flag and the same limits, holds a copy of
    every expense of that month (all of them are recurring), and the
    effect finds recurring data in the second exactly when it did in the
    first. *)
Theorem recurring_items_carry_forward (now now' : nat → Z) (prevData : MonthRecord) :
  let m1 := fst (buildNewMonth now prevData) in
  let m2 := fst (buildNewMonth now' m1) in
  income m2 = income m1 ∧ incomeRecurring m2 = incomeRecurring m1 ∧
  categoryLimits m2 = categoryLimits m1 ∧
  Forall (λ e, exp_isRecurring e = true) (expenses m1) ∧
  expenses m2
  = imap (λ index exp, withId exp (now' index + Z.of_nat index)) (expenses m1) ∧
  snd (buildNewMonth now' m1) = snd (buildNewMonth now prevData).
Proof.
  cbv zeta. rewrite (buildNewMonth_eq now prevData). cbn [fst snd].
  rewrite (buildNewMonth_eq now' _).
  cbn [fst snd income incomeRecurring expenses categoryLimits].
  assert (Hflag : ∀ b : bool,
            (b && JS.gt (income prevData) JS.zero)
            && JS.gt (if b && JS.gt (income prevData) JS.zero
                      then income prevData else JS.zero) JS.zero
            = b && JS.gt (income prevData) JS.zero).
  { intros b. destruct b; [|done]. cbn [andb].
    destruct (JS.gt (income prevData) JS.zero) eqn:Hgt; [by rewrite Hgt | done]. }
  assert (Hall : List.filter exp_isRecurring (copyRecurring now (expenses prevData))
                 = copyRecurring now (expenses prevData)).
  { apply filter_all. intros c Hc. by apply (copyRecurring_recurring now (expenses prevData)). }
  rewrite Hflag.
  split; [by destruct (incomeRecurring prevData && _)|]. split; [done|]. split; [done|].
  split; [|split].
  - apply Forall_forall. intros c Hc.
    by apply (copyRecurring_recurring now (expenses prevData)).
  - unfold copyRecurring at 1. by rewrite Hall.
  - by rewrite !copyRecurring_length, Hall, copyRecurring_length.
Qed.

(** ** Persistence *)

(** Data of the former single-month format (an income text, an expense
    list, or both, and no ledger) is migrated by the load into one record
    under the month of the clock, with the income parsed and not recurring
    and no limits; the two former keys are removed and nothing else in the
    storage changes.  Once the migrated ledger is saved, a new session
    in the same month loads the same state when the migrated numbers are
    finite: the migration happens once. *)
Theorem legacy_data_migrates_once (monthKey : string) (ls : LocalStorage)
    (incomeText : option string) (stored : option (list Expense)) :
  ls !! "monthlyBudgets" = None →
  ls !! "budgetIncome" = StoredText <$> incomeText → incomeText ≠ Some "" →
  ls !! "budgetExpenses" = StoredExpenses <$> stored →
  is_Some incomeText ∨ is_Some stored →
  let s := fst (restart monthKey ls) in
  let ls' := snd (restart monthKey ls) in
  monthlyBudgets s
  = {[ monthKey := mkMonth (from_option JS.parseFloat JS.zero incomeText) false
                     (default [] stored) ∅ ]} ∧
  isLoaded s = true ∧
  ls' !! "budgetIncome" = None ∧ ls' !! "budgetExpenses" = None ∧
  (∀ k, k ≠ "budgetIncome" → k ≠ "budgetExpenses" → ls' !! k = ls !! k) ∧
  (storable (monthlyBudgets s) →
   restart monthKey (saveEffect s ls') = (s, saveEffect s ls')).
Proof.
  intros Hnone Hincome Hne Hstored Hsome. cbv zeta.
  assert (Htext : storedText (ls !! "budgetIncome") = incomeText).
  { rewrite Hincome. destruct incomeText as [[|c t]|]; done. }
  assert (Hload : restart monthKey ls
            = (setIsLoaded
                 (setMonthlyBudgets
                    (λ _, {[ monthKey :=
                               mkMonth (from_option JS.parseFloat JS.zero incomeText) false
                                 (default [] stored) ∅ ]})
                    (initialState monthKey)),
               delete "budgetExpenses" (delete "budgetIncome" ls))).
  { unfold restart, loadEffect. rewrite Hnone, Htext, Hstored.
    destruct incomeText as [t|], stored as [es|]; try done.
    destruct Hsome as [[? [=]] | [? [=]]]. }
  rewrite Hload. cbn [fst snd].
  split; [done|]. split; [done|]. split; [|split; [|split]].
  - rewrite lookup_delete_ne by done. apply lookup_delete_eq.
  - apply lookup_delete_eq.
  - intros k H1 H2. by rewrite !lookup_delete_ne.
  - intros _. unfold restart, loadEffect, saveEffect. cbn [isLoaded setIsLoaded].
    by rewrite lookup_insert_eq.
Qed.

Lemma legacy_data_migrates_once_witness :
  monthlyBudgets
    (fst (restart "2025-04"
            {[ "budgetIncome" := StoredText "2500";
               "budgetExpenses" :=
                 StoredExpenses [mkExpense 7 "Rent" (JS.Num 900) "housing" false] ]}))
  = {[ "2025-04" := mkMonth (JS.parseFloat "2500") false
                      [mkExpense 7 "Rent" (JS.Num 900) "housing" false] ∅ ]}.
Proof.
  destruct (legacy_data_migrates_once "2025-04"
              {[ "budgetIncome" := StoredText "2500";
                 "budgetExpenses" :=
                   StoredExpenses [mkExpense 7 "Rent" (JS.Num 900) "housing" false] ]}
              (Some "2500"%string)
              (Some [mkExpense 7 "Rent" (JS.Num 900) "housing" false])) as [H _].
  - reflexivity.
  - reflexivity.
  - discriminate.
  - reflexivity.
  - left. exists "2500"%string. reflexivity.
  - exact H.
Defined.

(** ** All-time statistics *)

Lemma div_by_count (x : Q) (n : nat) :
  (0 < n)%nat →
  ∃ q, JS.div (JS.Num x) (ofNat n) = JS.Num q ∧ (q * inject_Z (Z.of_nat n) == x)%Q.
Proof.
  intros Hn. unfold ofNat, JS.div.
  assert (Hpos : (0 < inject_Z (Z.of_nat n))%Q).
  { change 0%Q with (inject_Z 0). rewrite <- Zlt_Qlt. lia. }
  assert (Hnz : Qeq_bool (inject_Z (Z.of_nat n)) 0 = false)
    by (apply Qeq_bool_false; lra).
  rewrite Hnz. eexists. split; [reflexivity|]. field. lra.
Qed.

(** On a ledger of finite numbers the statistics count the months of the
    ledger and hold the sum of their incomes, the sum of all amounts and
    the difference of the two; each monthly average times the number of
    months gives its total back, and an empty ledger has averages 0. *)
Theorem all_time_stats_totals (l : Ledger) :
  allMonths finiteMonth l →
  let stats := calculateAllTimeStats l in
  monthCount stats = size l ∧
  (l = ∅ → avgMonthlyIncome stats = JS.zero ∧ avgMonthlyExpenses stats = JS.zero) ∧
  ∃ inc spent avgInc avgSpent,
    totalIncome stats = JS.Num inc ∧ (inc == ledgerIncome l)%Q ∧
    totalExpenses stats = JS.Num spent ∧ (spent == ledgerSpending l)%Q ∧
    totalSaved stats = JS.Num (inc - spent) ∧
    avgMonthlyIncome stats = JS.Num avgInc ∧
    (avgInc * inject_Z (Z.of_nat (size l)) == inc)%Q ∧
    avgMonthlyExpenses stats = JS.Num avgSpent ∧
    (avgSpent * inject_Z (Z.of_nat (size l)) == spent)%Q.
Proof.
  intros Hfin. cbv zeta.
  destruct (stats_finite l Hfin) as (inc & spent & Hinc & Hspent & Hsaved & Hi & Hs).
  assert (Hcount : length (map_to_list l).*2 = size l)
    by by rewrite length_fmap, length_map_to_list.
  split; [exact Hcount|]. split.
  - intros ->. done.
  - exists inc, spent.
    unfold calculateAllTimeStats in *.
    cbn [totalIncome totalExpenses totalSaved avgMonthlyIncome avgMonthlyExpenses] in *.
    rewrite Hinc, Hspent, Hcount.
    destruct (0 <? size l)%nat eqn:Hsize.
    + apply Nat.ltb_lt in Hsize.
      destruct (div_by_count inc (size l) Hsize) as (a & Ha & Hai).
      destruct (div_by_count spent (size l) Hsize) as (b & Hb & Hbi).
      exists a, b. rewrite Ha, Hb. done.
    + apply Nat.ltb_ge in Hsize. assert (Hempty : size l = 0%nat) by lia.
      apply map_size_empty_iff in Hempty. subst l.
      exists 0%Q, 0%Q. rewrite map_size_empty.
      cbn in Hinc, Hspent. injection Hinc as <-. injection Hspent as <-.
      done.
Qed.

Lemma all_time_stats_totals_witness :
  allMonths finiteMonth twoMonths ∧
  monthCount (calculateAllTimeStats twoMonths) = size twoMonths.
Proof.
  assert (Hfin : allMonths finiteMonth twoMonths).
  { unfold allMonths, twoMonths.
    apply map_Forall_insert_2; [reflexivity|].
    apply map_Forall_insert_2; [reflexivity|]. apply map_Forall_empty. }
  split; [exact Hfin|].
  destruct (all_time_stats_totals twoMonths Hfin) as [H _]. exact H.
Defined.

(** ** Best and worst months *)

Lemma gt_or_zero (a : number) : JS.gt (JS.or a JS.zero) JS.zero = JS.gt a JS.zero.
Proof.
  unfold JS.or. destruct a as [q| | |]; try done. cbn [JS.truthy].
  destruct (Qeq_bool q 0) eqn:Hq; cbn [negb]; [|done].
  unfold JS.gt, JS.zero. cbn [JS.lt]. q_bool.
  symmetry. apply Qlt_bool_false. lra.
Qed.

Lemma monthSavings_finite (k : string) (r : MonthRecord) :
  finiteMonth r = true →
  ∃ q, ms_saved (monthSavings (k, r)) = JS.Num q ∧
       (q == toQ (income r) - spentTotal (expenses r))%Q.
Proof.
  intros Hfin. destruct (expensesOf_finite r Hfin) as (e & He & Hsum).
  apply andb_true_iff in Hfin as [Hinc _].
  destruct (income r) as [x| | |] eqn:Hx; try done.
  destruct (or_zero_finite x) as (y & Hy & Hyx).
  unfold monthSavings. cbn [snd fst ms_saved]. rewrite Hx, Hy, He.
  eexists. split; [reflexivity|]. cbn [toQ]. lra.
Qed.

Lemma earning_months (l : Ledger) (m : MonthSavings) :
  m ∈ List.filter (λ m, JS.gt (ms_income m) JS.zero)
        (List.map monthSavings (map_to_list l)) ↔
  ∃ k r, l !! k = Some r ∧ JS.gt (income r) JS.zero = true ∧ m = monthSavings (k, r).
Proof.
  rewrite list_elem_of_In, filter_In, in_map_iff. split.
  - intros [([k r] & <- & Hin) Hgt].
    apply list_elem_of_In, elem_of_map_to_list in Hin.
    exists k, r. split; [done|]. split; [|done].
    unfold monthSavings in Hgt. cbn [ms_income snd] in Hgt. by rewrite gt_or_zero in Hgt.
  - intros (k & r & Hk & Hgt & ->). split.
    + exists (k, r). split; [done|]. by apply list_elem_of_In, elem_of_map_to_list.
    + unfold monthSavings. cbn [ms_income snd]. by rewrite gt_or_zero.
Qed.

(** Among the months of a ledger of finite numbers, the best and the worst
    month are both null when no month has an income above 0.  Otherwise
    both are months with an income above 0, with what was saved there
    (income minus the sum of the amounts), and no month with an income
    above 0 saved more than the best or less than the worst. *)
Theorem best_and_worst_months (l : Ledger) :
  allMonths finiteMonth l →
  ((∀ k r, l !! k = Some r → JS.gt (income r) JS.zero = false) →
   getBestWorstMonths l = mkBestWorst None None) ∧
  ((∃ k r, l !! k = Some r ∧ JS.gt (income r) JS.zero = true) →
   ∃ b w rb rw sb sw,
     best (getBestWorstMonths l) = Some b ∧ worst (getBestWorstMonths l) = Some w ∧
     l !! ms_month b = Some rb ∧ JS.gt (income rb) JS.zero = true ∧
     l !! ms_month w = Some rw ∧ JS.gt (income rw) JS.zero = true ∧
     ms_saved b = JS.Num sb ∧ (sb == toQ (income rb) - spentTotal (expenses rb))%Q ∧
     ms_saved w = JS.Num sw ∧ (sw == toQ (income rw) - spentTotal (expenses rw))%Q ∧
     ∀ k r, l !! k = Some r → JS.gt (income r) JS.zero = true →
       (toQ (income r) - spentTotal (expenses r) <= sb)%Q ∧
       (sw <= toQ (income r) - spentTotal (expenses r))%Q).
Proof.
  intros Hfin. unfold getBestWorstMonths.
  set (earning := List.filter _ _).
  assert (Hearning : ∀ m, m ∈ earning ↔
            ∃ k r, l !! k = Some r ∧ JS.gt (income r) JS.zero = true ∧
                   m = monthSavings (k, r)) by apply earning_months.
  split.
  - intros Hnone. destruct earning as [|m rest]; [done|].
    assert (Hm : m ∈ m :: rest) by apply list_elem_of_here.
    apply Hearning in Hm as (k & r & Hk & Hgt & _).
    rewrite (Hnone k r Hk) in Hgt. done.
  - intros (k0 & r0 & Hk0 & Hgt0).
    set (P := λ m : MonthSavings, ∃ q, ms_saved m = JS.Num q).
    set (le := λ a b : MonthSavings, descending (ms_saved a) (ms_saved b)).
    assert (HP : Forall P earning).
    { apply Forall_forall. intros m (k & r & Hk & _ & ->)%Hearning.
      destruct (monthSavings_finite k r (Hfin k r Hk)) as (q & Hq & _). by exists q. }
    assert (Hsorted : StronglySorted (λ a b, le a b = true) (sortBy le earning)).
    { apply (sortBy_sorted le P); [| |exact HP].
      - intros a b [x Hx] [y Hy]. unfold le. rewrite Hx, Hy, !descending_Num.
        intros Hxy. apply Qle_bool_iff. q_bool. lra.
      - intros a b c [x Hx] [y Hy] [z Hz]. unfold le. rewrite Hx, Hy, Hz, !descending_Num.
        intros Hyx Hzy. apply Qle_bool_iff. q_bool. lra. }
    assert (Hperm : sortBy le earning ≡ₚ earning) by apply sortBy_perm.
    assert (Hin0 : monthSavings (k0, r0) ∈ earning).
    { apply Hearning. by exists k0, r0. }
    destruct (length earning =? 0)%nat eqn:Hlen.
    { apply Nat.eqb_eq, nil_length_inv in Hlen. rewrite Hlen in Hin0.
      by apply not_elem_of_nil in Hin0. }
    cbn [best worst]. fold le.
    assert (Hlength : length (sortBy le earning) = length earning)
      by by rewrite Hperm.
    apply Nat.eqb_neq in Hlen.
    destruct (lookup_lt_is_Some_2 (sortBy le earning) 0) as [b Hb]; [lia|].
    destruct (lookup_lt_is_Some_2 (sortBy le earning) (length (sortBy le earning) - 1))
      as [w Hw]; [lia|].
    assert (Hbin : b ∈ earning) by (rewrite <- Hperm; by apply list_elem_of_lookup_2 in Hb).
    assert (Hwin : w ∈ earning) by (rewrite <- Hperm; by apply list_elem_of_lookup_2 in Hw).
    apply Hearning in Hbin as (kb & rb & Hkb & Hgb & Heb).
    apply Hearning in Hwin as (kw & rw & Hkw & Hgw & Hew).
    destruct (monthSavings_finite kb rb (Hfin kb rb Hkb)) as (sb & Hsb & Hsumb).
    destruct (monthSavings_finite kw rw (Hfin kw rw Hkw)) as (sw & Hsw & Hsumw).
    exists b, w, rb, rw, sb, sw. rewrite Hb, Hw.
    split; [done|]. split; [done|].
    split; [by rewrite Heb|]. split; [done|].
    split; [by rewrite Hew|]. split; [done|].
    split; [by rewrite Heb|]. split; [done|].
    split; [by rewrite Hew|]. split; [done|].
    intros k r Hk Hgt.
    destruct (monthSavings_finite k r (Hfin k r Hk)) as (q & Hq & Hsum).
    assert (Hm : monthSavings (k, r) ∈ sortBy le earning).
    { rewrite Hperm. apply Hearning. by exists k, r. }
    apply list_elem_of_lookup in Hm as [i Hi].
    pose proof (lookup_lt_Some _ _ _ Hi) as Hlt.
    rewrite <- Hsum. split.
    + destruct i as [|i].
      * rewrite Hb in Hi. injection Hi as Hi.
        assert (Heq : JS.Num q = JS.Num sb) by (by rewrite <- Hq, <- Hsb, <- Hi, Heb).
        injection Heq as ->. lra.
      * pose proof (sorted_lookup _ _ 0 (S i) _ _ Hsorted Hb Hi ltac:(lia)) as Hle.
        unfold le in Hle. rewrite Heb, Hsb, Hq, descending_Num in Hle. q_bool. done.
    + destruct (decide (i = length (sortBy le earning) - 1)%nat) as [-> | Hne].
      * rewrite Hw in Hi. injection Hi as Hi.
        assert (Heq : JS.Num q = JS.Num sw) by (by rewrite <- Hq, <- Hsw, <- Hi, Hew).
        injection Heq as ->. lra.
      * pose proof (sorted_lookup _ _ i (length (sortBy le earning) - 1) _ _
                      Hsorted Hi Hw ltac:(lia)) as Hle.
        unfold le in Hle. rewrite Hew, Hsw, Hq, descending_Num in Hle. q_bool. done.
Qed.

Lemma best_and_worst_months_witness :
  allMonths finiteMonth twoMonths ∧
  ∃ b w, best (getBestWorstMonths twoMonths) = Some b ∧
         worst (getBestWorstMonths twoMonths) = Some w.
Proof.
  assert (Hfin : allMonths finiteMonth twoMonths).
  { unfold allMonths, twoMonths.
    apply map_Forall_insert_2; [reflexivity|].
    apply map_Forall_insert_2; [reflexivity|]. apply map_Forall_empty. }
  split; [exact Hfin|].
  destruct (best_and_worst_months twoMonths Hfin) as [_ H].
  destruct H as (b & w & _ & _ & _ & _ & Hb & Hw & _).
  - exists "2025-01"%string, januaryMonth. split; reflexivity.
  - exists b, w. split; [exact Hb | exact Hw].
Defined.

(** ** Largest expenses *)

Lemma tagged_elem (l : Ledger) (cats : list Category) (t : TopExpense) :
  t ∈ flat_map (taggedExpenses cats) (map_to_list l) ↔
  ∃ k r e, l !! k = Some r ∧ e ∈ expenses r ∧
           t = mkTopExpense e k (categoryNameOf cats (exp_category e)).
Proof.
  rewrite list_elem_of_In, in_flat_map. split.
  - intros ([k r] & Hin & Ht). apply list_elem_of_In, elem_of_map_to_list in Hin.
    unfold taggedExpenses in Ht. apply in_map_iff in Ht as (e & <- & He).
    exists k, r, e. split; [done|]. split; [by apply list_elem_of_In | done].
  - intros (k & r & e & Hk & He & ->). exists (k, r).
    split; [by apply list_elem_of_In, elem_of_map_to_list|].
    unfold taggedExpenses. apply in_map_iff. exists e.
    split; [done|]. by apply list_elem_of_In.
Qed.

Lemma tagged_length (cats : list Category) (entries : list (string * MonthRecord)) :
  length (flat_map (taggedExpenses cats) entries)
  = length (concat (expenses <$> entries.*2)).
Proof.
  induction entries as [|[k r] entries IH]; [done|].
  cbn [flat_map]. rewrite !fmap_cons. cbn [concat snd]. rewrite !length_app, IH.
  unfold taggedExpenses. cbn [snd]. by rewrite List.length_map.
Qed.

(** On a ledger of finite amounts the list of largest expenses holds five
    expenses, or all of them when there are fewer; each is an expense of
    the month it is tagged with, with the category name looked up in the
    registry; they are in descending order of amount, and no expense left
    out has a larger amount than one that is listed. *)
Theorem top_expenses_are_largest (l : Ledger) (cats : list Category) :
  allMonths finiteMonth l →
  let top := getTopExpenses l cats in
  length top = min 5 (length (allExpenses l)) ∧
  (∀ t, t ∈ top →
     ∃ r, l !! te_month t = Some r ∧ te_expense t ∈ expenses r ∧
          te_categoryName t = categoryNameOf cats (exp_category (te_expense t))) ∧
  StronglySorted
    (λ a b, JS.ge (exp_amount (te_expense a)) (exp_amount (te_expense b)) = true) top ∧
  ∃ rest, top ++ rest ≡ₚ flat_map (taggedExpenses cats) (map_to_list l) ∧
    ∀ t u, t ∈ top → u ∈ rest →
      JS.ge (exp_amount (te_expense t)) (exp_amount (te_expense u)) = true.
Proof.
  intros Hfin. cbv zeta. unfold getTopExpenses, parseFloatNum.
  set (all := flat_map _ _).
  set (le := λ a b : TopExpense,
         descending (exp_amount (te_expense a)) (exp_amount (te_expense b))).
  set (P := λ t : TopExpense, ∃ q, exp_amount (te_expense t) = JS.Num q).
  assert (Hall : ∀ t, t ∈ all ↔
            ∃ k r e, l !! k = Some r ∧ e ∈ expenses r ∧
                     t = mkTopExpense e k (categoryNameOf cats (exp_category e)))
    by apply tagged_elem.
  assert (Hperm : sortBy le all ≡ₚ all) by apply sortBy_perm.
  assert (HP : Forall P all).
  { apply Forall_forall. intros t (k & r & e & Hk & He & ->)%Hall.
    pose proof (Hfin k r Hk) as [_ Hes]%andb_true_iff.
    rewrite forallb_forall in Hes. apply list_elem_of_In, Hes in He.
    unfold P. cbn [te_expense]. destruct (exp_amount e) as [q| | |]; try done.
    by exists q. }
  assert (Hsorted : StronglySorted
            (λ a b, JS.ge (exp_amount (te_expense a)) (exp_amount (te_expense b)) = true)
            (sortBy le all)).
  { apply (sorted_weaken (λ a b, le a b = true) _ P).
    - intros a b [x Hx] [y Hy]. unfold le. rewrite Hx, Hy, descending_Num.
      unfold JS.ge. by rewrite le_Num.
    - by rewrite Hperm.
    - apply (sortBy_sorted le P); [| |exact HP].
      + intros a b [x Hx] [y Hy]. unfold le. rewrite Hx, Hy, !descending_Num.
        intros Hxy. apply Qle_bool_iff. q_bool. lra.
      + intros a b c [x Hx] [y Hy] [z Hz]. unfold le.
        rewrite Hx, Hy, Hz, !descending_Num.
        intros Hyx Hzy. apply Qle_bool_iff. q_bool. lra. }
  rewrite <- (take_drop 5 (sortBy le all)) in Hsorted.
  apply StronglySorted_app in Hsorted as (Hcross & Htop & _).
  split; [|split; [|split]].
  - rewrite length_take, Hperm. unfold all. by rewrite tagged_length.
  - intros t Ht. apply elem_of_take in Ht as (i & Hi & _).
    apply list_elem_of_lookup_2 in Hi. rewrite Hperm in Hi.
    apply Hall in Hi as (k & r & e & Hk & He & ->). by exists r.
  - exact Htop.
  - exists (drop 5 (sortBy le all)). split; [by rewrite take_drop|]. exact Hcross.
Qed.

Lemma top_expenses_are_largest_witness :
  allMonths finiteMonth twoMonths ∧
  length (getTopExpenses twoMonths categories) = 3%nat.
Proof.
  assert (Hfin : allMonths finiteMonth twoMonths).
  { unfold allMonths, twoMonths.
    apply map_Forall_insert_2; [reflexivity|].
    apply map_Forall_insert_2; [reflexivity|]. apply map_Forall_empty. }
  split; [exact Hfin|].
  destruct (top_expenses_are_largest twoMonths categories Hfin) as [H _].
  rewrite H. vm_compute. reflexivity.
Defined.

(** ** Recommendations *)

Lemma trendAdvice_of_change (t : Trend) :
  tr_isUp t = JS.gt (tr_change t) JS.zero →
  trendAdvice (Some t)
  = if JS.gt (tr_change t) (JS.Num 15)
    then [mkRecommendation "📈" "Spending Spike Detected"
            (SpendingIncreased (tr_change t)) Warning]
    else if JS.lt (tr_change t) (JS.Num (-10))
    then [mkRecommendation "🎯" "Great Progress!"
            (SpendingReduced (Math_abs (tr_change t))) Success]
    else [].
Proof.
  intros Hup. unfold trendAdvice. rewrite Hup.
  destruct (tr_change t) as [c| | |]; try reflexivity.
  unfold JS.gt, JS.zero. cbn [JS.lt].
  destruct (JS.Qlt_bool 0 c) eqn:H0, (JS.Qlt_bool 15 c) eqn:H15,
    (JS.Qlt_bool c (-10)) eqn:H10; try reflexivity; q_bool; exfalso; lra.
Qed.

(** For the trend that [getSpendingTrend] returns, the advice depends on
    the change alone: a spike above 15, progress below -10, nothing in
    between; the direction flag it also tests is implied. *)
Theorem trend_advice_by_change (l : Ledger) (cur : string) (t : Trend) :
  getSpendingTrend l cur = Some t →
  tr_isUp t = JS.gt (tr_change t) JS.zero ∧
  trendAdvice (getSpendingTrend l cur)
  = if JS.gt (tr_change t) (JS.Num 15)
    then [mkRecommendation "📈" "Spending Spike Detected"
            (SpendingIncreased (tr_change t)) Warning]
    else if JS.lt (tr_change t) (JS.Num (-10))
    then [mkRecommendation "🎯" "Great Progress!"
            (SpendingReduced (Math_abs (tr_change t))) Success]
    else [].
Proof.
  intros Ht.
  assert (Hup : tr_isUp t = JS.gt (tr_change t) JS.zero).
  { destruct (spending_trend_path l cur)
      as [[_ H] | [[_ H] | [[_ H] | (_ & p & current & previous & _ & _ & _ & H)]]];
      rewrite H in Ht; try done.
    destruct (JS.strictEq _ _); [done|]. by injection Ht as <-. }
  split; [exact Hup|]. rewrite Ht. by apply trendAdvice_of_change.
Qed.

Lemma trend_advice_by_change_witness :
  ∃ t, getSpendingTrend twoMonths "2025-02" = Some t ∧
       rec_title <$> trendAdvice (getSpendingTrend twoMonths "2025-02")
       = ["Spending Spike Detected"%string].
Proof.
  pose (t := trendOf februaryMonth januaryMonth).
  assert (Ht : getSpendingTrend twoMonths "2025-02" = Some t) by (vm_compute; reflexivity).
  exists t. split; [exact Ht|].
  destruct (trend_advice_by_change twoMonths "2025-02" t Ht) as [_ H].
  rewrite H. vm_compute. reflexivity.
Defined.

Lemma recurring_fold (es : list Expense) (a : Q) (n : nat) :
  forallb (λ e, JS.isFinite (exp_amount e)) es = true →
  ∃ q, fold_left
         (λ (acc' : number * nat) exp,
            if exp_isRecurring exp
            then (JS.add (fst acc') (parseFloatNum (exp_amount exp)), S (snd acc'))
            else acc')
         es (JS.Num a, n)
       = (JS.Num q, (n + length (List.filter exp_isRecurring es))%nat) ∧
       (q == a + spentTotal (List.filter exp_isRecurring es))%Q.
Proof.
  revert a n. induction es as [|e es IH]; intros a n Hfin; cbn [fold_left List.filter].
  - exists a. rewrite Nat.add_0_r. split; [done|]. unfold spentTotal, Qsum. simpl. lra.
  - apply andb_true_iff in Hfin as [He Hes].
    destruct (exp_isRecurring e).
    + destruct (exp_amount e) as [x| | |] eqn:Hx; try done.
      cbn [fst snd]. change (parseFloatNum (JS.Num x)) with (JS.Num x). cbn [JS.add].
      destruct (IH (a + x)%Q (S n) Hes) as (q & Hq & Hsum).
      exists q. rewrite Hq. cbn [length]. split; [f_equal; lia|].
      rewrite Hsum, spentTotal_cons, Hx. cbn [toQ]. lra.
    + by apply IH.
Qed.

Lemma recurringTotals_fold (months : list MonthRecord) (a : Q) (n : nat) :
  Forall (λ r, finiteMonth r = true) months →
  ∃ q, fold_left
         (λ acc data,
            fold_left
              (λ (acc' : number * nat) exp,
                 if exp_isRecurring exp
                 then (JS.add (fst acc') (parseFloatNum (exp_amount exp)), S (snd acc'))
                 else acc')
              (expenses data) acc)
         months (JS.Num a, n)
       = (JS.Num q,
          (n + length (List.filter exp_isRecurring (concat (expenses <$> months))))%nat) ∧
       (q == a + spentTotal (List.filter exp_isRecurring (concat (expenses <$> months))))%Q.
Proof.
  intros Hfin. revert a n. induction Hfin as [|r months Hr _ IH]; intros a n;
    cbn [fold_left].
  - exists a. cbn. rewrite Nat.add_0_r. split; [done|]. unfold spentTotal, Qsum. simpl. lra.
  - apply andb_true_iff in Hr as [_ Hes].
    destruct (recurring_fold (expenses r) a n Hes) as (b & -> & Hb).
    destruct (IH b (n + length (List.filter exp_isRecurring (expenses r)))%nat)
      as (q & -> & Hsum).
    exists q. rewrite fmap_cons. cbn [concat].
    rewrite List.filter_app, length_app, spentTotal_app.
    split; [f_equal; lia | lra].
Qed.

(** On a ledger of finite amounts the recurring-expenses advice is given
    exactly when some expense of some month is recurring; it then holds the
    number of recurring expenses over all months and an average that, times
    the number of months, is the sum of their amounts. *)
Theorem recurring_advice_average (l : Ledger) :
  allMonths finiteMonth l →
  let recurring := List.filter exp_isRecurring (allExpenses l) in
  (recurring = [] → recurringAdvice l = []) ∧
  (recurring ≠ [] →
   ∃ avg, recurringAdvice l
          = [mkRecommendation "🔄" "Recurring Expenses"
               (RecurringAverage (length recurring) (JS.Num avg)) Info] ∧
          (avg * inject_Z (Z.of_nat (size l)) == spentTotal recurring)%Q).
Proof.
  intros Hfin. cbv zeta.
  destruct (recurringTotals_fold _ 0 0 (allMonths_Forall _ _ Hfin)) as (q & Hq & Hsum).
  change (recurringTotals (map_to_list l).*2
          = (JS.Num q, (0 + length (List.filter exp_isRecurring (allExpenses l)))%nat))
    in Hq.
  change (q == 0 + spentTotal (List.filter exp_isRecurring (allExpenses l)))%Q in Hsum.
  unfold recurringAdvice. rewrite Hq. cbn [Nat.add].
  split.
  - intros ->. reflexivity.
  - intros Hsome.
    assert (Hlen : (0 < length (List.filter exp_isRecurring (allExpenses l)))%nat).
    { destruct (List.filter exp_isRecurring (allExpenses l)); [done | cbn; lia]. }
    rewrite (proj2 (Nat.ltb_lt _ _) Hlen).
    assert (Hkeys : length (keys l) = size l).
    { unfold keys. by rewrite length_fmap, length_map_to_list. }
    assert (Hsize : (0 < size l)%nat).
    { destruct (decide (size l = 0%nat)) as [Hz|]; [|lia].
      apply map_size_empty_iff in Hz. subst l. exfalso. apply Hsome.
      unfold allExpenses. by rewrite map_to_list_empty. }
    rewrite Hkeys.
    destruct (div_by_count q (size l) Hsize) as (avg & -> & Havg).
    exists avg. split; [done|]. rewrite Havg, Hsum. lra.
Qed.

Lemma recurring_advice_average_witness :
  allMonths finiteMonth twoMonths ∧
  ∃ avg, recurringAdvice twoMonths
         = [mkRecommendation "🔄" "Recurring Expenses" (RecurringAverage 1 (JS.Num avg)) Info] ∧
         (avg * 2 == 50)%Q.
Proof.
  assert (Hfin : allMonths finiteMonth twoMonths).
  { unfold allMonths, twoMonths.
    apply map_Forall_insert_2; [reflexivity|].
    apply map_Forall_insert_2; [reflexivity|]. apply map_Forall_empty. }
  split; [exact Hfin|].
  destruct (recurring_advice_average twoMonths Hfin) as [_ H].
  destruct H as (avg & Havg & Hsum).
  - vm_compute. discriminate.
  - exists avg. split; [exact Havg|]. exact Hsum.
Defined.

Lemma hasTitle_app (title : string) (a b : list Recommendation) :
  hasTitle title (a ++ b) = hasTitle title a || hasTitle title b.
Proof. apply existsb_app. Qed.

Lemma savingsAdvice_titles (r : Q) :
  hasTitle "Boost Your Savings" (savingsAdvice (JS.Num r)) = JS.Qlt_bool r 10 ∧
  hasTitle "Great Savings Rate!" (savingsAdvice (JS.Num r)) = Qle_bool 20 r ∧
  hasTitle "Budget Master!" (savingsAdvice (JS.Num r)) = false ∧
  hasTitle "Room for Improvement" (savingsAdvice (JS.Num r)) = false.
Proof.
  unfold savingsAdvice, JS.ge. rewrite le_Num. cbn [JS.lt].
  destruct (JS.Qlt_bool r 10) eqn:H10, (Qle_bool 20 r) eqn:H20;
    repeat split; try reflexivity; q_bool; exfalso; lra.
Qed.

Lemma scoreAdvice_titles (q : Q) :
  hasTitle "Budget Master!" (scoreAdvice (JS.Num q)) = Qle_bool 90 q ∧
  hasTitle "Room for Improvement" (scoreAdvice (JS.Num q)) = JS.Qlt_bool q 50 ∧
  hasTitle "Boost Your Savings" (scoreAdvice (JS.Num q)) = false ∧
  hasTitle "Great Savings Rate!" (scoreAdvice (JS.Num q)) = false.
Proof.
  unfold scoreAdvice, JS.ge. rewrite le_Num. cbn [JS.lt].
  destruct (Qle_bool 90 q) eqn:H90, (JS.Qlt_bool q 50) eqn:H50;
    repeat split; try reflexivity; q_bool; exfalso; lra.
Qed.

Lemma middle_advice_titles (title : string) (bs : list Breakdown) (l : Ledger)
    (trend : option Trend) :
  String.eqb "High Category Spending" title = false →
  String.eqb "Recurring Expenses" title = false →
  String.eqb "Spending Spike Detected" title = false →
  String.eqb "Great Progress!" title = false →
  hasTitle title (categoryAdvice bs) = false ∧
  hasTitle title (recurringAdvice l) = false ∧
  hasTitle title (trendAdvice trend) = false.
Proof.
  intros H1 H2 H3 H4. split; [|split].
  - unfold categoryAdvice. destruct bs as [|b bs]; [done|].
    destruct (JS.gt _ _); [|done]. cbn [hasTitle existsb rec_title]. by rewrite H1.
  - unfold recurringAdvice. destruct (recurringTotals _) as [total count].
    destruct (0 <? count)%nat; [|done]. cbn [hasTitle existsb rec_title]. by rewrite H2.
  - unfold trendAdvice. destruct trend as [t|]; [|done].
    destruct (tr_isUp t && _); [cbn [hasTitle existsb rec_title]; by rewrite H3|].
    destruct (negb (tr_isUp t) && _); [|done].
    cbn [hasTitle existsb rec_title]. by rewrite H4.
Qed.

Lemma advice_lengths (rate score : number) (bs : list Breakdown) (l : Ledger)
    (trend : option Trend) :
  (length (savingsAdvice rate) ≤ 1)%nat ∧ (length (categoryAdvice bs) ≤ 1)%nat ∧
  (length (recurringAdvice l) ≤ 1)%nat ∧ (length (trendAdvice trend) ≤ 1)%nat ∧
  (length (scoreAdvice score) ≤ 1)%nat.
Proof.
  split; [|split; [|split; [|split]]].
  - unfold savingsAdvice. destruct (JS.lt _ _); [simpl; lia|].
    destruct (JS.ge _ _); simpl; lia.
  - unfold categoryAdvice. destruct bs as [|b bs]; [simpl; lia|].
    destruct (JS.gt _ _); simpl; lia.
  - unfold recurringAdvice. destruct (recurringTotals _) as [total count].
    destruct (0 <? count)%nat; simpl; lia.
  - unfold trendAdvice. destruct trend as [t|]; [|simpl; lia].
    destruct (tr_isUp t && _); [simpl; lia|].
    destruct (negb (tr_isUp t) && _); simpl; lia.
  - unfold scoreAdvice. destruct (JS.ge _ _); [simpl; lia|].
    destruct (JS.lt _ _); simpl; lia.
Qed.

Lemma score_at_least_90 (r : Q) : (90 <= scoreOfRate r ↔ 20 <= r)%Q.
Proof.
  unfold scoreOfRate.
  destruct (Qle_bool 30 r) eqn:H30; [q_bool; split; intros; lra|].
  destruct (Qle_bool 20 r) eqn:H20; [q_bool; split; intros; lra|].
  destruct (Qle_bool 10 r) eqn:H10; [q_bool; split; intros; lra|].
  destruct (Qle_bool 5 r) eqn:H5; [q_bool; split; intros; lra|].
  destruct (Qle_bool 0 r) eqn:H0; [q_bool; split; intros; lra|].
  destruct (Qle_bool 0 (50 + r)) eqn:H50; q_bool; split; intros; lra.
Qed.

Lemma score_below_50 (r : Q) : (scoreOfRate r < 50 ↔ r < 0)%Q.
Proof.
  unfold scoreOfRate.
  destruct (Qle_bool 30 r) eqn:H30; [q_bool; split; intros; lra|].
  destruct (Qle_bool 20 r) eqn:H20; [q_bool; split; intros; lra|].
  destruct (Qle_bool 10 r) eqn:H10; [q_bool; split; intros; lra|].
  destruct (Qle_bool 5 r) eqn:H5; [q_bool; split; intros; lra|].
  destruct (Qle_bool 0 r) eqn:H0; [q_bool; split; intros; lra|].
  destruct (Qle_bool 0 (50 + r)) eqn:H50; q_bool; split; intros; lra.
Qed.

Lemma ledgerIncome_nonneg (l : Ledger) :
  allMonths incomeNonNegative l → (0 <= ledgerIncome l)%Q.
Proof.
  intros Hall%allMonths_Forall. unfold ledgerIncome. apply Qsum_nonneg.
  rewrite Forall_forall in Hall. intros r Hr%Hall.
  unfold incomeNonNegative, isAmount in Hr. unfold compose.
  destruct (income r) as [q| | |]; try done. cbn [toQ]. by apply Qle_bool_iff.
Qed.

(** On a ledger of finite numbers, with expenses in categories of the
    registry and no negative income, at most five recommendations are
    given, and the two that rest on the savings rate agree with the two
    that rest on the score.  With the rate as the function computes it (0
    when the total income is not above 0): "Boost Your Savings" is given
    exactly when the rate is below 10, "Great Savings Rate!" exactly when
    it is at least 20, and "Budget Master!" exactly together with "Great
    Savings Rate!"; "Room for Improvement" is given only together with
    "Boost Your Savings", and only when the total income is 0 or the rate
    is below 0. *)
Theorem recommendations_follow_savings_rate (l : Ledger) (cats : list Category)
    (trend : option Trend) :
  NoDup (cat_id <$> cats) →
  allMonths finiteMonth l → allMonths (categoriesKnown cats) l →
  allMonths incomeNonNegative l →
  ∃ recs rate, getSmartRecommendations l cats trend = Some recs ∧
    (length recs ≤ 5)%nat ∧
    adviceRate l = JS.Num rate ∧
    (hasTitle "Boost Your Savings" recs = true ↔ (rate < 10)%Q) ∧
    (hasTitle "Great Savings Rate!" recs = true ↔ (20 <= rate)%Q) ∧
    hasTitle "Budget Master!" recs = hasTitle "Great Savings Rate!" recs ∧
    (hasTitle "Room for Improvement" recs = true →
     hasTitle "Boost Your Savings" recs = true ∧
     (JS.strictEq (totalIncome (calculateAllTimeStats l)) JS.zero = true ∨ (rate < 0)%Q)).
Proof.
  intros Hnodup Hfin Hknown Hincome.
  destruct (accumulateBreakdown_finite l cats Hnodup Hfin Hknown) as (f & t & Hacc & _).
  destruct (budgetScore_of_rate l Hfin) as (inc & Hinc & Hi & Hscore).
  pose proof (ledgerIncome_nonneg l Hincome) as Hnonneg.
  assert (Hadvice : ∃ rate score,
            adviceRate l = JS.Num rate ∧ getBudgetScore l = JS.Num score ∧
            if Qeq_bool inc 0 then (rate == 0)%Q ∧ (score == 0)%Q
            else (score == scoreOfRate rate)%Q).
  { unfold adviceRate. cbv zeta. fold (computedRate l). rewrite Hinc.
    unfold JS.gt, JS.zero. cbn [JS.lt].
    destruct (Qeq_bool inc 0) eqn:Hzero.
    - assert (Hlt : JS.Qlt_bool 0 inc = false) by (apply Qlt_bool_false; q_bool; lra).
      rewrite Hlt, Hscore. exists 0%Q, 0%Q. repeat split; reflexivity.
    - assert (Hlt : JS.Qlt_bool 0 inc = true).
      { apply Qlt_bool_iff. destruct (Qlt_le_dec 0 inc) as [|Hle]; [done|].
        exfalso. q_bool. apply Hzero. lra. }
      rewrite Hlt. destruct Hscore as (rate & score & -> & _ & -> & Heq).
      by exists rate, score. }
  destruct Hadvice as (rate & score & Hrate & Hq & Hcase).
  unfold getSmartRecommendations, getCategoryBreakdown. rewrite Hacc. cbv beta iota zeta.
  pose proof Hrate as Hrate'. unfold adviceRate in Hrate'. cbv zeta in Hrate'.
  rewrite Hrate', Hq.
  set (bs := sortBy _ _).
  eexists. exists rate. split; [reflexivity|]. split.
  { destruct (advice_lengths (JS.Num rate) (JS.Num score) bs l trend)
      as (L1 & L2 & L3 & L4 & L5).
    rewrite !length_app. lia. }
  split; [done|].
  destruct (savingsAdvice_titles rate) as (S1 & S2 & S3 & S4).
  destruct (scoreAdvice_titles score) as (T1 & T2 & T3 & T4).
  destruct (middle_advice_titles "Boost Your Savings" bs l trend)
    as (A1 & A2 & A3); try reflexivity.
  destruct (middle_advice_titles "Great Savings Rate!" bs l trend)
    as (B1 & B2 & B3); try reflexivity.
  destruct (middle_advice_titles "Budget Master!" bs l trend)
    as (C1 & C2 & C3); try reflexivity.
  destruct (middle_advice_titles "Room for Improvement" bs l trend)
    as (D1 & D2 & D3); try reflexivity.
  rewrite !hasTitle_app.
  rewrite S1, S2, S3, S4, T1, T2, T3, T4, A1, A2, A3, B1, B2, B3, C1, C2, C3, D1, D2, D3.
  cbn [orb]. rewrite !orb_false_r.
  rewrite Hinc. cbn [JS.strictEq JS.zero].
  pose proof (score_at_least_90 rate) as H90.
  pose proof (score_below_50 rate) as H50.
  split; [apply Qlt_bool_iff|]. split; [apply Qle_bool_iff|].
  destruct (Qeq_bool inc 0) eqn:Hzero.
  - destruct Hcase as [Hr Hs]. split.
    + destruct (Qle_bool 90 score) eqn:E1, (Qle_bool 20 rate) eqn:E2;
        try reflexivity; q_bool; exfalso; lra.
    + intros _. split; [apply Qlt_bool_iff; lra | by left].
  - split.
    + destruct (Qle_bool 90 score) eqn:E1, (Qle_bool 20 rate) eqn:E2;
        try reflexivity; q_bool; exfalso.
      * assert (20 <= rate)%Q by (apply H90; lra). lra.
      * assert (90 <= scoreOfRate rate)%Q by (apply H90; lra). lra.
    + intros Hlow%Qlt_bool_iff.
      assert (Hneg : (rate < 0)%Q) by (apply H50; lra).
      split; [apply Qlt_bool_iff; lra | by right].
Qed.

Lemma recommendations_follow_savings_rate_witness :
  NoDup (cat_id <$> categories) ∧
  allMonths finiteMonth twoMonths ∧ allMonths (categoriesKnown categories) twoMonths ∧
  allMonths incomeNonNegative twoMonths ∧
  ∃ recs, getSmartRecommendations twoMonths categories
            (getSpendingTrend twoMonths "2025-02") = Some recs ∧
          hasTitle "Budget Master!" recs = hasTitle "Great Savings Rate!" recs.
Proof.
  assert (Hall : ∀ P : MonthRecord → bool,
            P januaryMonth = true → P februaryMonth = true → allMonths P twoMonths).
  { intros P H1 H2. unfold allMonths, twoMonths.
    apply map_Forall_insert_2; [exact H1|].
    apply map_Forall_insert_2; [exact H2|]. apply map_Forall_empty. }
  assert (Hfin : allMonths finiteMonth twoMonths) by (apply Hall; reflexivity).
  assert (Hknown : allMonths (categoriesKnown categories) twoMonths)
    by (apply Hall; reflexivity).
  assert (Hincome : allMonths incomeNonNegative twoMonths) by (apply Hall; reflexivity).
  assert (Hdistinct : NoDup (cat_id <$> categories))
    by (apply (bool_decide_unpack _); vm_compute; exact I).
  split; [exact Hdistinct|]. split; [exact Hfin|].
  split; [exact Hknown|]. split; [exact Hincome|].
  destruct (recommendations_follow_savings_rate twoMonths categories
              (getSpendingTrend twoMonths "2025-02") Hdistinct Hfin Hknown Hincome)
    as (recs & rate & Hrecs & _ & _ & _ & _ & Hsame & _).
  exists recs. split; [exact Hrecs | exact Hsame].
Defined.

(** ** The month history *)

Lemma omap_total {A B : Type} (f : A → option B) (ks : list A) :
  (∀ k, k ∈ ks → is_Some (f k)) →
  length (omap f ks) = length ks ∧ ∀ i, omap f ks !! i = ks !! i ≫= f.
Proof.
  induction ks as [|k ks IH]; intros Hall; [done|].
  destruct (Hall k) as [b Hb]; [apply list_elem_of_here|].
  destruct IH as [Hlen Hlook]; [intros k' Hk'; apply Hall; by apply list_elem_of_further|].
  cbn [omap list_omap]. rewrite Hb. cbn [length]. split; [by rewrite Hlen|].
  intros [|i]; cbn; [by rewrite Hb | apply Hlook].
Qed.

(** The history holds the six latest known months, or all of them when
    there are fewer, in chronological order; the entry of a month shows
    the income, the total of the expenses and the remaining budget that
    the application shows when that month is the current one. *)
Theorem history_shows_latest_months (formatMonthYear : string → string) (s : State) :
  let history := getMonthlyHistory formatMonthYear (monthlyBudgets s) in
  let months := sortStrings (keys (monthlyBudgets s)) in
  length history = min 6 (size (monthlyBudgets s)) ∧
  ∀ i entry, history !! i = Some entry →
    ∃ month, months !! (length months - length history + i)%nat = Some month ∧
      knownMonth (monthlyBudgets s) month ∧
      he_month entry = firstWord (formatMonthYear month) ∧
      he_income entry = getIncome (setCurrentMonth month s) ∧
      he_expenses entry = calculateTotalExpenses (setCurrentMonth month s) ∧
      he_remaining entry = calculateRemaining (setCurrentMonth month s).
Proof.
  cbv zeta. unfold getMonthlyHistory.
  set (months := sortStrings (keys (monthlyBudgets s))).
  destruct (omap_total
              (λ month, historyEntry formatMonthYear month <$> monthlyBudgets s !! month)
              months) as [Hlen Hlook].
  { intros k Hk%months_elem. destruct Hk as [r Hr]. rewrite Hr. by eexists. }
  assert (Hmonths : length months = size (monthlyBudgets s)) by apply months_length.
  rewrite length_drop, Hlen, Hmonths. split; [lia|].
  intros i entry Hentry. rewrite lookup_drop, Hlook in Hentry.
  replace (size (monthlyBudgets s) - (size (monthlyBudgets s) - (size (monthlyBudgets s) - 6)) + i)%nat
    with (size (monthlyBudgets s) - 6 + i)%nat by lia.
  destruct (months !! (size (monthlyBudgets s) - 6 + i)%nat) as [month|] eqn:Hmonth; [|done].
  cbn in Hentry.
  destruct (monthlyBudgets s !! month) as [r|] eqn:Hr; [|done].
  injection Hentry as <-. exists month. split; [done|]. split; [by exists r|].
  unfold calculateRemaining, calculateTotalExpenses, getIncome, getExpenses,
    getCurrentMonthData.
  cbn [setCurrentMonth monthlyBudgets currentMonth]. rewrite Hr. done.
Qed.

Lemma history_shows_latest_months_witness :
  ∃ entry, getMonthlyHistory (λ _, "March 2025"%string) (monthlyBudgets rentState) !! 0%nat
           = Some entry ∧
    he_month entry = "March"%string ∧
    he_remaining entry = calculateRemaining (setCurrentMonth "2025-03" rentState).
Proof.
  destruct (history_shows_latest_months (λ _, "March 2025"%string) rentState) as [_ H].
  destruct (getMonthlyHistory (λ _, "March 2025"%string) (monthlyBudgets rentState) !! 0%nat)
    as [entry|] eqn:Hentry; [|vm_compute in Hentry; discriminate Hentry].
  destruct (H 0%nat entry Hentry) as (month & Hmonth & _ & Hname & _ & _ & Hrem).
  vm_compute in Hmonth. injection Hmonth as <-.
  exists entry. split; [reflexivity|]. split; [exact Hname | exact Hrem].
Defined.
